(** * Location-privacy simulation: density-aware expansion, direct
    k-anonymity, privacy-level classification and utility statistics.

    The Python sources are embedded as executable Rocq functions.  Python
    [int] is [Z]; a [dict] that is only looked up is a [gmap]; a [set] is a
    [gset]; a [list] used as a FIFO queue ([pop(0)] / [append]) is a [list].
    A raised exception is a value of [res]; every [while] loop carries a fuel
    bound computed from the graph, and the theorems show the bound is never
    reached on a well-formed graph. *)

From Stdlib Require Import ZArith QArith Qcanon Lia Lqa.
From stdpp Require Import base option list gmap sets fin_sets strings relations.

Local Open Scope Z_scope.
#[local] Set Warnings "-clear-no-such-hyp".

(** ** Outcomes of a Python call *)

Inductive exn : Type :=
  | KeyError
  | IndexError
  | NetworkXError
  | ValueError
  | ZeroDivisionError.

Inductive res (A : Type) : Type :=
  | Ret (a : A)
  | Raise (e : exn)
  | Timeout.

Arguments Ret {A} a.
Arguments Raise {A} e.
Arguments Timeout {A}.

#[global] Instance res_ret : MRet res := fun _ a => Ret a.
#[global] Instance res_bind : MBind res := fun _ _ f c =>
  match c with
  | Ret a => f a
  | Raise e => Raise e
  | Timeout => Timeout
  end.

(** [d[key]] on a dict. *)
Definition getitem {V : Type} (d : gmap Z V) (key : Z) : res V :=
  match d !! key with
  | Some v => Ret v
  | None => Raise KeyError
  end.

(** ** The networkx graph

    [g_nodes] is the node dictionary in insertion order, [g_adj] maps a node
    to its neighbours in adjacency order, [g_pos] holds the ["pos"] node
    attribute where one was set. *)

Record Graph : Type := {
  g_nodes : list Z;
  g_adj : gmap Z (list Z);
  g_pos : gmap Z (Z * Z)
}.

(** [G.neighbors(n)]: raises for a node that is not in the graph. *)
Definition neighbors (g : Graph) (n : Z) : res (list Z) :=
  match g_adj g !! n with
  | Some l => Ret l
  | None => Raise NetworkXError
  end.

Definition node_set (g : Graph) : gset Z := list_to_set (g_nodes g).

Definition edge (g : Graph) (u w : Z) : Prop :=
  ∃ l, g_adj g !! u = Some l ∧ w ∈ l.

(** What [nx.Graph] maintains: the adjacency has exactly the nodes as keys,
    every neighbour is a node, and edges are undirected. *)
Record wf_graph (g : Graph) : Prop := {
  wf_nodup : NoDup (g_nodes g);
  wf_keys : ∀ n, n ∈ g_nodes g ↔ is_Some (g_adj g !! n);
  wf_closed : ∀ u w, edge g u w → w ∈ g_nodes g;
  wf_sym : ∀ u w, edge g u w → edge g w u
}.

Definition connected (g : Graph) : Prop :=
  ∀ u w, u ∈ g_nodes g → w ∈ g_nodes g → rtc (edge g) u w.

(** [hops g n j w]: there is a walk of exactly [j] edges from [n] to [w]. *)
Inductive hops (g : Graph) (n : Z) : nat → Z → Prop :=
  | hops_O : hops g n O n
  | hops_S j u w : hops g n j u → edge g u w → hops g n (S j) w.

(** Hop distance from [n] to [w] is at most [d]. *)
Definition within (g : Graph) (n : Z) (d : nat) (w : Z) : Prop :=
  ∃ j, (j ≤ d)%nat ∧ hops g n j w.

(** ** Population counts *)

Section Population.
Variable user_locations : gmap Z Z.

Definition pop_at (v : Z) : Z := default 0 (user_locations !! v).

(** Sum of the per-node counts over a node set. *)
Definition aggregate (R : gset Z) : Z :=
  foldr Z.add 0 (pop_at <$> elements R).

Definition populated (g : Graph) : Prop :=
  ∀ n, n ∈ g_nodes g → is_Some (user_locations !! n).

Definition total_population (g : Graph) : Z := aggregate (node_set g).
End Population.

(** ** adka.py *)

Module ADKA.
Section Functions.
Variable G : Graph.
Variable user_locations : gmap Z Z.

Record dstate : Type := {
  d_visited : gset Z;
  d_queue : list (Z * Z);
  d_count : Z
}.

(** The [for neigh in G.neighbors(current)] body of [compute_density]. *)
Fixpoint density_scan (d : Z) (neighs : list Z) (s : dstate) : res dstate :=
  match neighs with
  | [] => Ret s
  | neigh :: rest =>
      if decide (neigh ∈ d_visited s) then density_scan d rest s
      else
        c ← getitem user_locations neigh;
        density_scan d rest
          {| d_visited := {[neigh]} ∪ d_visited s;
             d_queue := d_queue s ++ [(neigh, d + 1)];
             d_count := d_count s + c |}
  end.

(** [while queue:] of [compute_density]. *)
Fixpoint density_loop (fuel : nat) (depth : Z) (s : dstate) : res Z :=
  match fuel with
  | O => Timeout
  | S fuel' =>
      match d_queue s with
      | [] => Ret (d_count s)
      | (current, d) :: q =>
          let s0 := {| d_visited := d_visited s; d_queue := q;
                       d_count := d_count s |} in
          if decide (d = depth) then density_loop fuel' depth s0
          else
            neighs ← neighbors G current;
            s' ← density_scan d neighs s0;
            density_loop fuel' depth s'
      end
  end.

Definition loop_fuel : nat := S (S (length (g_nodes G))).

Definition compute_density (node : Z) (depth : Z) : res Z :=
  c ← getitem user_locations node;
  density_loop loop_fuel depth
    {| d_visited := {[node]}; d_queue := [(node, 0)]; d_count := c |}.

Definition select_k (density : Z) : Z :=
  if decide (density < 4) then 10
  else if decide (density < 10) then 5
  else 2.

Record estate : Type := {
  e_region : gset Z;
  e_queue : list Z;
  e_count : Z
}.

(** The [for neigh in G.neighbors(current)] body of [expand_region], with
    its [break] once the running count reaches [k]. *)
Fixpoint expand_scan (k : Z) (neighs : list Z) (s : estate) : res estate :=
  match neighs with
  | [] => Ret s
  | neigh :: rest =>
      if decide (neigh ∈ e_region s) then expand_scan k rest s
      else
        c ← getitem user_locations neigh;
        let s' := {| e_region := {[neigh]} ∪ e_region s;
                     e_queue := e_queue s ++ [neigh];
                     e_count := e_count s + c |} in
        if decide (k ≤ e_count s') then Ret s'
        else expand_scan k rest s'
  end.

(** [while user_count < k:] with an unguarded [queue.pop(0)]. *)
Fixpoint expand_loop (fuel : nat) (k : Z) (s : estate) : res (gset Z) :=
  match fuel with
  | O => Timeout
  | S fuel' =>
      if decide (e_count s < k) then
        match e_queue s with
        | [] => Raise IndexError
        | current :: q =>
            neighs ← neighbors G current;
            s' ← expand_scan k neighs
                   {| e_region := e_region s; e_queue := q;
                      e_count := e_count s |};
            expand_loop fuel' k s'
        end
      else Ret (e_region s)
  end.

Definition expand_region (start_node : Z) (k : Z) : res (gset Z) :=
  c ← getitem user_locations start_node;
  expand_loop loop_fuel k
    {| e_region := {[start_node]}; e_queue := [start_node]; e_count := c |}.
End Functions.
End ADKA.

(** ** density_aware__k_anonymity_simulation.py *)

Module DensityAware.
Record SmartCityGraph : Type := {
  graph : Graph;
  user_at_node : gmap Z Z
}.

Section Algorithm.
Variable city : SmartCityGraph.

(** [compute_local_density] has, line for line, the body of adka.py's
    [compute_density], reading [self.city] instead of the globals. *)
Definition compute_local_density (node : Z) (depth : Z) : res Z :=
  c ← getitem (user_at_node city) node;
  ADKA.density_loop (graph city) (user_at_node city)
    (ADKA.loop_fuel (graph city)) depth
    {| ADKA.d_visited := {[node]}; ADKA.d_queue := [(node, 0)];
       ADKA.d_count := c |}.

Definition classify_density_level (density : Z) : string :=
  if decide (density < 4) then "Sparse"
  else if decide (density < 10) then "Medium"
  else "Dense".

Definition select_adaptive_k (density : Z) : Z :=
  if decide (density < 4) then 10
  else if decide (density < 10) then 5
  else 2.

(** [while user_count < k and queue:]; the [for] body is the one of
    adka.py.  (density_aware_k_anonymity_simulation.py adds a [visited]
    set to this method that is written and never read.) *)
Fixpoint expand_loop (fuel : nat) (k : Z) (s : ADKA.estate)
    : res (gset Z) :=
  match fuel with
  | O => Timeout
  | S fuel' =>
      if decide (ADKA.e_count s < k) then
        match ADKA.e_queue s with
        | [] => Ret (ADKA.e_region s)
        | current :: q =>
            neighs ← neighbors (graph city) current;
            s' ← ADKA.expand_scan (user_at_node city) k neighs
                   {| ADKA.e_region := ADKA.e_region s;
                      ADKA.e_queue := q;
                      ADKA.e_count := ADKA.e_count s |};
            expand_loop fuel' k s'
        end
      else Ret (ADKA.e_region s)
  end.

Definition expand_anonymization_region (start_node : Z) (k : Z)
    : res (gset Z) :=
  c ← getitem (user_at_node city) start_node;
  expand_loop (ADKA.loop_fuel (graph city)) k
    {| ADKA.e_region := {[start_node]}; ADKA.e_queue := [start_node];
       ADKA.e_count := c |}.
End Algorithm.
End DensityAware.

(** ** Python floats

    A finite float is the rational it denotes; comparisons against the
    literals used in the sources are then exact.  Arithmetic on [Qc] stands
    for the float operation without its rounding. *)

Inductive pyfloat : Type :=
  | Finite (q : Qc)
  | PosInf
  | NegInf
  | NaN.

(** [x >= c] and [x < c] for a finite literal [c]. *)
Definition float_ge (x : pyfloat) (c : Qc) : bool :=
  match x with
  | Finite q => bool_decide (c ≤ q)%Qc
  | PosInf => true
  | NegInf | NaN => false
  end.

Definition float_lt (x : pyfloat) (c : Qc) : bool :=
  match x with
  | Finite q => bool_decide (q < c)%Qc
  | NegInf => true
  | PosInf | NaN => false
  end.

Definition float_leb (a b : pyfloat) : bool :=
  match a, b with
  | NaN, _ | _, NaN => false
  | NegInf, _ | _, PosInf => true
  | Finite p, Finite q => bool_decide (p ≤ q)%Qc
  | _, _ => false
  end.

Definition is_nan (x : pyfloat) : bool :=
  match x with NaN => true | _ => false end.

Definition Z2Qc (z : Z) : Qc := Q2Qc (inject_Z z).

(** ** k_anonymity.py *)

Module KAnonymity.
(** [users] is iterated with [.items()], so it keeps insertion order. *)
Record SmartCityGraph : Type := {
  graph : Graph;
  users : list (Z * Z);
  user_positions : gmap Z (Qc * Qc)
}.

Fixpoint dict_get (d : list (Z * Z)) (key : Z) : res Z :=
  match d with
  | [] => Raise KeyError
  | (k', v) :: rest => if decide (k' = key) then Ret v else dict_get rest key
  end.

(** [d[key] = v]: an existing key keeps its place. *)
Fixpoint dict_set (d : list (Z * Z)) (key v : Z) : list (Z * Z) :=
  match d with
  | [] => [(key, v)]
  | (k', v') :: rest =>
      if decide (k' = key) then (key, v) :: rest
      else (k', v') :: dict_set rest key v
  end.

Definition get_users_at_node (c : SmartCityGraph) (node_id : Z) : list Z :=
  omap (λ '(user_id, user_node),
          if decide (user_node = node_id) then Some user_id else None)
       (users c).

(** The process-wide [random] generator: [draws i] is what the [i]-th call
    of [random.uniform(-0.3, 0.3)] returns. *)
Record Random : Type := {
  draws : nat → Qc;
  cursor : nat
}.

Definition uniform (r : Random) : Qc * Random :=
  (draws r (cursor r), {| draws := draws r; cursor := S (cursor r) |}).

Definition move_user (c : SmartCityGraph) (r : Random)
    (user_id new_node : Z) : res (SmartCityGraph * Random) :=
  if decide (new_node ∈ g_nodes (graph c)) then
    '(base_x, base_y) ← getitem (g_pos (graph c)) new_node;
    let '(jx, r1) := uniform r in
    let '(jy, r2) := uniform r1 in
    Ret ({| graph := graph c;
            users := dict_set (users c) user_id new_node;
            user_positions :=
              <[user_id := ((Z2Qc base_x + jx)%Qc, (Z2Qc base_y + jy)%Qc)]>
                (user_positions c) |}, r2)
  else Ret (c, r).

Record KAnonymityPrivacyManager : Type := {
  city : SmartCityGraph;
  k : Z
}.

Definition init (city_graph : SmartCityGraph) (k : Z)
    : res KAnonymityPrivacyManager :=
  Ret {| city := city_graph; k := k |}.

Record kstate : Type := {
  k_visited : gset Z;
  k_queue : list Z;
  k_region : gset Z;
  k_users : gset Z
}.

(** [for neighbor in self.city.graph.neighbors(current_node)]. *)
Fixpoint enqueue_neighbors (neighs : list Z) (s : kstate) : kstate :=
  match neighs with
  | [] => s
  | neighbor :: rest =>
      if decide (neighbor ∈ k_visited s) then enqueue_neighbors rest s
      else enqueue_neighbors rest
             {| k_visited := k_visited s;
                k_queue := k_queue s ++ [neighbor];
                k_region := {[neighbor]} ∪ k_region s;
                k_users := k_users s |}
  end.

Definition degree (g : Graph) (n : Z) : nat :=
  length (default [] (g_adj g !! n)).

Definition find_fuel (g : Graph) : nat :=
  S (S (sum_list ((λ n, S (degree g n)) <$> g_nodes g))).

(** [lst[:n]]. *)
Definition slice_to {A : Type} (l : list A) (n : Z) : list A :=
  if decide (0 ≤ n) then take (Z.to_nat n) l
  else take (length l - Z.to_nat (- n)) l.

(** [sum(...) / len(positions)]. *)
Definition mean_of (xs : list Z) : res Qc :=
  if decide (length xs = O) then Raise ZeroDivisionError
  else Ret (Z2Qc (foldr Z.add 0%Z xs) / Z2Qc (Z.of_nat (length xs)))%Qc.

Section Manager.
Variable self : KAnonymityPrivacyManager.

(** [while queue and len(users_in_region) < self.k:]. *)
Fixpoint find_loop (fuel : nat) (s : kstate) : res kstate :=
  match fuel with
  | O => Timeout
  | S fuel' =>
      match k_queue s with
      | [] => Ret s
      | current_node :: q =>
          if decide (Z.of_nat (size (k_users s)) < k self) then
            let s0 := {| k_visited := k_visited s; k_queue := q;
                         k_region := k_region s; k_users := k_users s |} in
            if decide (current_node ∈ k_visited s) then find_loop fuel' s0
            else
              let s1 :=
                {| k_visited := {[current_node]} ∪ k_visited s;
                   k_queue := q;
                   k_region := k_region s;
                   k_users := k_users s ∪
                     list_to_set (get_users_at_node (city self) current_node)
                |} in
              if decide (k self ≤ Z.of_nat (size (k_users s1))) then Ret s1
              else
                neighs ← neighbors (graph (city self)) current_node;
                find_loop fuel' (enqueue_neighbors neighs s1)
          else Ret s
      end
  end.

(** Returns [(region_nodes, list(users_in_region))]; the list is the
    set's enumeration, whose order Python leaves unspecified. *)
Definition find_k_anonymous_region (query_user : Z)
    : res (gset Z * list Z) :=
  query_node ← dict_get (users (city self)) query_user;
  s ← find_loop (find_fuel (graph (city self)))
        {| k_visited := ∅; k_queue := [query_node];
           k_region := {[query_node]}; k_users := {[query_user]} |};
  Ret (k_region s, elements (k_users s)).

Definition get_anonymized_location (query_user : Z)
    : res (Qc * Qc * gset Z * list Z) :=
  '(region_nodes, users_in_region) ← find_k_anonymous_region query_user;
  let region_nodes :=
    if decide (Z.of_nat (length users_in_region) < k self)
    then list_to_set (slice_to (g_nodes (graph (city self))) (k self))
    else region_nodes in
  positions ← mapM (getitem (g_pos (graph (city self))))
                   (elements region_nodes);
  centroid_x ← mean_of (positions.*1);
  centroid_y ← mean_of (positions.*2);
  Ret (centroid_x, centroid_y, region_nodes, users_in_region).
End Manager.
End KAnonymity.

(** ** differential_privacy_simulation.py *)

Module DifferentialPrivacy.
Record DifferentialPrivacyLocationObfuscator : Type := {
  epsilon_values : list pyfloat;
  sensitivity : pyfloat
}.

Definition init (epsilon_values : list pyfloat)
    : res DifferentialPrivacyLocationObfuscator :=
  Ret {| epsilon_values := epsilon_values; sensitivity := Finite (Z2Qc 1) |}.

Definition calculate_privacy_level (epsilon : pyfloat) : string :=
  if float_ge epsilon (Z2Qc 5) then "Low Privacy"
  else if float_ge epsilon (Z2Qc 2) then "Medium Privacy"
  else if float_ge epsilon (Z2Qc 1) then "High Privacy"
  else if float_ge epsilon (Q2Qc (1 # 2)) then "Very High Privacy"
  else "Maximum Privacy".

(** numpy reductions over a sequence of floats.  On an empty array
    [np.mean], [np.median] and [np.std] return [nan] (with a warning) and
    [np.max], [np.min] raise [ValueError].  On a non-empty array the three
    averages are floating-point computations, taken as parameters;
    [np.max] and [np.min] propagate [nan]. *)
Section Numpy.
Variables mean_ne median_ne std_ne : list pyfloat → pyfloat.

Definition np_mean (a : list pyfloat) : res pyfloat :=
  match a with [] => Ret NaN | _ => Ret (mean_ne a) end.
Definition np_median (a : list pyfloat) : res pyfloat :=
  match a with [] => Ret NaN | _ => Ret (median_ne a) end.
Definition np_std (a : list pyfloat) : res pyfloat :=
  match a with [] => Ret NaN | _ => Ret (std_ne a) end.

Definition pick (keep_right : pyfloat → pyfloat → bool)
    (acc y : pyfloat) : pyfloat :=
  if is_nan acc then acc
  else if is_nan y then y
  else if keep_right acc y then y else acc.

Definition np_max (a : list pyfloat) : res pyfloat :=
  match a with
  | [] => Raise ValueError
  | x :: rest => Ret (foldl (pick float_leb) x rest)
  end.
Definition np_min (a : list pyfloat) : res pyfloat :=
  match a with
  | [] => Raise ValueError
  | x :: rest => Ret (foldl (pick (λ acc y, float_leb y acc)) x rest)
  end.

(** The dict literal is evaluated entry by entry, in source order. *)
Definition calculate_utility_loss (errors : list pyfloat)
    : res (list (string * pyfloat)) :=
  mean_error ← np_mean errors;
  median_error ← np_median errors;
  std_error ← np_std errors;
  max_error ← np_max errors;
  min_error ← np_min errors;
  Ret [("mean_error", mean_error); ("median_error", median_error);
       ("std_error", std_error); ("max_error", max_error);
       ("min_error", min_error)].
End Numpy.
End DifferentialPrivacy.

(** ** Loop invariants

    The states of the expansion loops are described relative to the graph,
    the population table, the seed and the target [k]. *)

(** A node set that no edge leaves. *)
Definition region_closed (G : Graph) (R : gset Z) : Prop :=
  ∀ u w, u ∈ R → edge G u w → w ∈ R.

Module Inv.
Section Expansion.
Variable G : Graph.
Variable user_locations : gmap Z Z.
Variables start k : Z.

(** What every state of the loop satisfies. *)
Definition e_base (s : ADKA.estate) : Prop :=
  start ∈ ADKA.e_region s ∧
  ADKA.e_region s ⊆ node_set G ∧
  ADKA.e_count s = aggregate user_locations (ADKA.e_region s) ∧
  ∀ x, x ∈ ADKA.e_queue s → x ∈ ADKA.e_region s.

(** Every region node still waits in the queue or has all its neighbours
    in the region. *)
Definition e_closed (s : ADKA.estate) : Prop :=
  ∀ u, u ∈ ADKA.e_region s →
       u ∈ ADKA.e_queue s ∨ ∀ w, edge G u w → w ∈ ADKA.e_region s.

Definition e_inv (s : ADKA.estate) : Prop :=
  e_base s ∧ (ADKA.e_count s < k → e_closed s).

Definition e_measure (s : ADKA.estate) : nat :=
  (size (node_set G ∖ ADKA.e_region s) + length (ADKA.e_queue s))%nat.
End Expansion.

Section Search.
Variable G : Graph.
Variables query_node query_user : Z.

(** What every state of the search loop satisfies. *)
Definition k_inv (s : KAnonymity.kstate) : Prop :=
  query_node ∈ KAnonymity.k_region s ∧
  KAnonymity.k_region s ⊆ node_set G ∧
  query_user ∈ KAnonymity.k_users s ∧
  ∀ x, x ∈ KAnonymity.k_queue s → x ∈ g_nodes G.

(** Queue entries still to come from the nodes of [l] not yet visited. *)
Fixpoint k_weight (V : gset Z) (l : list Z) : nat :=
  match l with
  | [] => O
  | n :: rest =>
      ((if decide (n ∈ V) then O else S (KAnonymity.degree G n))
       + k_weight V rest)%nat
  end.

Definition k_measure (s : KAnonymity.kstate) : nat :=
  (length (KAnonymity.k_queue s)
   + k_weight (KAnonymity.k_visited s) (g_nodes G))%nat.
End Search.

Section Density.
Variable G : Graph.
Variable user_locations : gmap Z Z.
Variable node : Z.
Variable D : nat.

(** The queue of [compute_density] is [qa ++ qb]: entries of depth [a]
    followed by entries of depth [a + 1].  Everything within [a] hops has
    been visited; what has been visited is within [a] hops or waits in
    [qb]; a node within [a] hops that no longer waits in [qa] has been
    expanded, unless [a] is the depth limit. *)
Record d_inv (a : nat) (qa qb : list (Z * Z)) (s : ADKA.dstate) : Prop := {
  di_queue : ADKA.d_queue s = qa ++ qb;
  di_level : (a ≤ D)%nat;
  di_front : ∀ p, p ∈ qa → p.2 = Z.of_nat a ∧ within G node a p.1;
  di_back : ∀ p, p ∈ qb →
              p.2 = Z.of_nat a + 1 ∧ (a < D)%nat ∧ within G node (S a) p.1;
  di_nodes : ADKA.d_visited s ⊆ node_set G;
  di_count : ADKA.d_count s = aggregate user_locations (ADKA.d_visited s);
  di_ball : ∀ w, within G node a w → w ∈ ADKA.d_visited s;
  di_expanded : ∀ u, within G node a u →
                  u ∈ qa.*1 ∨
                  ((a < D)%nat → ∀ w, edge G u w → w ∈ ADKA.d_visited s);
  di_visited : ∀ w, w ∈ ADKA.d_visited s → within G node a w ∨ w ∈ qb.*1
}.

Definition d_measure (s : ADKA.dstate) : nat :=
  (size (node_set G ∖ ADKA.d_visited s) + length (ADKA.d_queue s))%nat.
End Density.
End Inv.

(** Every node carries a ["pos"] attribute. *)
Definition positioned (g : Graph) : Prop :=
  ∀ n, n ∈ g_nodes g → is_Some (g_pos g !! n).

(** The branch [if len(users_in_region) < self.k:] of
    [get_anonymized_location] is taken. *)
Definition takes_fallback (self : KAnonymity.KAnonymityPrivacyManager)
    (query_user : Z) : bool :=
  match KAnonymity.find_k_anonymous_region self query_user with
  | Ret (_, users_in_region) =>
      bool_decide (Z.of_nat (length users_in_region) < KAnonymity.k self)
  | _ => false
  end.

(** ** Checking a concrete graph *)

Definition check_wf (g : Graph) : bool :=
  bool_decide (NoDup (g_nodes g)) &&
  bool_decide (dom (g_adj g) = node_set g) &&
  forallb (λ u,
     forallb (λ w, bool_decide (w ∈ g_nodes g) &&
                   bool_decide (u ∈ default [] (g_adj g !! w)))
             (default [] (g_adj g !! u)))
    (g_nodes g).

(** Nodes within [n] edges of the set [X]. *)
Fixpoint reach (g : Graph) (n : nat) (X : gset Z) : gset Z :=
  match n with
  | O => X
  | S n' =>
      reach g n'
        (X ∪ list_to_set (elements X ≫= λ u, default [] (g_adj g !! u)))
  end.

Definition check_connected (g : Graph) : bool :=
  match g_nodes g with
  | [] => true
  | root :: _ =>
      bool_decide (node_set g ⊆ reach g (length (g_nodes g)) {[root]})
  end.

(** ** Concrete inputs *)

(** [nx.convert_node_labels_to_integers(nx.grid_2d_graph(n, n))]: node
    [i * n + j] for row [i] and column [j]; its neighbours in adjacency
    order are the nodes above, to the left, below and to the right. *)
Definition grid_2d_graph (n : Z) : Graph :=
  let nodes := seqZ 0 (n * n) in
  let adj (v : Z) : list Z :=
    (if decide (0 < v `div` n) then [v - n] else []) ++
    (if decide (0 < v `mod` n) then [v - 1] else []) ++
    (if decide (v `div` n < n - 1) then [v + n] else []) ++
    (if decide (v `mod` n < n - 1) then [v + 1] else []) in
  {| g_nodes := nodes;
     g_adj := list_to_map ((λ v, (v, adj v)) <$> nodes);
     g_pos := ∅ |}.

(** The graph [SmartCityGraph._create_city_graph] builds when no diagonal
    road is drawn: node [i * n + j] at position [(i, j)], joined to the
    nodes above, to the left, to the right and below, in that order. *)
Definition city_grid (n : Z) : Graph :=
  let nodes := seqZ 0 (n * n) in
  let adj (v : Z) : list Z :=
    (if decide (0 < v `div` n) then [v - n] else []) ++
    (if decide (0 < v `mod` n) then [v - 1] else []) ++
    (if decide (v `mod` n < n - 1) then [v + 1] else []) ++
    (if decide (v `div` n < n - 1) then [v + n] else []) in
  {| g_nodes := nodes;
     g_adj := list_to_map ((λ v, (v, adj v)) <$> nodes);
     g_pos := list_to_map ((λ v, (v, (v `div` n, v `mod` n))) <$> nodes) |}.

(** A 2x2 grid with populations 1, 0, 2, 0. *)
Definition grid2 : Graph := grid_2d_graph 2.

Definition pop2 : gmap Z Z := list_to_map [(0, 1); (1, 0); (2, 2); (3, 0)].

(** The 5x5 grid of adka.py with all 30 users drawn onto node 0. *)
Definition grid5 : Graph := grid_2d_graph 5.

Definition pop5 : gmap Z Z :=
  list_to_map ((λ v, (v, if decide (v = 0) then 30 else 0)) <$> seqZ 0 25).

(** A 2x2 city with three users: two at node 0, one at node 3. *)
Definition city2 : KAnonymity.SmartCityGraph :=
  {| KAnonymity.graph := city_grid 2;
     KAnonymity.users := [(0, 0); (1, 0); (2, 3)];
     KAnonymity.user_positions := ∅ |}.

(** [SmartCityGraph(grid_size=1)] with a single user. *)
Definition city1 : KAnonymity.SmartCityGraph :=
  {| KAnonymity.graph := city_grid 1;
     KAnonymity.users := [(0, 0)];
     KAnonymity.user_positions := ∅ |}.

Definition rng0 : KAnonymity.Random :=
  {| KAnonymity.draws := λ _, Q2Qc (1 # 10); KAnonymity.cursor := O |}.

(** ** Regions as subgraphs *)

(** An edge of [G] between two nodes of [R]. *)
Definition edge_in (G : Graph) (R : gset Z) (u w : Z) : Prop :=
  edge G u w ∧ u ∈ R ∧ w ∈ R.

(** Every node of [R] is reached from [start] without leaving [R]. *)
Definition region_connected (G : Graph) (R : gset Z) (start : Z) : Prop :=
  ∀ x, x ∈ R → rtc (edge_in G R) start x.

(** [R] is the seed alone, or it is a set that held fewer than [k] users
    plus the one node added last. *)
Definition region_tight (user_locations : gmap Z Z) (k start : Z)
    (R : gset Z) : Prop :=
  R = {[start]} ∨
  ∃ w R', (w ∉ R') ∧ R = {[w]} ∪ R' ∧ start ∈ R' ∧
          aggregate user_locations R' < k.

(** User [u] stands at node [n]. *)
Definition located (c : KAnonymity.SmartCityGraph) (u n : Z) : Prop :=
  (u, n) ∈ KAnonymity.users c.

(** The user table has one entry per user id, as a dict has. *)
Definition users_ok (c : KAnonymity.SmartCityGraph) : Prop :=
  NoDup (KAnonymity.users c).*1.

(** Every user stands at a node of the graph. *)
Definition placed (c : KAnonymity.SmartCityGraph) : Prop :=
  ∀ u n, located c u n → n ∈ g_nodes (KAnonymity.graph c).

Module Track.
Section Expansion.
Variable G : Graph.
Variable user_locations : gmap Z Z.
Variables start k : Z.

(** What the expansion keeps true of its state whatever the graph. *)
Record e_good (s : ADKA.estate) : Prop := {
  eg_seed : start ∈ ADKA.e_region s;
  eg_count : ADKA.e_count s = aggregate user_locations (ADKA.e_region s);
  eg_queue : ∀ x, x ∈ ADKA.e_queue s → x ∈ ADKA.e_region s;
  eg_conn : region_connected G (ADKA.e_region s) start;
  eg_tight : region_tight user_locations k start (ADKA.e_region s)
}.
End Expansion.

Section Search.
Variable c : KAnonymity.SmartCityGraph.
Variables query_node query_user k : Z.

(** What the search keeps true of its state whatever the graph. *)
Record k_good (s : KAnonymity.kstate) : Prop := {
  kg_seed : query_node ∈ KAnonymity.k_region s;
  kg_visited : KAnonymity.k_visited s ⊆ KAnonymity.k_region s;
  kg_queue : ∀ x, x ∈ KAnonymity.k_queue s → x ∈ KAnonymity.k_region s;
  kg_frontier : ∀ x, x ∈ KAnonymity.k_region s →
                  x ∈ KAnonymity.k_visited s ∨ x ∈ KAnonymity.k_queue s;
  kg_conn : region_connected (KAnonymity.graph c) (KAnonymity.k_region s)
              query_node;
  kg_query : query_user ∈ KAnonymity.k_users s;
  kg_users : ∀ u, u ∈ KAnonymity.k_users s →
               u = query_user ∨
               ∃ n, n ∈ KAnonymity.k_visited s ∧ located c u n;
  kg_complete : ∀ n u, n ∈ KAnonymity.k_visited s → located c u n →
                  u ∈ KAnonymity.k_users s;
  kg_closed : Z.of_nat (size (KAnonymity.k_users s)) < k →
              ∀ n w, n ∈ KAnonymity.k_visited s →
                     edge (KAnonymity.graph c) n w →
                     w ∈ KAnonymity.k_region s
}.
End Search.
End Track.

(** ** The random generator

    Each call of the [random] module consumes one position of the
    generator.  [rng_index] is the raw integer behind [random.choice],
    [rng_unit] the value of [random.random()], from which
    [random.uniform(a, b)] is computed as [a + (b - a) * random()]. *)

Record Rng : Type := {
  rng_index : nat → nat;
  rng_unit : nat → Qc;
  rng_calls : nat
}.

Definition rng_next (r : Rng) : Rng :=
  {| rng_index := rng_index r; rng_unit := rng_unit r;
     rng_calls := S (rng_calls r) |}.

(** [random.choice(seq)]: raises on an empty sequence. *)
Definition choice {A : Type} (r : Rng) (seq : list A) : res (A * Rng) :=
  match seq !! (rng_index r (rng_calls r) `mod` length seq)%nat with
  | Some x => Ret (x, rng_next r)
  | None => Raise IndexError
  end.

Definition random_random (r : Rng) : Qc * Rng :=
  (rng_unit r (rng_calls r), rng_next r).

Definition random_uniform (r : Rng) (a b : Qc) : Qc * Rng :=
  ((a + (b - a) * rng_unit r (rng_calls r))%Qc, rng_next r).

(** ** Populating the graph and running the experiments *)

Module Experiment.
(** [for _ in range(count): n = random.choice(nodes); table[n] += 1]. *)
Fixpoint populate_loop (nodes : list Z) (count : nat) (table : gmap Z Z)
    (r : Rng) : res (gmap Z Z * Rng) :=
  match count with
  | O => Ret (table, r)
  | S count' =>
      '(n, r') ← choice r nodes;
      v ← getitem table n;
      populate_loop nodes count' (<[n := v + 1]> table) r'
  end.

(** adka.py, lines 14-18, and [SmartCityGraph.__init__] with
    [_populate_users]: every node starts at 0, then [num_users] draws. *)
Definition populate (G : Graph) (num_users : Z) (r : Rng)
    : res (gmap Z Z * Rng) :=
  populate_loop (g_nodes G) (Z.to_nat num_users)
    (list_to_map ((λ node, (node, 0)) <$> g_nodes G)) r.

(** One pass of the experiment loop of adka.py (lines 81-89): the three
    lists grow by the density, the selected [k] and [len(region)]. *)
Definition adka_run (G : Graph) (user_locations : gmap Z Z)
    (lists : list Z * list Z * list nat) (r : Rng)
    : res (list Z * list Z * list nat * Rng) :=
  let '(density_list, k_list, region_size_list) := lists in
  '(target, r') ← choice r (g_nodes G);
  density ← ADKA.compute_density G user_locations target 1;
  let k := ADKA.select_k density in
  region ← ADKA.expand_region G user_locations target k;
  Ret (density_list ++ [density], k_list ++ [k],
       region_size_list ++ [size region], r').

Fixpoint adka_runs (G : Graph) (user_locations : gmap Z Z) (runs : nat)
    (lists : list Z * list Z * list nat) (r : Rng)
    : res (list Z * list Z * list nat * Rng) :=
  match runs with
  | O => Ret (lists, r)
  | S runs' =>
      '(lists', r') ← adka_run G user_locations lists r;
      adka_runs G user_locations runs' lists' r'
  end.

(** [DensityAwareKAnonymityExperiment.run_simulation]: the same pass with
    the methods of the algorithm object. *)
Definition class_run (city : DensityAware.SmartCityGraph)
    (lists : list Z * list Z * list nat) (r : Rng)
    : res (list Z * list Z * list nat * Rng) :=
  let '(densities, k_values, region_sizes) := lists in
  '(target, r') ← choice r (g_nodes (DensityAware.graph city));
  d ← DensityAware.compute_local_density city target 1;
  let k := DensityAware.select_adaptive_k d in
  region ← DensityAware.expand_anonymization_region city target k;
  Ret (densities ++ [d], k_values ++ [k], region_sizes ++ [size region], r').

Fixpoint class_runs (city : DensityAware.SmartCityGraph) (runs : nat)
    (lists : list Z * list Z * list nat) (r : Rng)
    : res (list Z * list Z * list nat * Rng) :=
  match runs with
  | O => Ret (lists, r)
  | S runs' =>
      '(lists', r') ← class_run city lists r;
      class_runs city runs' lists' r'
  end.

Definition run_simulation (city : DensityAware.SmartCityGraph) (runs : Z)
    (r : Rng) : res (list Z * list Z * list nat * Rng) :=
  class_runs city (Z.to_nat runs) ([], [], []) r.
End Experiment.

(** ** k_anonymity.py: the region-size metric *)

Module PrivacyAnalyzer.
(** [max(xs)] and [min(xs)]: [ValueError] on an empty sequence. *)
Definition py_max (xs : list Z) : res Z :=
  match xs with
  | [] => Raise ValueError
  | x :: rest => Ret (foldl Z.max x rest)
  end.

Definition py_min (xs : list Z) : res Z :=
  match xs with
  | [] => Raise ValueError
  | x :: rest => Ret (foldl Z.min x rest)
  end.

(** The early return is the float [0.0]; the other results are integers,
    the positions being integer pairs. *)
Definition calculate_region_size (region_nodes : gset Z)
    (city : KAnonymity.SmartCityGraph) : res Z :=
  if decide (size region_nodes ≤ 1)%nat then Ret 0
  else
    positions ← mapM (getitem (g_pos (KAnonymity.graph city)))
                     (elements region_nodes);
    let xs := positions.*1 in
    let ys := positions.*2 in
    max_x ← py_max xs;
    min_x ← py_min xs;
    max_y ← py_max ys;
    min_y ← py_min ys;
    Ret ((max_x - min_x + 1) * (max_y - min_y + 1)).
End PrivacyAnalyzer.

(** The ["pos"] attribute tells the nodes of [R] apart. *)
Definition distinct_positions (g : Graph) (R : gset Z) : Prop :=
  ∀ u v, u ∈ R → v ∈ R → g_pos g !! u = g_pos g !! v → u = v.

(** ** Building graphs edge by edge (networkx)

    [nx.Graph] keeps its nodes and each node's neighbours in insertion
    order.  A node entered by [add_edge] alone has no attributes. *)

Module Nx.
Definition empty_graph : Graph :=
  {| g_nodes := []; g_adj := ∅; g_pos := ∅ |}.

(** [if n not in self._node: self._adj[n] = {}; self._node[n] = {}]. *)
Definition ensure_node (g : Graph) (n : Z) : Graph :=
  if decide (n ∈ g_nodes g) then g
  else {| g_nodes := g_nodes g ++ [n];
          g_adj := <[n := []]> (g_adj g);
          g_pos := g_pos g |}.

(** [G.add_node(n, pos=p)]. *)
Definition add_node (g : Graph) (n : Z) (p : Z * Z) : Graph :=
  let g' := ensure_node g n in
  {| g_nodes := g_nodes g';
     g_adj := g_adj g';
     g_pos := <[n := p]> (g_pos g') |}.

(** [self._adj[u][v] = datadict]: a new neighbour goes last, a known one
    keeps its place. *)
Definition link (adj : gmap Z (list Z)) (u v : Z) : gmap Z (list Z) :=
  let l := default [] (adj !! u) in
  if decide (v ∈ l) then adj else <[u := l ++ [v]]> adj.

(** [G.add_edge(u, v)]. *)
Definition add_edge (g : Graph) (u v : Z) : Graph :=
  let g' := ensure_node (ensure_node g u) v in
  {| g_nodes := g_nodes g';
     g_adj := link (link (g_adj g') u v) v u;
     g_pos := g_pos g' |}.
End Nx.

(** ** k_anonymity.py: building the city and running the simulation *)

Module CitySimulation.
(** [range(n)] and [range(0, stop, 2)]. *)
Definition range (n : Z) : list Z := seqZ 0 n.

Definition range_by_2 (stop : Z) : list Z :=
  (λ i, 2 * i) <$> seqZ 0 ((stop + 1) `div` 2).

(** Lines 40-47: the intersections. *)
Definition add_intersections (grid_size : Z) (g : Graph) : Graph :=
  foldl (λ g i,
    foldl (λ g j, Nx.add_node g (i * grid_size + j) (i, j))
          g (range grid_size))
    g (range grid_size).

(** Lines 49-59: streets to the right, avenues downwards. *)
Definition add_roads (grid_size : Z) (g : Graph) : Graph :=
  foldl (λ g i,
    foldl (λ g j,
      let current := i * grid_size + j in
      let g1 :=
        if decide (j < grid_size - 1)
        then Nx.add_edge g current (i * grid_size + (j + 1)) else g in
      if decide (i < grid_size - 1)
      then Nx.add_edge g1 current ((i + 1) * grid_size + j) else g1)
      g (range grid_size))
    g (range grid_size).

(** Lines 61-70: a diagonal where [random.random() > 0.7].  No double lies
    between the float [0.7] and the rational 7/10, so the test is the same
    on both. *)
Definition add_diagonals (grid_size : Z) (g : Graph) (r : Rng)
    : Graph * Rng :=
  foldl (λ s i,
    foldl (λ s j,
      let '(g, r) := s in
      let '(x, r') := random_random r in
      if decide (Q2Qc (7 # 10) < x)%Qc
      then (Nx.add_edge g (i * grid_size + j)
                        ((i + 1) * grid_size + (j + 1)), r')
      else (g, r'))
      s (range_by_2 (grid_size - 1)))
    (g, r) (range_by_2 (grid_size - 1)).

Definition _create_city_graph (grid_size : Z) (g : Graph) (r : Rng)
    : Graph * Rng :=
  add_diagonals grid_size (add_roads grid_size (add_intersections grid_size g))
                r.

(** [SmartCityGraph(grid_size)]. *)
Definition SmartCityGraph_init (grid_size : Z) (r : Rng)
    : KAnonymity.SmartCityGraph * Rng :=
  let '(g, r') := _create_city_graph grid_size Nx.empty_graph r in
  ({| KAnonymity.graph := g;
      KAnonymity.users := [];
      KAnonymity.user_positions := ∅ |}, r').

(** The loop of [add_users]: the node is drawn first, the position offsets
    after the ["pos"] lookup, x before y.  Offsets are taken as exact
    rationals. *)
Fixpoint add_users_loop (nodes ids : list Z) (c : KAnonymity.SmartCityGraph)
    (r : Rng) : res (KAnonymity.SmartCityGraph * Rng) :=
  match ids with
  | [] => Ret (c, r)
  | user_id :: rest =>
      '(node, r1) ← choice r nodes;
      '(base_x, base_y) ← getitem (g_pos (KAnonymity.graph c)) node;
      let '(jx, r2) := random_uniform r1 (Q2Qc (-3 # 10)) (Q2Qc (3 # 10)) in
      let '(jy, r3) := random_uniform r2 (Q2Qc (-3 # 10)) (Q2Qc (3 # 10)) in
      add_users_loop nodes rest
        {| KAnonymity.graph := KAnonymity.graph c;
           KAnonymity.users :=
             KAnonymity.dict_set (KAnonymity.users c) user_id node;
           KAnonymity.user_positions :=
             <[user_id := ((Z2Qc base_x + jx)%Qc, (Z2Qc base_y + jy)%Qc)]>
               (KAnonymity.user_positions c) |}
        r3
  end.

Definition add_users (c : KAnonymity.SmartCityGraph) (num_users : Z)
    (r : Rng) : res (KAnonymity.SmartCityGraph * Rng) :=
  add_users_loop (g_nodes (KAnonymity.graph c)) (range num_users) c r.

(** The results of [run_simulation], one entry per value of [k]. *)
Record results : Type := {
  k_values : list Z;
  privacy_errors : list pyfloat;
  region_sizes : list pyfloat;
  user_coverage : list pyfloat
}.

(** The floating-point computations of the simulation: [math.dist],
    [np.mean] of a non-empty list, and [(a / b) * 100] for [b] other than
    zero. *)
Section Floats.
Variable math_dist : Qc * Qc → Qc * Qc → pyfloat.
Variable mean_errors : list pyfloat → pyfloat.
Variable mean_sizes : list Z → pyfloat.
Variable percent : Z → Z → pyfloat.

(** The body of [for user_id in range(num_users)]: what was counted before
    an exception stays counted. *)
Definition visit_user (manager : KAnonymity.KAnonymityPrivacyManager)
    (st : Z * list pyfloat * list Z) (user_id : Z)
    : res (Z * list pyfloat * list Z) :=
  let '(successful, errors, sizes) := st in
  let city := KAnonymity.city manager in
  match getitem (KAnonymity.user_positions city) user_id with
  | Timeout => Timeout
  | Raise _ => Ret st
  | Ret true_pos =>
      match KAnonymity.get_anonymized_location manager user_id with
      | Timeout => Timeout
      | Raise _ => Ret st
      | Ret (anon_x, anon_y, region_nodes, users) =>
          if decide (KAnonymity.k manager ≤ Z.of_nat (length users)) then
            let successful := successful + 1 in
            let errors := errors ++ [math_dist true_pos (anon_x, anon_y)] in
            match PrivacyAnalyzer.calculate_region_size region_nodes city with
            | Timeout => Timeout
            | Raise _ => Ret (successful, errors, sizes)
            | Ret a => Ret (successful, errors, sizes ++ [a])
            end
          else Ret st
      end
  end.

Fixpoint visit_users (manager : KAnonymity.KAnonymityPrivacyManager)
    (st : Z * list pyfloat * list Z) (ids : list Z)
    : res (Z * list pyfloat * list Z) :=
  match ids with
  | [] => Ret st
  | user_id :: rest =>
      st' ← visit_user manager st user_id;
      visit_users manager st' rest
  end.

(** One pass of [for k in k_values]. *)
Definition evaluate_k (city : KAnonymity.SmartCityGraph) (num_users k : Z)
    : res (pyfloat * pyfloat * pyfloat) :=
  manager ← KAnonymity.init city k;
  '(successful, errors, sizes) ←
    visit_users manager (0, [], []) (range num_users);
  let privacy_error :=
    match errors with [] => PosInf | _ => mean_errors errors end in
  let region_size :=
    match sizes with [] => Finite (Z2Qc 0) | _ => mean_sizes sizes end in
  if decide (num_users = 0) then Raise ZeroDivisionError
  else Ret (privacy_error, region_size, percent successful num_users).

Definition run_simulation (grid_size num_users : Z) (ks : list Z) (r : Rng)
    : res (KAnonymity.SmartCityGraph * results * Rng) :=
  let '(city, r1) := SmartCityGraph_init grid_size r in
  '(city, r2) ← add_users city num_users r1;
  rows ← mapM (evaluate_k city num_users) ks;
  Ret (city,
       {| k_values := ks;
          privacy_errors := rows.*1.*1;
          region_sizes := rows.*1.*2;
          user_coverage := rows.*2 |},
       r2).
End Floats.
End CitySimulation.

(** The two ends of a road or a diagonal: different cells of the grid, at
    most one row and one column apart. *)
Definition near (n u w : Z) : Prop :=
  ∃ i j i' j',
    0 ≤ i < n ∧ 0 ≤ j < n ∧ 0 ≤ i' < n ∧ 0 ≤ j' < n ∧
    u = i * n + j ∧ w = i' * n + j' ∧
    -1 ≤ i' - i ≤ 1 ∧ -1 ≤ j' - j ≤ 1 ∧ u ≠ w.

(** The roads of the grid: every cell is joined to the cell on its right
    and to the cell below. *)
Definition has_roads (n : Z) (g : Graph) : Prop :=
  ∀ i j, 0 ≤ i < n → 0 ≤ j < n →
    (j < n - 1 → edge g (i * n + j) (i * n + (j + 1))) ∧
    (i < n - 1 → edge g (i * n + j) ((i + 1) * n + j)).

(** The nodes are the cells of the grid, each at its own position. *)
Definition is_grid (n : Z) (g : Graph) : Prop :=
  (∀ v, v ∈ g_nodes g ↔ ∃ i j, 0 ≤ i < n ∧ 0 ≤ j < n ∧ v = i * n + j) ∧
  (∀ i j, 0 ≤ i < n → 0 ≤ j < n → g_pos g !! (i * n + j) = Some (i, j)).

(** What the graph of the city keeps while roads are added: it is a
    well-formed graph on the cells of the grid whose edges join
    neighbouring cells. *)
Definition grid_like (n : Z) (g : Graph) : Prop :=
  wf_graph g ∧ is_grid n g ∧ ∀ u w, edge g u w → near n u w.

(** ** The summary of an experiment *)

Module Statistics.
(** [statistics.mean]: exact on integers.  On no data it raises
    [StatisticsError], which is a [ValueError].  A mean that is not an
    integer is returned as the nearest float. *)
Definition mean (data : list Z) : res Qc :=
  match data with
  | [] => Raise ValueError
  | _ => Ret (Z2Qc (foldr Z.add 0%Z data) / Z2Qc (Z.of_nat (length data)))%Qc
  end.
End Statistics.

Module ExperimentSummary.
Record summary : Type := {
  avg_density : Qc;
  avg_k : Qc;
  avg_region_size : Qc;
  max_region_size : Z;
  min_region_size : Z
}.

(** [get_experiment_summary] (and [summary] of the other copy) on the
    three lists of the experiment. *)
Definition get_experiment_summary (densities k_values : list Z)
    (region_sizes : list nat) : res summary :=
  avg_density ← Statistics.mean densities;
  avg_k ← Statistics.mean k_values;
  avg_region_size ← Statistics.mean (Z.of_nat <$> region_sizes);
  max_region_size ← PrivacyAnalyzer.py_max (Z.of_nat <$> region_sizes);
  min_region_size ← PrivacyAnalyzer.py_min (Z.of_nat <$> region_sizes);
  Ret {| avg_density := avg_density; avg_k := avg_k;
         avg_region_size := avg_region_size;
         max_region_size := max_region_size;
         min_region_size := min_region_size |}.
End ExperimentSummary.

(** ** differential_privacy_simulation.py: adding noise *)

Module Obfuscation.
Definition is_zero (x : pyfloat) : bool :=
  match x with
  | Finite q => bool_decide (q = Z2Qc 0)
  | _ => false
  end.

(** The numpy generator and its draw [np.random.laplace(loc, scale)],
    which may raise, are parameters, and so are the division and the
    addition of floats. *)
Section Noise.
Variable generator : Type.
Variable np_random_laplace :
  pyfloat → pyfloat → generator → res (pyfloat * generator).
Variable float_div float_add : pyfloat → pyfloat → pyfloat.

(** [a / b] on Python floats. *)
Definition true_div (a b : pyfloat) : res pyfloat :=
  if is_zero b then Raise ZeroDivisionError else Ret (float_div a b).

Definition add_laplace_noise
    (self : DifferentialPrivacy.DifferentialPrivacyLocationObfuscator)
    (value epsilon : pyfloat) (g : generator) : res (pyfloat * generator) :=
  scale ← true_div (DifferentialPrivacy.sensitivity self) epsilon;
  '(noise, g') ← np_random_laplace (Finite (Z2Qc 0)) scale g;
  Ret (float_add value noise, g').

Definition obfuscate_location
    (self : DifferentialPrivacy.DifferentialPrivacyLocationObfuscator)
    (x y epsilon : pyfloat) (g : generator)
    : res (pyfloat * pyfloat * generator) :=
  '(noisy_x, g1) ← add_laplace_noise self x epsilon g;
  '(noisy_y, g2) ← add_laplace_noise self y epsilon g1;
  Ret (noisy_x, noisy_y, g2).

Fixpoint batch_obfuscate
    (self : DifferentialPrivacy.DifferentialPrivacyLocationObfuscator)
    (locations : list (pyfloat * pyfloat)) (epsilon : pyfloat)
    (g : generator) : res (list (pyfloat * pyfloat) * generator) :=
  match locations with
  | [] => Ret ([], g)
  | (x, y) :: rest =>
      '(noisy_x, noisy_y, g1) ← obfuscate_location self x y epsilon g;
      '(out, g2) ← batch_obfuscate self rest epsilon g1;
      Ret ((noisy_x, noisy_y) :: out, g2)
  end.
End Noise.
End Obfuscation.

(** ** differential_privacy_simulation.py: the devices of the city *)

Module DeviceSimulator.
Definition float_ltb (a b : pyfloat) : bool :=
  float_leb a b && negb (float_leb b a).

(** [min(a, b)] and [max(a, b)]: the second argument is returned only when
    it compares strictly below (above) the first, so never when it is
    [nan]. *)
Definition py_min2 (a b : pyfloat) : pyfloat :=
  if float_ltb b a then b else a.

Definition py_max2 (a b : pyfloat) : pyfloat :=
  if float_ltb a b then b else a.

Definition poi_centers : list (pyfloat * pyfloat) :=
  [(Finite (Z2Qc 2), Finite (Z2Qc 2)); (Finite (Z2Qc 8), Finite (Z2Qc 3));
   (Finite (Z2Qc 5), Finite (Z2Qc 7)); (Finite (Z2Qc 3), Finite (Z2Qc 8));
   (Finite (Z2Qc 7), Finite (Z2Qc 8))].

(** The numpy generator with its draw [np.random.normal(loc, scale)], the
    float computation of [random.uniform], and [int(0.7 * n)] are
    parameters. *)
Section Generators.
Variable np_state : Type.
Variable np_random_normal : pyfloat → pyfloat → np_state → pyfloat * np_state.
Variable uniform : pyfloat → pyfloat → Rng → pyfloat * Rng.
Variable int_of_share : Z → Z.

(** [for _ in range(clustered_devices)]. *)
Fixpoint clustered_loop (city_size : pyfloat) (count : nat)
    (locations : list (pyfloat * pyfloat)) (r : Rng) (g : np_state)
    : res (list (pyfloat * pyfloat) * Rng * np_state) :=
  match count with
  | O => Ret (locations, r, g)
  | S count' =>
      '(center, r') ← choice r poi_centers;
      let '(x, g1) :=
        np_random_normal center.1 (Finite (Q2Qc (8 # 10))) g in
      let '(y, g2) :=
        np_random_normal center.2 (Finite (Q2Qc (8 # 10))) g1 in
      let x := py_max2 (Finite (Z2Qc 0)) (py_min2 city_size x) in
      let y := py_max2 (Finite (Z2Qc 0)) (py_min2 city_size y) in
      clustered_loop city_size count' (locations ++ [(x, y)]) r' g2
  end.

(** [for _ in range(random_devices)]. *)
Fixpoint random_loop (city_size : pyfloat) (count : nat)
    (locations : list (pyfloat * pyfloat)) (r : Rng)
    : list (pyfloat * pyfloat) * Rng :=
  match count with
  | O => (locations, r)
  | S count' =>
      let '(x, r1) := uniform (Finite (Z2Qc 0)) city_size r in
      let '(y, r2) := uniform (Finite (Z2Qc 0)) city_size r1 in
      random_loop city_size count' (locations ++ [(x, y)]) r2
  end.

Definition _generate_device_locations (city_size : pyfloat)
    (num_devices : Z) (r : Rng) (g : np_state)
    : res (list (pyfloat * pyfloat) * Rng * np_state) :=
  let clustered_devices := int_of_share num_devices in
  let random_devices := num_devices - clustered_devices in
  '(locations, r1, g1) ←
    clustered_loop city_size (Z.to_nat clustered_devices) [] r g;
  let '(locations, r2) :=
    random_loop city_size (Z.to_nat random_devices) locations r1 in
  Ret (locations, r2, g1).
End Generators.
End DeviceSimulator.

(** A coordinate between 0 and the size of the city. *)
Definition in_city (size : Qc) (x : pyfloat) : Prop :=
  ∃ q, x = Finite q ∧ (Z2Qc 0 <= q)%Qc ∧ (q <= size)%Qc.

(** ** A density search without limit

    What [compute_density] keeps of its state when no queue entry ever
    meets the depth: every visited node is reached from the seed, and a
    visited node that no longer waits in the queue has all its neighbours
    visited. *)
Record sweep_inv (G : Graph) (user_locations : gmap Z Z) (node : Z)
    (s : ADKA.dstate) : Prop := {
  sw_nodes : ADKA.d_visited s ⊆ node_set G;
  sw_count : ADKA.d_count s = aggregate user_locations (ADKA.d_visited s);
  sw_queue : ∀ p, p ∈ ADKA.d_queue s → p.1 ∈ ADKA.d_visited s ∧ 0 ≤ p.2;
  sw_reach : ∀ w, w ∈ ADKA.d_visited s → rtc (edge G) node w;
  sw_done : ∀ u, u ∈ ADKA.d_visited s →
              u ∈ (ADKA.d_queue s).*1 ∨
              ∀ w, edge G u w → w ∈ ADKA.d_visited s;
  sw_seed : node ∈ ADKA.d_visited s
}.

(** ** Proof automation *)

(** Closed decidable facts are settled by evaluation. *)
Ltac by_evaluation := apply (bool_decide_unpack _); vm_compute; exact I.

Ltac qc_order :=
  unfold Qcle, Qclt, Z2Qc, Q2Qc in *; cbn [this] in *;
  repeat match goal with
         | H : context [Qred ?x] |- _ =>
             let y := eval vm_compute in (Qred x) in
             change (Qred x) with y in H
         end;
  repeat match goal with
         | q : Qc |- _ => destruct q as [? ?]; cbn [this] in *
         end;
  lra.

(** * Properties *)

(** ** The concrete inputs *)

Example grid2_adjacency :
  (λ v, g_adj grid2 !! v) <$> g_nodes grid2
  = [Some [2; 1]; Some [0; 3]; Some [0; 3]; Some [1; 2]].
Proof. vm_compute. reflexivity. Qed.

Example compute_density_grid2 : ADKA.compute_density grid2 pop2 0 1 = Ret 3.
Proof. vm_compute. reflexivity. Qed.

(** All 30 users on a corner of the 5x5 grid: the density there is 30, the
    selected [k] is 2 and the region stays the corner. *)
Example corner_scenario :
  ADKA.compute_density grid5 pop5 0 1 = Ret 30 ∧
  ADKA.select_k 30 = 2 ∧
  ADKA.expand_region grid5 pop5 0 2 = Ret {[0]}.
Proof. repeat split; vm_compute; reflexivity. Qed.

Example density_thresholds :
  (ADKA.select_k <$> [3; 4; 9; 10]) = [10; 5; 5; 2] ∧
  (DensityAware.select_adaptive_k <$> [3; 4; 9; 10]) = [10; 5; 5; 2] ∧
  (DensityAware.classify_density_level <$> [3; 4; 9; 10])
  = ["Sparse"; "Medium"; "Medium"; "Dense"].
Proof. repeat split; reflexivity. Qed.

(** Three users are wanted; user 2 stands alone at node 3, so the search
    grows until it reaches the two users at node 0. *)
Example find_k_city2 :
  KAnonymity.find_k_anonymous_region
    {| KAnonymity.city := city2; KAnonymity.k := 3 |} 2
  = Ret ({[0; 1; 2; 3]}, elements ({[0; 1; 2]} : gset Z)).
Proof. vm_compute. reflexivity. Qed.

(** ** Privacy-level classification *)

(** C9 (as stated): at ε = 2.0 the function does not return ["Medium"]. *)
Lemma privacy_level_label_at_2 :
  DifferentialPrivacy.calculate_privacy_level (Finite (Z2Qc 2)) ≠ "Medium".
Proof. vm_compute. discriminate. Qed.

(** C9 (amended): the five tiers, with the labels the code returns. *)
Theorem privacy_level_tiers (q : Qc) :
  ((Z2Qc 5 ≤ q)%Qc →
     DifferentialPrivacy.calculate_privacy_level (Finite q) = "Low Privacy") ∧
  ((Z2Qc 2 ≤ q)%Qc → (q < Z2Qc 5)%Qc →
     DifferentialPrivacy.calculate_privacy_level (Finite q)
     = "Medium Privacy") ∧
  ((Z2Qc 1 ≤ q)%Qc → (q < Z2Qc 2)%Qc →
     DifferentialPrivacy.calculate_privacy_level (Finite q) = "High Privacy") ∧
  ((Q2Qc (1 # 2) ≤ q)%Qc → (q < Z2Qc 1)%Qc →
     DifferentialPrivacy.calculate_privacy_level (Finite q)
     = "Very High Privacy") ∧
  ((q < Q2Qc (1 # 2))%Qc →
     DifferentialPrivacy.calculate_privacy_level (Finite q)
     = "Maximum Privacy") ∧
  DifferentialPrivacy.calculate_privacy_level PosInf = "Low Privacy" ∧
  DifferentialPrivacy.calculate_privacy_level NegInf = "Maximum Privacy" ∧
  DifferentialPrivacy.calculate_privacy_level (Finite (Z2Qc 5))
  = "Low Privacy" ∧
  DifferentialPrivacy.calculate_privacy_level (Finite (Q2Qc (49 # 100)))
  = "Maximum Privacy".
Proof.
  unfold DifferentialPrivacy.calculate_privacy_level, float_ge.
  split_and!; intros; try reflexivity;
    repeat (case_bool_decide; try reflexivity); exfalso; qc_order.
Qed.

Lemma privacy_level_tiers_witness :
  DifferentialPrivacy.calculate_privacy_level (Finite (Z2Qc 7))
  = "Low Privacy" ∧
  DifferentialPrivacy.calculate_privacy_level (Finite (Z2Qc 3))
  = "Medium Privacy" ∧
  DifferentialPrivacy.calculate_privacy_level (Finite (Q2Qc (3 # 2)))
  = "High Privacy" ∧
  DifferentialPrivacy.calculate_privacy_level (Finite (Q2Qc (3 # 4)))
  = "Very High Privacy" ∧
  DifferentialPrivacy.calculate_privacy_level (Finite (Q2Qc (1 # 4)))
  = "Maximum Privacy".
Proof.
  split_and!.
  - destruct (privacy_level_tiers (Z2Qc 7)) as (H & _).
    apply H; vm_compute; first [reflexivity | discriminate].
  - destruct (privacy_level_tiers (Z2Qc 3)) as (_ & H & _).
    apply H; vm_compute; first [reflexivity | discriminate].
  - destruct (privacy_level_tiers (Q2Qc (3 # 2))) as (_ & _ & H & _).
    apply H; vm_compute; first [reflexivity | discriminate].
  - destruct (privacy_level_tiers (Q2Qc (3 # 4))) as (_ & _ & _ & H & _).
    apply H; vm_compute; first [reflexivity | discriminate].
  - destruct (privacy_level_tiers (Q2Qc (1 # 4))) as (_ & _ & _ & _ & H & _).
    apply H; vm_compute; first [reflexivity | discriminate].
Defined.

(** Every comparison with [nan] is false, so [nan] falls through to the
    last tier. *)
Example privacy_level_nan :
  DifferentialPrivacy.calculate_privacy_level NaN = "Maximum Privacy".
Proof. reflexivity. Qed.

(** ** Utility statistics *)

(** C7: on an empty error sequence the first three reductions yield [nan]
    and [np.max] raises, so the call raises [ValueError]; the empty sequence
    is the only input on which it raises. *)
Theorem calculate_utility_loss_empty
    (mean_ne median_ne std_ne : list pyfloat → pyfloat) :
  DifferentialPrivacy.np_mean mean_ne [] = Ret NaN ∧
  DifferentialPrivacy.calculate_utility_loss mean_ne median_ne std_ne []
  = Raise ValueError ∧
  ∀ e errors,
    ∃ stats,
      DifferentialPrivacy.calculate_utility_loss mean_ne median_ne std_ne
        (e :: errors) = Ret stats ∧
      stats.*1 = ["mean_error"; "median_error"; "std_error"; "max_error";
                  "min_error"].
Proof.
  split; [reflexivity|]. split; [reflexivity|].
  intros e errors. eexists. split; reflexivity.
Qed.

(** ** Moving a user *)

(** C10: a move to a node that is not in the graph returns normally and
    leaves the city (node assignments and display positions of every user)
    and the random generator as they were. *)
Theorem move_user_unknown_node (c : KAnonymity.SmartCityGraph)
    (r : KAnonymity.Random) (user_id new_node : Z) :
  new_node ∉ g_nodes (KAnonymity.graph c) →
  KAnonymity.move_user c r user_id new_node = Ret (c, r).
Proof.
  intros Hnot. unfold KAnonymity.move_user.
  destruct (decide (new_node ∈ g_nodes (KAnonymity.graph c))) as [Hin|_].
  - contradiction.
  - reflexivity.
Qed.

Lemma move_user_unknown_node_witness :
  KAnonymity.move_user city2 rng0 1 99 = Ret (city2, rng0).
Proof.
  apply (move_user_unknown_node city2 rng0 1 99). by_evaluation.
Defined.

(** A move to a node of the graph does change the assignment. *)
Example move_user_known_node :
  (KAnonymity.users ∘ fst) <$>
    (match KAnonymity.move_user city2 rng0 1 3 with
     | Ret x => Some x | _ => None end)
  = Some [(0, 0); (1, 3); (2, 3)].
Proof. vm_compute. reflexivity. Qed.

(** ** Lookups of unknown ids *)

Lemma dict_get_unknown (d : list (Z * Z)) (key : Z) :
  key ∉ d.*1 → KAnonymity.dict_get d key = Raise KeyError.
Proof.
  induction d as [|[k' v] d IH]; intros Hnot; simpl.
  - reflexivity.
  - destruct (decide (k' = key)) as [->|Hne].
    + exfalso. apply Hnot. simpl. left.
    + apply IH. intros Hin. apply Hnot. simpl. right. exact Hin.
Qed.

Lemma get_users_at_node_nobody (c : KAnonymity.SmartCityGraph) (node_id : Z) :
  (∀ u n, (u, n) ∈ KAnonymity.users c → n ≠ node_id) →
  KAnonymity.get_users_at_node c node_id = [].
Proof.
  unfold KAnonymity.get_users_at_node.
  induction (KAnonymity.users c) as [|[u n] l IH]; intros Hall; simpl.
  - reflexivity.
  - destruct (decide (n = node_id)) as [Heq|Hne].
    + exfalso. apply (Hall u n); [left | exact Heq].
    + apply IH. intros u' n' Hin. apply (Hall u' n'). right. exact Hin.
Qed.

(** C8 (as stated): [get_users_at_node] on a node id that is not in the
    graph returns the empty list. *)
Lemma get_users_at_node_unknown_example :
  (99 ∉ g_nodes (KAnonymity.graph city2)) ∧
  KAnonymity.get_users_at_node city2 99 = [].
Proof.
  split; [by_evaluation|reflexivity].
Qed.

(** C8 (amended): the current node of an unknown user and the population of
    an unknown node are [KeyError]s; the users at a node id outside the graph
    are the empty list. *)
Theorem unknown_entity_lookups
    (self : KAnonymity.KAnonymityPrivacyManager)
    (G : Graph) (user_locations : gmap Z Z) (query_user node depth k : Z) :
  (query_user ∉ (KAnonymity.users (KAnonymity.city self)).*1 →
     KAnonymity.find_k_anonymous_region self query_user = Raise KeyError ∧
     KAnonymity.get_anonymized_location self query_user = Raise KeyError) ∧
  (user_locations !! node = None →
     ADKA.compute_density G user_locations node depth = Raise KeyError ∧
     ADKA.expand_region G user_locations node k = Raise KeyError ∧
     DensityAware.compute_local_density
       {| DensityAware.graph := G; DensityAware.user_at_node := user_locations |}
       node depth = Raise KeyError ∧
     DensityAware.expand_anonymization_region
       {| DensityAware.graph := G; DensityAware.user_at_node := user_locations |}
       node k = Raise KeyError) ∧
  (node ∉ g_nodes (KAnonymity.graph (KAnonymity.city self)) →
   Forall (λ p, p.2 ∈ g_nodes (KAnonymity.graph (KAnonymity.city self)))
          (KAnonymity.users (KAnonymity.city self)) →
     KAnonymity.get_users_at_node (KAnonymity.city self) node = []).
Proof.
  split; [|split].
  - intros Hnot.
    assert (KAnonymity.find_k_anonymous_region self query_user = Raise KeyError)
      as Hfind.
    { unfold KAnonymity.find_k_anonymous_region.
      rewrite (dict_get_unknown _ _ Hnot). reflexivity. }
    split; [exact Hfind|].
    unfold KAnonymity.get_anonymized_location. rewrite Hfind. reflexivity.
  - intros Hnone.
    unfold ADKA.compute_density, ADKA.expand_region,
      DensityAware.compute_local_density,
      DensityAware.expand_anonymization_region, getitem; simpl.
    rewrite Hnone. repeat split; reflexivity.
  - intros Hnot Hplaced. apply get_users_at_node_nobody.
    intros u n Hin ->. apply Hnot.
    rewrite Forall_forall in Hplaced. apply (Hplaced (u, node) Hin).
Qed.

Lemma unknown_entity_lookups_witness :
  KAnonymity.find_k_anonymous_region
    {| KAnonymity.city := city2; KAnonymity.k := 3 |} 7 = Raise KeyError ∧
  ADKA.compute_density grid2 pop2 99 1 = Raise KeyError ∧
  KAnonymity.get_users_at_node city2 99 = [].
Proof.
  destruct (unknown_entity_lookups
              {| KAnonymity.city := city2; KAnonymity.k := 3 |}
              grid2 pop2 7 99 1 3) as (Hu & Hp & Hn).
  split; [|split].
  - apply Hu. by_evaluation.
  - apply Hp. reflexivity.
  - apply Hn; by_evaluation.
Defined.

(** ** Configuration is not validated *)

(** C6 (as stated): a manager with [k = 0] and an obfuscator with an empty
    list of budgets are constructed without any error. *)
Lemma constructors_accept_invalid :
  KAnonymity.init city2 0
    = Ret {| KAnonymity.city := city2; KAnonymity.k := 0 |} ∧
  DifferentialPrivacy.init []
    = Ret {| DifferentialPrivacy.epsilon_values := [];
             DifferentialPrivacy.sensitivity := Finite (Z2Qc 1) |} ∧
  DifferentialPrivacy.init [Finite (Z2Qc 0); Finite (Z2Qc (-1))]
    = Ret {| DifferentialPrivacy.epsilon_values :=
               [Finite (Z2Qc 0); Finite (Z2Qc (-1))];
             DifferentialPrivacy.sensitivity := Finite (Z2Qc 1) |}.
Proof. repeat split; reflexivity. Qed.

(** C6 (amended): the constructors store whatever they are given, and a
    manager with [k ≤ 1] answers a known user at once with that user's node
    and the user alone. *)
Theorem constructors_do_not_validate
    (c : KAnonymity.SmartCityGraph) (k query_user query_node : Z)
    (epsilon_values : list pyfloat) :
  k ≤ 1 →
  KAnonymity.dict_get (KAnonymity.users c) query_user = Ret query_node →
  DifferentialPrivacy.init epsilon_values
    = Ret {| DifferentialPrivacy.epsilon_values := epsilon_values;
             DifferentialPrivacy.sensitivity := Finite (Z2Qc 1) |} ∧
  ∃ m, KAnonymity.init c k = Ret m ∧
       KAnonymity.find_k_anonymous_region m query_user
       = Ret ({[query_node]}, [query_user]).
Proof.
  intros Hk Hget. split; [reflexivity|].
  eexists. split; [reflexivity|].
  unfold KAnonymity.find_k_anonymous_region, KAnonymity.find_fuel.
  cbn [KAnonymity.city KAnonymity.k]. rewrite Hget.
  cbn [mbind res_bind KAnonymity.find_loop KAnonymity.k_queue
       KAnonymity.k_users KAnonymity.k].
  rewrite size_singleton.
  destruct (decide (Z.of_nat 1 < k)) as [Hlt|_]; [lia|].
  unfold mbind, res_bind. cbn [KAnonymity.k_region KAnonymity.k_users].
  rewrite elements_singleton. reflexivity.
Qed.

Lemma constructors_do_not_validate_witness :
  ∃ m, KAnonymity.init city2 0 = Ret m ∧
       KAnonymity.find_k_anonymous_region m 2 = Ret ({[3]}, [2]).
Proof.
  apply (constructors_do_not_validate city2 0 2 3 []).
  - lia.
  - reflexivity.
Defined.

Lemma node_set_elem (g : Graph) (n : Z) : n ∈ node_set g ↔ n ∈ g_nodes g.
Proof. unfold node_set. apply elem_of_list_to_set. Qed.

(** ** Soundness of the graph checks *)

Lemma check_wf_sound (g : Graph) : check_wf g = true → wf_graph g.
Proof.
  unfold check_wf. intros Hc.
  apply andb_prop in Hc as [Hc Hadj]. apply andb_prop in Hc as [Hnd Hdom].
  apply bool_decide_eq_true in Hnd, Hdom.
  assert (∀ n, n ∈ g_nodes g ↔ is_Some (g_adj g !! n)) as Hkeys.
  { intros n. rewrite <- node_set_elem, <- Hdom. apply elem_of_dom. }
  assert (∀ u w, edge g u w →
                 w ∈ g_nodes g ∧ u ∈ default [] (g_adj g !! w))
    as Hedge.
  { intros u w (l & Hl & Hw).
    assert (u ∈ g_nodes g) as Hu by (apply Hkeys; by exists l).
    rewrite forallb_forall in Hadj.
    specialize (Hadj u (proj1 (list_elem_of_In _ _) Hu)).
    rewrite Hl in Hadj. simpl in Hadj. rewrite forallb_forall in Hadj.
    specialize (Hadj w (proj1 (list_elem_of_In _ _) Hw)).
    apply andb_prop in Hadj as [H1 H2].
    apply bool_decide_eq_true in H1, H2. done. }
  split; [assumption|assumption| |].
  - intros u w He. by destruct (Hedge u w He).
  - intros u w He. destruct (Hedge u w He) as (_ & Hback).
    destruct (g_adj g !! w) as [l'|] eqn:Hl'; simpl in Hback.
    + exists l'. done.
    + inversion Hback.
Qed.

Lemma reach_sound (g : Graph) (n : nat) :
  ∀ X w, w ∈ reach g n X → ∃ x, x ∈ X ∧ rtc (edge g) x w.
Proof.
  induction n as [|n IH]; intros X w Hw; simpl in Hw.
  - exists w. done.
  - destruct (IH _ _ Hw) as (x & Hx & Hpath).
    apply elem_of_union in Hx as [Hx|Hx]; [by exists x|].
    apply elem_of_list_to_set, list_elem_of_bind in Hx as (u & Hxu & Hu).
    apply elem_of_elements in Hu.
    exists u. split; [assumption|].
    apply rtc_l with x; [|assumption].
    destruct (g_adj g !! u) as [l|] eqn:Hl; simpl in Hxu.
    + by exists l.
    + inversion Hxu.
Qed.

Lemma rtc_edge_sym (g : Graph) (u w : Z) :
  wf_graph g → rtc (edge g) u w → rtc (edge g) w u.
Proof.
  intros Hwf Hpath. induction Hpath as [|x y z Hxy _ IH]; [done|].
  eapply rtc_r; [exact IH|]. by apply (wf_sym g Hwf).
Qed.

Lemma check_connected_sound (g : Graph) :
  wf_graph g → check_connected g = true → connected g.
Proof.
  unfold check_connected. intros Hwf Hc u w Hu Hw.
  destruct (g_nodes g) as [|root rest] eqn:Hnodes; [inversion Hu|].
  apply bool_decide_eq_true in Hc.
  assert (∀ x, x ∈ root :: rest → rtc (edge g) root x) as Hroot.
  { intros x Hx.
    destruct (reach_sound g (length (root :: rest)) {[root]} x)
      as (r & Hr & Hpath).
    - apply Hc, node_set_elem. by rewrite Hnodes.
    - by apply elem_of_singleton in Hr as ->. }
  transitivity root.
  - apply rtc_edge_sym; [assumption|]. by apply Hroot.
  - by apply Hroot.
Qed.

Lemma check_positioned (g : Graph) :
  forallb (λ n, bool_decide (is_Some (g_pos g !! n))) (g_nodes g) = true →
  positioned g.
Proof.
  intros Hc n Hn. rewrite forallb_forall in Hc.
  specialize (Hc n (proj1 (list_elem_of_In _ _) Hn)).
  by apply bool_decide_eq_true in Hc.
Qed.

Lemma check_populated (user_locations : gmap Z Z) (g : Graph) :
  forallb (λ n, bool_decide (is_Some (user_locations !! n))) (g_nodes g) = true →
  populated user_locations g.
Proof.
  intros Hc n Hn. rewrite forallb_forall in Hc.
  specialize (Hc n (proj1 (list_elem_of_In _ _) Hn)).
  by apply bool_decide_eq_true in Hc.
Qed.

(** ** Aggregate population of a node set *)

Lemma sum_permutation (l1 l2 : list Z) :
  l1 ≡ₚ l2 → foldr Z.add 0 l1 = foldr Z.add 0 l2.
Proof.
  induction 1 as [|x l1 l2 _ IH|x y l|l1 l2 l3 _ IH1 _ IH2]; simpl; lia.
Qed.

Section Aggregate.
Variable user_locations : gmap Z Z.

Lemma aggregate_empty : aggregate user_locations ∅ = 0.
Proof. unfold aggregate. rewrite elements_empty. reflexivity. Qed.

Lemma aggregate_singleton (v : Z) :
  aggregate user_locations {[v]} = pop_at user_locations v.
Proof. unfold aggregate. rewrite elements_singleton. simpl. lia. Qed.

Lemma aggregate_disj_union (X Y : gset Z) :
  X ## Y →
  aggregate user_locations (X ∪ Y)
  = aggregate user_locations X + aggregate user_locations Y.
Proof.
  intros Hdisj. unfold aggregate.
  rewrite (sum_permutation _ (pop_at user_locations <$> (elements X ++ elements Y))).
  - rewrite fmap_app. induction (pop_at user_locations <$> elements X); simpl; lia.
  - apply fmap_Permutation, elements_disj_union, Hdisj.
Qed.

Lemma aggregate_insert (v : Z) (R : gset Z) :
  v ∉ R →
  aggregate user_locations ({[v]} ∪ R)
  = aggregate user_locations R + pop_at user_locations v.
Proof.
  intros Hnot. rewrite aggregate_disj_union by set_solver.
  rewrite aggregate_singleton. lia.
Qed.

Lemma aggregate_nonneg (R : gset Z) :
  (∀ v, v ∈ R → 0 ≤ pop_at user_locations v) →
  0 ≤ aggregate user_locations R.
Proof.
  intros Hpos. unfold aggregate.
  assert (∀ v, v ∈ elements R → 0 ≤ pop_at user_locations v) as Hl.
  { intros v Hv. apply Hpos, elem_of_elements, Hv. }
  induction (elements R) as [|x l IH]; [simpl; lia|].
  rewrite fmap_cons. cbn [foldr].
  assert (0 ≤ pop_at user_locations x) by (apply Hl; left).
  assert (0 ≤ foldr Z.add 0 (pop_at user_locations <$> l)).
  { apply IH. intros v Hv. apply Hl. right. exact Hv. }
  lia.
Qed.

Lemma aggregate_mono (X Y : gset Z) :
  X ⊆ Y →
  (∀ v, v ∈ Y → 0 ≤ pop_at user_locations v) →
  aggregate user_locations X ≤ aggregate user_locations Y.
Proof.
  intros Hsub Hpos.
  assert (aggregate user_locations Y
          = aggregate user_locations X + aggregate user_locations (Y ∖ X))
    as ->.
  { rewrite <- aggregate_disj_union by set_solver.
    f_equal. apply union_difference_L, Hsub. }
  assert (0 ≤ aggregate user_locations (Y ∖ X)).
  { apply aggregate_nonneg. intros v Hv. apply Hpos. set_solver. }
  lia.
Qed.
End Aggregate.

Lemma size_remove_fresh (N R : gset Z) (x : Z) :
  x ∈ N → x ∉ R →
  size (N ∖ R) = S (size (N ∖ ({[x]} ∪ R))).
Proof.
  intros HN HR.
  assert (N ∖ R = {[x]} ∪ (N ∖ ({[x]} ∪ R))) as ->.
  { apply set_eq. intros y.
    rewrite elem_of_union, !elem_of_difference, elem_of_union, elem_of_singleton.
    split.
    - intros [Hy Hn]. destruct (decide (y = x)) as [->|Hne]; [left; done|].
      right. split; [done|]. intros [?|?]; done.
    - intros [->|[Hy Hn]]; [done|]. split; [done|]. intros ?. apply Hn. by right. }
  rewrite size_union by set_solver. rewrite size_singleton. reflexivity.
Qed.

Lemma neighbors_of_node (g : Graph) (n : Z) :
  wf_graph g → n ∈ g_nodes g →
  ∃ l, neighbors g n = Ret l ∧ g_adj g !! n = Some l ∧
       ∀ w, w ∈ l → w ∈ g_nodes g.
Proof.
  intros Hwf Hn. destruct (proj1 (wf_keys g Hwf n) Hn) as [l Hl].
  exists l. unfold neighbors. rewrite Hl. repeat split.
  intros w Hw. apply (wf_closed g Hwf n w). exists l. done.
Qed.

Lemma closed_reaches_all (g : Graph) (R : gset Z) (start : Z) :
  connected g → start ∈ g_nodes g → start ∈ R →
  (∀ u w, u ∈ R → edge g u w → w ∈ R) →
  node_set g ⊆ R.
Proof.
  intros Hconn Hstart HR Hclosed w Hw.
  apply elem_of_list_to_set in Hw.
  specialize (Hconn start w Hstart Hw). clear Hstart Hw.
  induction Hconn as [|x y z Hxy _ IH]; [done|].
  apply IH. by eapply Hclosed.
Qed.

(** ** Region expansion *)

Section Expansion.
Variable G : Graph.
Variable user_locations : gmap Z Z.
Hypothesis Hwf : wf_graph G.
Hypothesis Hpop : populated user_locations G.
Variables start k : Z.

Local Abbreviation e_base := (Inv.e_base G user_locations start).
Local Abbreviation e_closed := (Inv.e_closed G).
Local Abbreviation e_inv := (Inv.e_inv G user_locations start k).
Local Abbreviation e_measure := (Inv.e_measure G).
Local Abbreviation region_closed := (region_closed G).

Lemma expand_scan_spec (neighs : list Z) :
  ∀ s, e_base s → (∀ w, w ∈ neighs → w ∈ g_nodes G) →
  ∃ s', ADKA.expand_scan user_locations k neighs s = Ret s' ∧
        e_base s' ∧
        ADKA.e_region s ⊆ ADKA.e_region s' ∧
        (∀ x, x ∈ ADKA.e_queue s → x ∈ ADKA.e_queue s') ∧
        (∀ x, x ∈ ADKA.e_region s' →
              x ∈ ADKA.e_region s ∨ x ∈ ADKA.e_queue s') ∧
        e_measure s' = e_measure s ∧
        (ADKA.e_count s' < k → ∀ w, w ∈ neighs → w ∈ ADKA.e_region s').
Proof.
  induction neighs as [|neigh rest IH]; intros s Hbase Hnodes.
  - exists s. simpl. split_and!; try done.
    + by left.
    + intros _ w Hw. inversion Hw.
  - simpl. destruct (decide (neigh ∈ ADKA.e_region s)) as [Hin|Hnin].
    + destruct (IH s Hbase) as (s' & Hrun & Hb & Hsub & Hq & Hnew & Hm & Hall).
      { intros w Hw. apply Hnodes. by right. }
      exists s'. split_and!; try done.
      intros Hlt w Hw. apply elem_of_cons in Hw as [->|Hw].
      * by apply Hsub.
      * by apply Hall.
    + assert (neigh ∈ g_nodes G) as Hnode by (apply Hnodes; left).
      destruct (Hpop neigh Hnode) as [c Hc].
      unfold getitem. rewrite Hc. cbn [mbind res_bind].
      set (s1 := {| ADKA.e_region := {[neigh]} ∪ ADKA.e_region s;
                    ADKA.e_queue := ADKA.e_queue s ++ [neigh];
                    ADKA.e_count := ADKA.e_count s + c |}).
      destruct Hbase as (Hs & Hsubn & Hcnt & Hqr).
      assert (e_base s1) as Hb1.
      { unfold e_base, s1; simpl. repeat split.
        - apply elem_of_union. by right.
        - intros x Hx. apply elem_of_union in Hx as [Hx|Hx]; [|by apply Hsubn].
          apply elem_of_singleton in Hx as ->.
          by apply elem_of_list_to_set.
        - rewrite aggregate_insert by done. rewrite Hcnt.
          unfold pop_at. rewrite Hc. reflexivity.
        - intros x Hx. apply elem_of_app in Hx as [Hx|Hx].
          + apply elem_of_union. right. by apply Hqr.
          + apply list_elem_of_singleton in Hx as ->.
            apply elem_of_union. left. by apply elem_of_singleton. }
      assert (e_measure s1 = e_measure s) as Hm1.
      { unfold e_measure, s1; simpl.
        rewrite (size_remove_fresh (node_set G) (ADKA.e_region s) neigh);
          [|by apply elem_of_list_to_set|done].
        rewrite length_app. simpl. lia. }
      assert (ADKA.e_region s ⊆ ADKA.e_region s1) as Hsub1
        by apply union_subseteq_r.
      assert (neigh ∈ ADKA.e_region s1) as Hin1
        by (apply elem_of_union; left; by apply elem_of_singleton).
      assert (∀ x, x ∈ ADKA.e_queue s → x ∈ ADKA.e_queue s1) as Hq1
        by (intros x Hx; apply elem_of_app; by left).
      assert (∀ x, x ∈ ADKA.e_region s1 →
                   x ∈ ADKA.e_region s ∨ x ∈ ADKA.e_queue s1) as Hnew1.
      { intros x Hx. apply elem_of_union in Hx as [Hx|Hx]; [|by left].
        right. apply elem_of_app. right.
        apply elem_of_singleton in Hx as ->. by left. }
      destruct (decide (k ≤ ADKA.e_count s + c)) as [Hge|Hlt].
      * exists s1. split_and!; try assumption; try reflexivity.
        intros Hlt. unfold s1 in Hlt; simpl in Hlt. lia.
      * destruct (IH s1 Hb1) as (s' & Hrun & Hb & Hsub & Hq & Hnew & Hm & Hall).
        { intros w Hw. apply Hnodes. by right. }
        exists s'. split_and!; try assumption.
        -- by etrans.
        -- intros x Hx. by apply Hq, Hq1.
        -- intros x Hx. destruct (Hnew x Hx) as [Hx'|Hx']; [|by right].
           destruct (Hnew1 x Hx') as [Hx''|Hx'']; [by left|].
           right. by apply Hq.
        -- lia.
        -- intros Hlt' w Hw. apply elem_of_cons in Hw as [->|Hw].
           ++ by apply Hsub.
           ++ by apply Hall.
Qed.

(** One iteration of either [while] loop, entered with a non-empty queue. *)
Lemma expand_step (s : ADKA.estate) (current : Z) (q : list Z) :
  e_inv s → ADKA.e_count s < k → ADKA.e_queue s = current :: q →
  ∃ neighs s',
    neighbors G current = Ret neighs ∧
    ADKA.expand_scan user_locations k neighs
      {| ADKA.e_region := ADKA.e_region s; ADKA.e_queue := q;
         ADKA.e_count := ADKA.e_count s |} = Ret s' ∧
    e_inv s' ∧ S (e_measure s') = e_measure s.
Proof.
  intros [Hbase Hclosed] Hlt Hqueue.
  specialize (Hclosed Hlt).
  destruct Hbase as (Hs & Hsubn & Hcnt & Hqr).
  assert (current ∈ g_nodes G) as Hcur.
  { apply (proj1 (node_set_elem G current)), Hsubn, Hqr.
    rewrite Hqueue. left. }
  destruct (neighbors_of_node G current Hwf Hcur) as (neighs & Hnb & Hadj & Hnodes).
  set (s0 := {| ADKA.e_region := ADKA.e_region s; ADKA.e_queue := q;
                ADKA.e_count := ADKA.e_count s |}).
  assert (e_base s0) as Hb0.
  { unfold e_base, s0; simpl. split_and!; try assumption.
    intros x Hx. apply Hqr. rewrite Hqueue. by right. }
  destruct (expand_scan_spec neighs s0 Hb0 Hnodes)
    as (s' & Hrun & Hb & Hsub & Hq & Hnew & Hm & Hall).
  exists neighs, s'. split_and!; try assumption.
  - split; [assumption|]. intros Hlt' u Hu.
    destruct (Hnew u Hu) as [Hold|Hfresh]; [|by left].
    destruct (Hclosed u Hold) as [Hwait|Hdone].
    + rewrite Hqueue in Hwait. apply elem_of_cons in Hwait as [->|Hwait].
      * right. intros w (l & Hl & Hw). rewrite Hadj in Hl.
        injection Hl as <-. by apply Hall.
      * left. by apply Hq.
    + right. intros w Hw. by apply Hsub, Hdone.
  - rewrite Hm. unfold e_measure, s0; simpl. rewrite Hqueue. simpl. lia.
Qed.

Lemma exhausted_closed (s : ADKA.estate) :
  e_inv s → ADKA.e_count s < k → ADKA.e_queue s = [] →
  region_closed (ADKA.e_region s).
Proof.
  intros [_ Hclosed] Hlt Hqueue u w Hu Hedge.
  destruct (Hclosed Hlt u Hu) as [Hwait|Hdone].
  - rewrite Hqueue in Hwait. inversion Hwait.
  - by apply Hdone.
Qed.

(** adka.py: the loop returns a region that reaches [k], or it pops the
    empty queue after the whole component was taken. *)
Lemma adka_expand_loop_spec (fuel : nat) :
  ∀ s, e_inv s → (e_measure s < fuel)%nat →
  (∃ R, ADKA.expand_loop G user_locations fuel k s = Ret R ∧
        start ∈ R ∧ R ⊆ node_set G ∧ k ≤ aggregate user_locations R) ∨
  (ADKA.expand_loop G user_locations fuel k s = Raise IndexError ∧
   ∃ R, start ∈ R ∧ R ⊆ node_set G ∧ aggregate user_locations R < k ∧
        region_closed R).
Proof.
  induction fuel as [|fuel IH]; intros s Hinv Hfuel; [lia|].
  simpl. destruct (decide (ADKA.e_count s < k)) as [Hlt|Hge].
  - destruct (ADKA.e_queue s) as [|current q] eqn:Hqueue.
    + right. split; [reflexivity|]. exists (ADKA.e_region s).
      pose proof (exhausted_closed s Hinv Hlt Hqueue) as Hcl.
      destruct Hinv as [(Hs & Hsubn & Hcnt & _) _].
      split_and!; try assumption. lia.
    + destruct (expand_step s current q Hinv Hlt Hqueue)
        as (neighs & s' & Hnb & Hscan & Hinv' & Hm).
      rewrite Hnb. cbn [mbind res_bind]. rewrite Hscan.
      apply IH; [assumption|lia].
  - left. exists (ADKA.e_region s).
    destruct Hinv as [(Hs & Hsubn & Hcnt & _) _].
    split_and!; try done. lia.
Qed.

(** The class method: the loop always returns; the region reaches [k] or
    is the whole component of the seed. *)
Lemma class_expand_loop_spec (fuel : nat) :
  ∀ s, e_inv s → (e_measure s < fuel)%nat →
  ∃ R, DensityAware.expand_loop
         {| DensityAware.graph := G;
            DensityAware.user_at_node := user_locations |} fuel k s = Ret R ∧
       start ∈ R ∧ R ⊆ node_set G ∧
       (k ≤ aggregate user_locations R ∨
        (aggregate user_locations R < k ∧ region_closed R)).
Proof.
  induction fuel as [|fuel IH]; intros s Hinv Hfuel; [lia|].
  simpl. destruct (decide (ADKA.e_count s < k)) as [Hlt|Hge].
  - destruct (ADKA.e_queue s) as [|current q] eqn:Hqueue.
    + exists (ADKA.e_region s).
      pose proof (exhausted_closed s Hinv Hlt Hqueue) as Hcl.
      destruct Hinv as [(Hs & Hsubn & Hcnt & _) _].
      split_and!; try done. right. split; [lia|assumption].
    + destruct (expand_step s current q Hinv Hlt Hqueue)
        as (neighs & s' & Hnb & Hscan & Hinv' & Hm).
      rewrite Hnb. cbn [mbind res_bind]. rewrite Hscan.
      apply IH; [assumption|lia].
  - exists (ADKA.e_region s).
    destruct Hinv as [(Hs & Hsubn & Hcnt & _) _].
    split_and!; try done. left. lia.
Qed.

Lemma expand_initial (c : Z) :
  start ∈ g_nodes G → user_locations !! start = Some c →
  let s := {| ADKA.e_region := {[start]}; ADKA.e_queue := [start];
              ADKA.e_count := c |} in
  e_inv s ∧ (e_measure s < ADKA.loop_fuel G)%nat.
Proof.
  intros Hstart Hc s. split; [split|].
  - unfold e_base, s; simpl. split_and!.
    + by apply elem_of_singleton.
    + intros x Hx. apply elem_of_singleton in Hx as ->.
      by apply elem_of_list_to_set.
    + rewrite aggregate_singleton. unfold pop_at. by rewrite Hc.
    + intros x Hx. apply list_elem_of_singleton in Hx as ->.
      by apply elem_of_singleton.
  - intros _ u Hu. left. unfold s in *; simpl in *.
    apply elem_of_singleton in Hu as ->. left.
  - unfold e_measure, ADKA.loop_fuel, s; simpl.
    pose proof (subseteq_size (node_set G ∖ {[start]}) (node_set G)) as Hsz.
    unfold node_set in *.
    rewrite size_list_to_set in Hsz by apply (wf_nodup G Hwf).
    assert (list_to_set (g_nodes G) ∖ {[start]} ⊆@{gset Z} list_to_set (g_nodes G))
      as Hsub by apply subseteq_difference_l, reflexivity.
    specialize (Hsz Hsub).
    assert (start ∈@{gset Z} list_to_set (g_nodes G)) as Hin
      by (by apply elem_of_list_to_set).
    pose proof (size_remove_fresh (list_to_set (g_nodes G)) ∅ start Hin) as Hrm.
    rewrite difference_empty_L, union_empty_r_L, size_list_to_set in Hrm
      by apply (wf_nodup G Hwf).
    specialize (Hrm (not_elem_of_empty start)). lia.
Qed.
End Expansion.

Lemma closed_region_is_everything (G : Graph) (R : gset Z) (start : Z) :
  connected G → start ∈ g_nodes G → start ∈ R → R ⊆ node_set G →
  region_closed G R → R = node_set G.
Proof.
  intros Hconn Hstart HR Hsub Hclosed.
  apply set_eq. intros x. split; [apply Hsub|].
  apply (closed_reaches_all G R start); try assumption.
Qed.

(** C2: on a connected graph whose total population is at least [k], both
    versions of the expansion return a region of aggregate population at
    least [k]. *)
Theorem expand_region_reaches_k (G : Graph) (user_locations : gmap Z Z)
    (start_node k : Z) :
  wf_graph G → populated user_locations G → connected G →
  start_node ∈ g_nodes G →
  k ≤ total_population user_locations G →
  (∃ R, ADKA.expand_region G user_locations start_node k = Ret R ∧
        k ≤ aggregate user_locations R) ∧
  (∃ R, DensityAware.expand_anonymization_region
          {| DensityAware.graph := G;
             DensityAware.user_at_node := user_locations |} start_node k
        = Ret R ∧
        k ≤ aggregate user_locations R).
Proof.
  intros Hwf Hpop Hconn Hstart Htotal.
  destruct (Hpop start_node Hstart) as [c Hc].
  destruct (expand_initial G user_locations Hwf start_node k c Hstart Hc)
    as [Hinv Hfuel].
  assert (∀ R, start_node ∈ R → R ⊆ node_set G →
               aggregate user_locations R < k → region_closed G R → False)
    as Hfull.
  { intros R HR Hsub Hlt Hclosed.
    rewrite (closed_region_is_everything G R start_node) in Hlt by assumption.
    unfold total_population in Htotal. lia. }
  split.
  - unfold ADKA.expand_region, getitem. rewrite Hc. cbn [mbind res_bind].
    destruct (adka_expand_loop_spec G user_locations Hwf Hpop start_node k
                _ _ Hinv Hfuel)
      as [(R & Hrun & _ & _ & Hk)|(_ & R & HR & Hsub & Hlt & Hclosed)].
    + exists R. split; assumption.
    + destruct (Hfull R HR Hsub Hlt Hclosed).
  - unfold DensityAware.expand_anonymization_region, getitem.
    cbn [DensityAware.user_at_node DensityAware.graph].
    rewrite Hc. cbn [mbind res_bind].
    destruct (class_expand_loop_spec G user_locations Hwf Hpop start_node k
                _ _ Hinv Hfuel)
      as (R & Hrun & HR & Hsub & [Hk|[Hlt Hclosed]]).
    + exists R. split; assumption.
    + destruct (Hfull R HR Hsub Hlt Hclosed).
Qed.

(** The class method returns for every seed of the graph and every [k]: the
    region reaches [k], or the frontier ran out and the region is closed
    under neighbours with less than [k]. *)
Theorem expand_anonymization_region_returns (G : Graph)
    (user_locations : gmap Z Z) (start_node k : Z) :
  wf_graph G → populated user_locations G → start_node ∈ g_nodes G →
  ∃ R, DensityAware.expand_anonymization_region
         {| DensityAware.graph := G;
            DensityAware.user_at_node := user_locations |} start_node k
       = Ret R ∧
       start_node ∈ R ∧ R ⊆ node_set G ∧
       (k ≤ aggregate user_locations R ∨
        (aggregate user_locations R < k ∧ region_closed G R)).
Proof.
  intros Hwf Hpop Hstart.
  destruct (Hpop start_node Hstart) as [c Hc].
  destruct (expand_initial G user_locations Hwf start_node k c Hstart Hc)
    as [Hinv Hfuel].
  unfold DensityAware.expand_anonymization_region, getitem.
  cbn [DensityAware.user_at_node DensityAware.graph].
  rewrite Hc. cbn [mbind res_bind].
  apply (class_expand_loop_spec G user_locations Hwf Hpop start_node k
           _ _ Hinv Hfuel).
Qed.

(** adka.py returns a region that reaches [k] or raises [IndexError]. *)
Theorem adka_expand_region_outcomes (G : Graph) (user_locations : gmap Z Z)
    (start_node k : Z) :
  wf_graph G → populated user_locations G → start_node ∈ g_nodes G →
  (∃ R, ADKA.expand_region G user_locations start_node k = Ret R ∧
        start_node ∈ R ∧ R ⊆ node_set G ∧ k ≤ aggregate user_locations R) ∨
  (ADKA.expand_region G user_locations start_node k = Raise IndexError ∧
   ∃ R, start_node ∈ R ∧ R ⊆ node_set G ∧
        aggregate user_locations R < k ∧ region_closed G R).
Proof.
  intros Hwf Hpop Hstart.
  destruct (Hpop start_node Hstart) as [c Hc].
  destruct (expand_initial G user_locations Hwf start_node k c Hstart Hc)
    as [Hinv Hfuel].
  unfold ADKA.expand_region, getitem. rewrite Hc. cbn [mbind res_bind].
  apply (adka_expand_loop_spec G user_locations Hwf Hpop start_node k
           _ _ Hinv Hfuel).
Qed.

(** When the whole graph holds fewer than [k] users, adka.py's expansion
    pops its empty queue. *)
Theorem adka_pops_empty_queue (G : Graph) (user_locations : gmap Z Z)
    (start_node k : Z) :
  wf_graph G → populated user_locations G → start_node ∈ g_nodes G →
  (∀ n, n ∈ g_nodes G → 0 ≤ pop_at user_locations n) →
  total_population user_locations G < k →
  ADKA.expand_region G user_locations start_node k = Raise IndexError.
Proof.
  intros Hwf Hpop Hstart Hnonneg Htotal.
  destruct (adka_expand_region_outcomes G user_locations start_node k
              Hwf Hpop Hstart) as [(R & _ & _ & Hsub & Hk)|[Hraise _]];
    [|exact Hraise].
  exfalso.
  assert (aggregate user_locations R ≤ total_population user_locations G).
  { apply aggregate_mono; [exact Hsub|].
    intros v Hv. apply Hnonneg, node_set_elem, Hv. }
  lia.
Qed.

Lemma grid2_wf : wf_graph grid2.
Proof. apply check_wf_sound. vm_compute. reflexivity. Qed.

Lemma grid2_connected : connected grid2.
Proof.
  apply check_connected_sound; [apply grid2_wf|]. vm_compute. reflexivity.
Qed.

Lemma pop2_populated : populated pop2 grid2.
Proof. apply check_populated. vm_compute. reflexivity. Qed.

Lemma expand_region_reaches_k_witness :
  (∃ R, ADKA.expand_region grid2 pop2 1 3 = Ret R ∧ 3 ≤ aggregate pop2 R) ∧
  (∃ R, DensityAware.expand_anonymization_region
          {| DensityAware.graph := grid2; DensityAware.user_at_node := pop2 |}
          1 3 = Ret R ∧
        3 ≤ aggregate pop2 R).
Proof.
  apply (expand_region_reaches_k grid2 pop2 1 3).
  - apply grid2_wf.
  - apply pop2_populated.
  - apply grid2_connected.
  - by_evaluation.
  - by_evaluation.
Defined.

(** C3: on the 5x5 grid of adka.py with 30 users, a target of 31 makes
    [expand_region] pop its empty queue, while the class method on the same
    input returns the 25 nodes it has collected. *)
Theorem adka_expand_region_exhausted_grid5 :
  ADKA.expand_region grid5 pop5 0 31 = Raise IndexError ∧
  DensityAware.expand_anonymization_region
    {| DensityAware.graph := grid5; DensityAware.user_at_node := pop5 |} 0 31
  = Ret (node_set grid5).
Proof. split; vm_compute; reflexivity. Qed.

(** ** The search for k distinct users *)

Section Search.
Variable self : KAnonymity.KAnonymityPrivacyManager.
Let G : Graph := KAnonymity.graph (KAnonymity.city self).
Hypothesis Hwf : wf_graph G.
Variables query_node query_user : Z.

Local Abbreviation k_inv := (Inv.k_inv G query_node query_user).
Local Abbreviation k_weight := (Inv.k_weight G).
Local Abbreviation k_measure := (Inv.k_measure G).

Lemma enqueue_neighbors_spec (neighs : list Z) :
  ∀ s, let s' := KAnonymity.enqueue_neighbors neighs s in
       KAnonymity.k_visited s' = KAnonymity.k_visited s ∧
       KAnonymity.k_users s' = KAnonymity.k_users s ∧
       KAnonymity.k_region s ⊆ KAnonymity.k_region s' ∧
       (∀ x, x ∈ KAnonymity.k_region s' →
             x ∈ KAnonymity.k_region s ∨ x ∈ neighs) ∧
       (∀ x, x ∈ KAnonymity.k_queue s' →
             x ∈ KAnonymity.k_queue s ∨ x ∈ neighs) ∧
       (length (KAnonymity.k_queue s')
        ≤ length (KAnonymity.k_queue s) + length neighs)%nat.
Proof.
  induction neighs as [|nb rest IH]; intros s; simpl.
  - split_and!; try done; [by left | by left | lia].
  - destruct (decide (nb ∈ KAnonymity.k_visited s)) as [Hin|Hnin].
    + destruct (IH s) as (Hv & Hu & Hsub & Hr & Hq & Hlen).
      split_and!; try done.
      * intros x Hx. destruct (Hr x Hx); [by left|right; by right].
      * intros x Hx. destruct (Hq x Hx); [by left|right; by right].
      * lia.
    + match goal with
      | |- context [KAnonymity.enqueue_neighbors rest ?t] =>
          destruct (IH t) as (Hv & Hu & Hsub & Hr & Hq & Hlen)
      end.
      simpl in *. split_and!; try done.
      * etrans; [|exact Hsub]. apply union_subseteq_r.
      * intros x Hx. destruct (Hr x Hx) as [Hx'|Hx']; [|right; by right].
        apply elem_of_union in Hx' as [Hx'|Hx']; [|by left].
        apply elem_of_singleton in Hx' as ->. right. left.
      * intros x Hx. destruct (Hq x Hx) as [Hx'|Hx']; [|right; by right].
        apply elem_of_app in Hx' as [Hx'|Hx']; [by left|].
        apply list_elem_of_singleton in Hx' as ->. right. left.
      * rewrite length_app in Hlen. simpl in Hlen. lia.
Qed.

Lemma k_weight_fresh (V : gset Z) (u : Z) (l : list Z) :
  u ∉ l → k_weight ({[u]} ∪ V) l = k_weight V l.
Proof.
  induction l as [|n rest IH]; intros Hnot; simpl; [reflexivity|].
  rewrite IH by (intros Hin; apply Hnot; by right).
  assert (n ≠ u) as Hne by (intros ->; apply Hnot; left).
  destruct (decide (n ∈ V)) as [HV|HV].
  - rewrite decide_True; [reflexivity|]. apply elem_of_union. by right.
  - rewrite decide_False; [reflexivity|].
    intros Hin. apply elem_of_union in Hin as [Hin|Hin]; [|done].
    by apply elem_of_singleton in Hin.
Qed.

Lemma k_weight_visit (V : gset Z) (u : Z) (l : list Z) :
  NoDup l → u ∈ l → u ∉ V →
  k_weight V l = (S (KAnonymity.degree G u) + k_weight ({[u]} ∪ V) l)%nat.
Proof.
  induction 1 as [|n rest Hn Hnd IH]; intros Hin HV; [inversion Hin|].
  simpl. apply elem_of_cons in Hin as [->|Hin].
  - rewrite (decide_False (P := n ∈ V)) by done.
    rewrite decide_True by (apply elem_of_union; left; by apply elem_of_singleton).
    rewrite k_weight_fresh by done. lia.
  - rewrite (IH Hin HV).
    assert (n ≠ u) as Hne by (intros ->; done).
    destruct (decide (n ∈ V)) as [HnV|HnV].
    + rewrite decide_True by (apply elem_of_union; by right). lia.
    + rewrite decide_False; [lia|].
      intros Hx. apply elem_of_union in Hx as [Hx|Hx]; [|done].
      by apply elem_of_singleton in Hx.
Qed.

Lemma find_loop_spec (fuel : nat) :
  ∀ s, k_inv s → (k_measure s < fuel)%nat →
  ∃ s', KAnonymity.find_loop self fuel s = Ret s' ∧ k_inv s'.
Proof.
  induction fuel as [|fuel IH]; intros s Hinv Hfuel; [lia|].
  simpl. destruct (KAnonymity.k_queue s) as [|current q] eqn:Hqueue.
  - by exists s.
  - destruct (decide (Z.of_nat (size (KAnonymity.k_users s))
                      < KAnonymity.k self)) as [Hlt|Hge]; [|by exists s].
    destruct Hinv as (Hseed & Hsub & Huser & Hq).
    assert (current ∈ g_nodes G) as Hcur by (apply Hq; rewrite Hqueue; left).
    unfold Inv.k_measure in Hfuel. rewrite Hqueue in Hfuel. simpl in Hfuel.
    destruct (decide (current ∈ KAnonymity.k_visited s)) as [Hvis|Hnew].
    + apply IH.
      * split_and!; try done. simpl. intros x Hx. apply Hq.
        rewrite Hqueue. by right.
      * unfold Inv.k_measure. simpl. lia.
    + match goal with
      | |- context [decide (KAnonymity.k self ≤ ?n)] =>
          destruct (decide (KAnonymity.k self ≤ n)) as [Hdone|Hmore]
      end.
      * eexists. split; [reflexivity|]. split_and!; simpl; try done.
        -- apply elem_of_union. by left.
        -- intros x Hx. apply Hq. rewrite Hqueue. by right.
      * destruct (neighbors_of_node G current Hwf Hcur)
          as (neighs & Hnb & Hadj & Hnodes).
        fold G. rewrite Hnb. cbn [mbind res_bind].
        match goal with
        | |- context [KAnonymity.enqueue_neighbors neighs ?t] =>
            pose proof (enqueue_neighbors_spec neighs t)
              as (Hv & Hu & Hsub' & Hr & Hq' & Hlen);
            set (s2 := KAnonymity.enqueue_neighbors neighs t) in *
        end.
        simpl in Hv, Hu, Hsub', Hr, Hq', Hlen.
        apply IH.
        -- split_and!.
           ++ by apply Hsub'.
           ++ intros x Hx. destruct (Hr x Hx) as [Hx'|Hx'].
              ** by apply Hsub.
              ** by apply node_set_elem, Hnodes.
           ++ rewrite Hu. apply elem_of_union. by left.
           ++ intros x Hx. destruct (Hq' x Hx) as [Hx'|Hx'].
              ** apply Hq. rewrite Hqueue. by right.
              ** by apply Hnodes.
        -- unfold Inv.k_measure. rewrite Hv.
           rewrite (k_weight_visit (KAnonymity.k_visited s) current)
             in Hfuel by (try apply (wf_nodup G Hwf); done).
           assert (KAnonymity.degree G current = length neighs) as Hdeg.
           { unfold KAnonymity.degree. by rewrite Hadj. }
           lia.
Qed.

Lemma k_weight_all (l : list Z) :
  k_weight ∅ l = sum_list ((λ n, S (KAnonymity.degree G n)) <$> l).
Proof. induction l as [|n rest IH]; simpl; [done|]. by rewrite IH. Qed.

Lemma find_k_anonymous_region_spec :
  KAnonymity.dict_get (KAnonymity.users (KAnonymity.city self)) query_user
    = Ret query_node →
  query_node ∈ g_nodes G →
  ∃ R U, KAnonymity.find_k_anonymous_region self query_user = Ret (R, U) ∧
         query_node ∈ R ∧ R ⊆ node_set G ∧ query_user ∈ U.
Proof.
  intros Hget Hnode. unfold KAnonymity.find_k_anonymous_region.
  rewrite Hget. cbn [mbind res_bind]. fold G.
  match goal with
  | |- context [KAnonymity.find_loop self ?f ?t] =>
      destruct (find_loop_spec f t) as (s' & Hrun & Hinv)
  end.
  - split_and!; simpl.
    + by apply elem_of_singleton.
    + intros x Hx. apply elem_of_singleton in Hx as ->.
      by apply node_set_elem.
    + by apply elem_of_singleton.
    + intros x Hx. by apply list_elem_of_singleton in Hx as ->.
  - unfold Inv.k_measure, KAnonymity.find_fuel. simpl.
    rewrite k_weight_all. lia.
  - rewrite Hrun. destruct Hinv as (Hseed & Hsub & Huser & _).
    eexists _, _. split; [reflexivity|]. split_and!; try done.
    by apply elem_of_elements.
Qed.
End Search.

(** ** Regions only grow

    These hold on any graph, also an ill-formed one. *)

Lemma expand_scan_grows (user_locations : gmap Z Z) (k : Z) (neighs : list Z) :
  ∀ s s', ADKA.expand_scan user_locations k neighs s = Ret s' →
          ADKA.e_region s ⊆ ADKA.e_region s'.
Proof.
  induction neighs as [|neigh rest IH]; intros s s' Hrun; simpl in Hrun.
  - by injection Hrun as ->.
  - destruct (decide (neigh ∈ ADKA.e_region s)) as [Hin|Hnin]; [by apply IH|].
    destruct (getitem user_locations neigh) as [c| |]; simpl in Hrun;
      try discriminate Hrun.
    destruct (decide (k ≤ ADKA.e_count s + c)) as [Hge|Hlt].
    + injection Hrun as <-. simpl. apply union_subseteq_r.
    + apply IH in Hrun. simpl in Hrun.
      etrans; [|exact Hrun]. apply union_subseteq_r.
Qed.

Lemma adka_expand_loop_grows (G : Graph) (user_locations : gmap Z Z)
    (k : Z) (fuel : nat) :
  ∀ s R, ADKA.expand_loop G user_locations fuel k s = Ret R →
         ADKA.e_region s ⊆ R.
Proof.
  induction fuel as [|fuel IH]; intros s R Hrun; simpl in Hrun;
    [discriminate Hrun|].
  destruct (decide (ADKA.e_count s < k)) as [Hlt|Hge];
    [|by injection Hrun as <-].
  destruct (ADKA.e_queue s) as [|current q]; [discriminate Hrun|].
  destruct (neighbors G current) as [neighs| |]; simpl in Hrun;
    try discriminate Hrun.
  destruct (ADKA.expand_scan user_locations k neighs _) as [s'| |] eqn:Hscan;
    simpl in Hrun; try discriminate Hrun.
  apply expand_scan_grows in Hscan. apply IH in Hrun.
  simpl in Hscan. by etrans.
Qed.

Lemma class_expand_loop_grows (city : DensityAware.SmartCityGraph)
    (k : Z) (fuel : nat) :
  ∀ s R, DensityAware.expand_loop city fuel k s = Ret R →
         ADKA.e_region s ⊆ R.
Proof.
  induction fuel as [|fuel IH]; intros s R Hrun; simpl in Hrun;
    [discriminate Hrun|].
  destruct (decide (ADKA.e_count s < k)) as [Hlt|Hge];
    [|by injection Hrun as <-].
  destruct (ADKA.e_queue s) as [|current q]; [by injection Hrun as <-|].
  destruct (neighbors (DensityAware.graph city) current) as [neighs| |];
    simpl in Hrun; try discriminate Hrun.
  destruct (ADKA.expand_scan (DensityAware.user_at_node city) k neighs _)
    as [s'| |] eqn:Hscan; simpl in Hrun; try discriminate Hrun.
  apply expand_scan_grows in Hscan. apply IH in Hrun.
  simpl in Hscan. by etrans.
Qed.

Lemma find_loop_grows (self : KAnonymity.KAnonymityPrivacyManager)
    (fuel : nat) :
  ∀ s s', KAnonymity.find_loop self fuel s = Ret s' →
          KAnonymity.k_region s ⊆ KAnonymity.k_region s'.
Proof.
  induction fuel as [|fuel IH]; intros s s' Hrun; simpl in Hrun;
    [discriminate Hrun|].
  destruct (KAnonymity.k_queue s) as [|current q]; [by injection Hrun as <-|].
  destruct (decide (Z.of_nat (size (KAnonymity.k_users s))
                    < KAnonymity.k self)) as [Hlt|Hge];
    [|by injection Hrun as <-].
  destruct (decide (current ∈ KAnonymity.k_visited s)) as [Hvis|Hnew];
    [by apply IH in Hrun|].
  match type of Hrun with
  | context [decide (KAnonymity.k self ≤ ?n)] =>
      destruct (decide (KAnonymity.k self ≤ n)) as [Hdone|Hmore]
  end; [by injection Hrun as <-|].
  destruct (neighbors _ current) as [neighs| |]; simpl in Hrun;
    try discriminate Hrun.
  apply IH in Hrun.
  match type of Hrun with
  | KAnonymity.k_region (KAnonymity.enqueue_neighbors neighs ?t) ⊆ _ =>
      pose proof (enqueue_neighbors_spec neighs t) as (_ & _ & Hsub & _)
  end.
  simpl in Hsub. by etrans.
Qed.

(** Whatever the graph, a returned region contains the seed. *)
Lemma returned_region_has_seed :
  (∀ G user_locations start_node k R,
     ADKA.expand_region G user_locations start_node k = Ret R →
     start_node ∈ R) ∧
  (∀ city start_node k R,
     DensityAware.expand_anonymization_region city start_node k = Ret R →
     start_node ∈ R) ∧
  (∀ self query_user query_node R U,
     KAnonymity.dict_get (KAnonymity.users (KAnonymity.city self)) query_user
       = Ret query_node →
     KAnonymity.find_k_anonymous_region self query_user = Ret (R, U) →
     query_node ∈ R).
Proof.
  split_and!.
  - intros G user_locations start_node k R Hrun.
    unfold ADKA.expand_region in Hrun.
    destruct (getitem user_locations start_node) as [c| |];
      unfold mbind, res_bind in Hrun; try discriminate Hrun.
    apply adka_expand_loop_grows in Hrun. simpl in Hrun.
    apply Hrun. by apply elem_of_singleton.
  - intros city start_node k R Hrun.
    unfold DensityAware.expand_anonymization_region in Hrun.
    destruct (getitem (DensityAware.user_at_node city) start_node) as [c| |];
      unfold mbind, res_bind in Hrun; try discriminate Hrun.
    apply class_expand_loop_grows in Hrun. simpl in Hrun.
    apply Hrun. by apply elem_of_singleton.
  - intros self query_user query_node R U Hget Hrun.
    unfold KAnonymity.find_k_anonymous_region in Hrun.
    rewrite Hget in Hrun. unfold mbind, res_bind in Hrun.
    destruct (KAnonymity.find_loop self _ _) as [s'| |] eqn:Hloop;
      try discriminate Hrun.
    injection Hrun as <- _.
    apply find_loop_grows in Hloop. simpl in Hloop.
    apply Hloop. by apply elem_of_singleton.
Qed.

(** C5: a region returned by either expansion contains the seed, and the
    region returned by the search contains the query user's node; on a
    well-formed graph the class expansion and the search do return, and
    adka.py's expansion returns or pops its empty queue. *)
Theorem regions_contain_seed (G : Graph) (user_locations : gmap Z Z)
    (start_node k : Z) (self : KAnonymity.KAnonymityPrivacyManager)
    (query_user query_node : Z) :
  (∀ R, ADKA.expand_region G user_locations start_node k = Ret R →
        start_node ∈ R) ∧
  (∀ R, DensityAware.expand_anonymization_region
          {| DensityAware.graph := G;
             DensityAware.user_at_node := user_locations |} start_node k
        = Ret R →
        start_node ∈ R) ∧
  (∀ R U,
     KAnonymity.dict_get (KAnonymity.users (KAnonymity.city self)) query_user
       = Ret query_node →
     KAnonymity.find_k_anonymous_region self query_user = Ret (R, U) →
     query_node ∈ R) ∧
  (wf_graph G → populated user_locations G → start_node ∈ g_nodes G →
   ((∃ R, ADKA.expand_region G user_locations start_node k = Ret R ∧
          start_node ∈ R) ∨
    ADKA.expand_region G user_locations start_node k = Raise IndexError) ∧
   (∃ R, DensityAware.expand_anonymization_region
           {| DensityAware.graph := G;
              DensityAware.user_at_node := user_locations |} start_node k
         = Ret R ∧ start_node ∈ R)) ∧
  (wf_graph (KAnonymity.graph (KAnonymity.city self)) →
   KAnonymity.dict_get (KAnonymity.users (KAnonymity.city self)) query_user
     = Ret query_node →
   query_node ∈ g_nodes (KAnonymity.graph (KAnonymity.city self)) →
   ∃ R U, KAnonymity.find_k_anonymous_region self query_user = Ret (R, U) ∧
          query_node ∈ R).
Proof.
  destruct returned_region_has_seed as (Hadka & Hclass & Hfind).
  split_and!.
  - intros R. apply Hadka.
  - intros R. apply Hclass.
  - intros R U. apply Hfind.
  - intros Hwf Hpop Hstart. split.
    + destruct (adka_expand_region_outcomes G user_locations start_node k
                  Hwf Hpop Hstart) as [(R & Hrun & HR & _)|[Hraise _]].
      * left. by exists R.
      * by right.
    + destruct (expand_anonymization_region_returns G user_locations
                  start_node k Hwf Hpop Hstart) as (R & Hrun & HR & _).
      by exists R.
  - intros Hwf Hget Hnode.
    destruct (find_k_anonymous_region_spec self Hwf query_node query_user
                Hget Hnode) as (R & U & Hrun & HR & _).
    by exists R, U.
Qed.

Lemma city2_wf : wf_graph (city_grid 2).
Proof. apply check_wf_sound. vm_compute. reflexivity. Qed.

Lemma regions_contain_seed_witness :
  1 ∈ node_set grid2 ∧
  3 ∈ ({[0; 1; 2; 3]} : gset Z) ∧
  (((∃ R, ADKA.expand_region grid2 pop2 1 3 = Ret R ∧ 1 ∈ R) ∨
    ADKA.expand_region grid2 pop2 1 3 = Raise IndexError) ∧
   (∃ R, DensityAware.expand_anonymization_region
           {| DensityAware.graph := grid2; DensityAware.user_at_node := pop2 |}
           1 3 = Ret R ∧ 1 ∈ R)) ∧
  (∃ R U, KAnonymity.find_k_anonymous_region
            {| KAnonymity.city := city2; KAnonymity.k := 3 |} 2 = Ret (R, U) ∧
          3 ∈ R).
Proof.
  destruct (regions_contain_seed grid2 pop2 1 3
              {| KAnonymity.city := city2; KAnonymity.k := 3 |} 2 3)
    as (Hadka & Hclass & Hfind & Hexp & Hsearch).
  split_and!.
  - apply Hclass. vm_compute. reflexivity.
  - apply (Hfind _ (elements ({[0; 1; 2]} : gset Z))).
    + reflexivity.
    + vm_compute. reflexivity.
  - apply Hexp; [apply grid2_wf|apply pop2_populated|by_evaluation].
  - apply Hexp; [apply grid2_wf|apply pop2_populated|by_evaluation].
  - apply Hsearch; [apply city2_wf|reflexivity|by_evaluation].
Defined.

(** ** The anonymized location *)

Lemma mapM_getitem_ok {V : Type} (m : gmap Z V) (l : list Z) :
  (∀ x, x ∈ l → is_Some (m !! x)) →
  ∃ vs, mapM (getitem m) l = Ret vs ∧ length vs = length l.
Proof.
  induction l as [|x l IH]; intros Hall.
  - by exists [].
  - destruct (Hall x) as [v Hv]; [left|].
    destruct IH as (vs & Hvs & Hlen).
    { intros y Hy. apply Hall. by right. }
    exists (v :: vs).
    change (mapM (getitem m) (x :: l))
      with (y ← getitem m x; k ← mapM (getitem m) l; mret (y :: k)).
    rewrite Hvs. unfold getitem. rewrite Hv.
    split; [reflexivity|]. simpl. by rewrite Hlen.
Qed.

Lemma mean_of_nonempty (xs : list Z) :
  xs ≠ [] → ∃ c, KAnonymity.mean_of xs = Ret c.
Proof.
  intros Hne. unfold KAnonymity.mean_of.
  destruct (decide (length xs = O)) as [Hz|_]; [|by eexists].
  destruct xs; [done|discriminate Hz].
Qed.

Lemma locate_region (g : Graph) (R : gset Z) (x : Z) :
  positioned g → x ∈ R → R ⊆ node_set g →
  ∃ positions cx cy,
    mapM (getitem (g_pos g)) (elements R) = Ret positions ∧
    KAnonymity.mean_of (positions.*1) = Ret cx ∧
    KAnonymity.mean_of (positions.*2) = Ret cy.
Proof.
  intros Hpos Hx Hsub.
  destruct (mapM_getitem_ok (g_pos g) (elements R)) as (ps & Hps & Hlen).
  { intros y Hy. apply Hpos, node_set_elem, Hsub, elem_of_elements, Hy. }
  assert (ps ≠ []) as Hne.
  { intros ->. simpl in Hlen. symmetry in Hlen.
    apply length_zero_iff_nil in Hlen.
    apply elem_of_elements in Hx. rewrite Hlen in Hx. inversion Hx. }
  destruct (mean_of_nonempty (ps.*1)) as [cx Hcx].
  { destruct ps; [done|discriminate]. }
  destruct (mean_of_nonempty (ps.*2)) as [cy Hcy].
  { destruct ps; [done|discriminate]. }
  by exists ps, cx, cy.
Qed.

(** C1 (as stated): no function of the returned tuple tells a fallback
    from a success.  On the one-node city the call with [k = 2] takes the
    fallback and returns exactly what the call with [k = 1] returns. *)
Lemma fallback_carries_no_flag :
  ¬ ∃ flag : Qc * Qc * gset Z * list Z → bool,
      ∀ self query_user r,
        KAnonymity.get_anonymized_location self query_user = Ret r →
        flag r = takes_fallback self query_user.
Proof.
  intros (flag & Hflag).
  set (m2 := {| KAnonymity.city := city1; KAnonymity.k := 2 |}).
  set (m1 := {| KAnonymity.city := city1; KAnonymity.k := 1 |}).
  assert (∃ r, KAnonymity.get_anonymized_location m2 0 = Ret r ∧
               KAnonymity.get_anonymized_location m1 0 = Ret r)
    as (r & Hr2 & Hr1) by (vm_compute; eexists; split; reflexivity).
  assert (takes_fallback m2 0 = true) as Hyes by (vm_compute; reflexivity).
  assert (takes_fallback m1 0 = false) as Hno by (vm_compute; reflexivity).
  pose proof (Hflag m2 0 r Hr2) as H2.
  pose proof (Hflag m1 0 r Hr1) as H1.
  rewrite Hyes in H2. rewrite Hno in H1. congruence.
Qed.

(** C1 (amended): the fallback is returned as an ordinary tuple.  For a
    known user on a well-formed, positioned graph the call always returns;
    when the fallback is taken the region is the set of the first [k] nodes
    and the only trace is a user list shorter than [k]. *)
Theorem fallback_returned_as_ordinary_result
    (self : KAnonymity.KAnonymityPrivacyManager) (query_user query_node : Z) :
  wf_graph (KAnonymity.graph (KAnonymity.city self)) →
  positioned (KAnonymity.graph (KAnonymity.city self)) →
  KAnonymity.dict_get (KAnonymity.users (KAnonymity.city self)) query_user
    = Ret query_node →
  query_node ∈ g_nodes (KAnonymity.graph (KAnonymity.city self)) →
  (takes_fallback self query_user = true →
   ∃ cx cy U,
     KAnonymity.get_anonymized_location self query_user
     = Ret (cx, cy,
            list_to_set (take (Z.to_nat (KAnonymity.k self))
                              (g_nodes (KAnonymity.graph (KAnonymity.city self)))),
            U) ∧
     Z.of_nat (length U) < KAnonymity.k self) ∧
  (takes_fallback self query_user = false →
   ∃ cx cy R U,
     KAnonymity.find_k_anonymous_region self query_user = Ret (R, U) ∧
     KAnonymity.get_anonymized_location self query_user = Ret (cx, cy, R, U) ∧
     KAnonymity.k self ≤ Z.of_nat (length U)).
Proof.
  set (G := KAnonymity.graph (KAnonymity.city self)).
  intros Hwf Hpos Hget Hnode.
  destruct (find_k_anonymous_region_spec self Hwf query_node query_user
              Hget Hnode) as (R0 & U & Hfind & HR0 & Hsub & HU).
  unfold takes_fallback, KAnonymity.get_anonymized_location.
  rewrite Hfind. cbn [mbind res_bind]. fold G.
  destruct (decide (Z.of_nat (length U) < KAnonymity.k self)) as [Hlt|Hge].
  - split; [intros _|intros Hf; by apply bool_decide_eq_false in Hf].
    assert (0 < length U)%nat as HlenU.
    { destruct U; [inversion HU|simpl; lia]. }
    unfold KAnonymity.slice_to.
    destruct (decide (0 ≤ KAnonymity.k self)) as [_|Hneg]; [|lia].
    set (R := list_to_set (take (Z.to_nat (KAnonymity.k self)) (g_nodes G))
              : gset Z).
    destruct (g_nodes G) as [|n0 rest] eqn:Hnodes; [inversion Hnode|].
    destruct (locate_region G R n0 Hpos) as (ps & cx & cy & Hps & Hcx & Hcy).
    { unfold R. apply elem_of_list_to_set.
      destruct (Z.to_nat (KAnonymity.k self)) eqn:Hk; [lia|]. left. }
    { intros x Hx. unfold R in Hx. apply elem_of_list_to_set in Hx.
      apply node_set_elem. rewrite Hnodes. by eapply subseteq_take. }
    exists cx, cy, U. rewrite Hps. cbn [mbind res_bind].
    rewrite Hcx. cbn [mbind res_bind]. rewrite Hcy. done.
  - split; [intros Hf; by apply bool_decide_eq_true in Hf|intros _].
    destruct (locate_region G R0 query_node Hpos HR0 Hsub)
      as (ps & cx & cy & Hps & Hcx & Hcy).
    exists cx, cy, R0, U. rewrite Hps. cbn [mbind res_bind].
    rewrite Hcx. cbn [mbind res_bind]. rewrite Hcy.
    split_and!; [done|done|lia].
Qed.

Lemma city_grid_2_positioned : positioned (city_grid 2).
Proof. apply check_positioned. vm_compute. reflexivity. Qed.

Lemma fallback_returned_as_ordinary_result_witness :
  (∃ cx cy U,
     KAnonymity.get_anonymized_location
       {| KAnonymity.city := city2; KAnonymity.k := 5 |} 2
     = Ret (cx, cy, list_to_set (take 5 (g_nodes (city_grid 2))), U) ∧
     Z.of_nat (length U) < 5) ∧
  (∃ cx cy R U,
     KAnonymity.find_k_anonymous_region
       {| KAnonymity.city := city2; KAnonymity.k := 2 |} 0 = Ret (R, U) ∧
     KAnonymity.get_anonymized_location
       {| KAnonymity.city := city2; KAnonymity.k := 2 |} 0
     = Ret (cx, cy, R, U) ∧
     2 ≤ Z.of_nat (length U)).
Proof.
  split.
  - destruct (fallback_returned_as_ordinary_result
                {| KAnonymity.city := city2; KAnonymity.k := 5 |} 2 3)
      as [Hfall _].
    + apply city2_wf.
    + apply city_grid_2_positioned.
    + reflexivity.
    + by_evaluation.
    + apply Hfall. vm_compute. reflexivity.
  - destruct (fallback_returned_as_ordinary_result
                {| KAnonymity.city := city2; KAnonymity.k := 2 |} 0 0)
      as [_ Hok].
    + apply city2_wf.
    + apply city_grid_2_positioned.
    + reflexivity.
    + by_evaluation.
    + apply Hok. vm_compute. reflexivity.
Defined.

(** ** Bounded-depth density *)

Lemma within_mono (g : Graph) (n : Z) (a b : nat) (w : Z) :
  (a ≤ b)%nat → within g n a w → within g n b w.
Proof. intros Hab (j & Hj & Hh). exists j. split; [lia|done]. Qed.

Lemma within_O (g : Graph) (n w : Z) : within g n O w ↔ w = n.
Proof.
  split.
  - intros (j & Hj & Hh). assert (j = O) as -> by lia. by inversion Hh.
  - intros ->. exists O. split; [lia|constructor].
Qed.

Lemma within_step (g : Graph) (n : Z) (a : nat) (u w : Z) :
  within g n a u → edge g u w → within g n (S a) w.
Proof.
  intros (j & Hj & Hh) He. exists (S j). split; [lia|].
  by apply hops_S with u.
Qed.

Lemma within_S_inv (g : Graph) (n : Z) (a : nat) (w : Z) :
  within g n (S a) w →
  within g n a w ∨ ∃ u, within g n a u ∧ edge g u w.
Proof.
  intros (j & Hj & Hh). destruct (decide (j ≤ a)%nat) as [Hle|Hgt].
  - left. by exists j.
  - right. assert (j = S a) as -> by lia.
    inversion Hh as [|j' u w' Hu He]; subst.
    exists u. split; [|done]. exists a. split; [lia|done].
Qed.

Section Density.
Variable G : Graph.
Variable user_locations : gmap Z Z.
Hypothesis Hwf : wf_graph G.
Hypothesis Hpop : populated user_locations G.
Variable node : Z.
Variable D : nat.

Local Abbreviation d_inv := (Inv.d_inv G user_locations node D).
Local Abbreviation d_measure := (Inv.d_measure G).

Lemma density_scan_spec (d : Z) (neighs : list Z) :
  ∀ s, ADKA.d_visited s ⊆ node_set G →
       ADKA.d_count s = aggregate user_locations (ADKA.d_visited s) →
       (∀ w, w ∈ neighs → w ∈ g_nodes G) →
  ∃ s' added,
    ADKA.density_scan user_locations d neighs s = Ret s' ∧
    ADKA.d_queue s' = ADKA.d_queue s ++ ((λ w, (w, d + 1)) <$> added) ∧
    (∀ w, w ∈ ADKA.d_visited s' ↔ w ∈ ADKA.d_visited s ∨ w ∈ added) ∧
    (∀ w, w ∈ added → w ∈ neighs) ∧
    ADKA.d_visited s' ⊆ node_set G ∧
    ADKA.d_count s' = aggregate user_locations (ADKA.d_visited s') ∧
    (∀ w, w ∈ neighs → w ∈ ADKA.d_visited s') ∧
    d_measure s' = d_measure s.
Proof.
  induction neighs as [|neigh rest IH]; intros s Hsub Hcnt Hnodes.
  - exists s, []. simpl. split_and!; try done.
    + by rewrite app_nil_r.
    + intros w. split; [by left|]. intros [?|Hw]; [done|inversion Hw].
    + intros w Hw. inversion Hw.
  - simpl. destruct (decide (neigh ∈ ADKA.d_visited s)) as [Hin|Hnin].
    + destruct (IH s Hsub Hcnt)
        as (s' & added & Hrun & Hq & Hv & Hadd & Hsub' & Hcnt' & Hall & Hm).
      { intros w Hw. apply Hnodes. by right. }
      exists s', added. split_and!; try done.
      * intros w Hw. right. by apply Hadd.
      * intros w Hw. apply elem_of_cons in Hw as [->|Hw].
        -- apply Hv. by left.
        -- by apply Hall.
    + assert (neigh ∈ g_nodes G) as Hnode by (apply Hnodes; left).
      destruct (Hpop neigh Hnode) as [c Hc].
      unfold getitem. rewrite Hc. cbn [mbind res_bind].
      set (s1 := {| ADKA.d_visited := {[neigh]} ∪ ADKA.d_visited s;
                    ADKA.d_queue := ADKA.d_queue s ++ [(neigh, d + 1)];
                    ADKA.d_count := ADKA.d_count s + c |}).
      destruct (IH s1)
        as (s' & added & Hrun & Hq & Hv & Hadd & Hsub' & Hcnt' & Hall & Hm).
      { unfold s1; simpl. intros x Hx.
        apply elem_of_union in Hx as [Hx|Hx]; [|by apply Hsub].
        apply elem_of_singleton in Hx as ->. by apply node_set_elem. }
      { unfold s1; simpl. rewrite aggregate_insert by done.
        rewrite Hcnt. unfold pop_at. by rewrite Hc. }
      { intros w Hw. apply Hnodes. by right. }
      exists s', (neigh :: added). split_and!; try done.
      * rewrite Hq. unfold s1; simpl. by rewrite <- app_assoc.
      * intros w. rewrite Hv. unfold s1; simpl.
        rewrite elem_of_union, elem_of_singleton, elem_of_cons. tauto.
      * intros w Hw. apply elem_of_cons in Hw as [->|Hw]; [left|].
        right. by apply Hadd.
      * intros w Hw. apply elem_of_cons in Hw as [->|Hw].
        -- apply Hv. left. unfold s1; simpl.
           apply elem_of_union. left. by apply elem_of_singleton.
        -- by apply Hall.
      * rewrite Hm. unfold Inv.d_measure, s1; simpl.
        rewrite (size_remove_fresh (node_set G) (ADKA.d_visited s) neigh);
          [|by apply node_set_elem|done].
        rewrite length_app. simpl. lia.
Qed.

(** When the entries of depth [a] are used up, the entries of depth
    [a + 1] become the front. *)
Lemma d_inv_shift (a : nat) (qb : list (Z * Z)) (s : ADKA.dstate) :
  d_inv a [] qb s → qb ≠ [] → d_inv (S a) qb [] s.
Proof.
  intros [Hq Ha Hqa Hqb Hsub Hcnt Hball Hexp Hvis] Hne.
  assert (a < D)%nat as HaD.
  { destruct qb as [|p qb']; [done|]. apply (Hqb p). left. }
  assert (∀ u w, within G node a u → edge G u w → w ∈ ADKA.d_visited s)
    as Hdone.
  { intros u w Hu He. destruct (Hexp u Hu) as [Hin|Hall].
    - inversion Hin.
    - by apply (Hall HaD w). }
  assert (∀ w, within G node (S a) w → w ∈ ADKA.d_visited s) as Hball'.
  { intros w Hw. apply within_S_inv in Hw as [Hw|(u & Hu & He)].
    - by apply Hball.
    - by apply (Hdone u w). }
  split.
  - by rewrite app_nil_r.
  - lia.
  - intros p Hp. destruct (Hqb p Hp) as (Hd & _ & Hw). split; [lia|done].
  - intros p Hp. inversion Hp.
  - done.
  - done.
  - done.
  - intros u Hu. destruct (Hvis u (Hball' u Hu)) as [Hold|Hwait].
    + right. intros _ w He. by apply (Hdone u w).
    + by left.
  - intros w Hw. left. destruct (Hvis w Hw) as [Hold|Hwait].
    + by apply within_mono with a; [lia|].
    + apply list_elem_of_fmap in Hwait as (p & -> & Hp). by apply Hqb.
Qed.

(** The entry at the head of the queue can be taken as the head of the
    front part. *)
Lemma d_inv_front (a : nat) (qa qb : list (Z * Z)) (s : ADKA.dstate)
    (p : Z * Z) (q : list (Z * Z)) :
  d_inv a qa qb s → ADKA.d_queue s = p :: q →
  ∃ a' qa' qb', d_inv a' (p :: qa') qb' s ∧ q = qa' ++ qb'.
Proof.
  intros Hinv Hqueue. destruct qa as [|p0 qa0].
  - assert (qb = p :: q) as Hqb.
    { rewrite (Inv.di_queue _ _ _ _ _ _ _ _ Hinv) in Hqueue. done. }
    exists (S a), q, []. split; [|by rewrite app_nil_r].
    rewrite <- Hqb. apply d_inv_shift; [done|]. by rewrite Hqb.
  - rewrite (Inv.di_queue _ _ _ _ _ _ _ _ Hinv) in Hqueue.
    simpl in Hqueue. injection Hqueue as -> <-.
    by exists a, qa0, qb.
Qed.

(** An entry at the depth limit is dropped. *)
Lemma d_inv_skip (current d : Z) (qa' qb : list (Z * Z)) (s : ADKA.dstate) :
  d_inv D ((current, d) :: qa') qb s →
  qb = [] ∧
  d_inv D qa' []
    {| ADKA.d_visited := ADKA.d_visited s; ADKA.d_queue := qa' ++ qb;
       ADKA.d_count := ADKA.d_count s |}.
Proof.
  intros [Hq Ha Hqa Hqb Hsub Hcnt Hball Hexp Hvis].
  assert (qb = []) as ->.
  { destruct qb as [|p qb']; [done|].
    destruct (Hqb p) as (_ & Hlt & _); [left|lia]. }
  split; [done|]. split; simpl; try done.
  - intros p Hp. apply Hqa. by right.
  - intros u Hu. right. intros Hlt. lia.
Qed.

(** An entry below the depth limit is expanded. *)
Lemma d_inv_expand (a : nat) (current d : Z) (qa' qb : list (Z * Z))
    (s s' : ADKA.dstate) (neighs added : list Z) :
  d_inv a ((current, d) :: qa') qb s → (a < D)%nat →
  g_adj G !! current = Some neighs →
  ADKA.d_queue s' = (qa' ++ qb) ++ ((λ w, (w, d + 1)) <$> added) →
  (∀ w, w ∈ ADKA.d_visited s' ↔ w ∈ ADKA.d_visited s ∨ w ∈ added) →
  (∀ w, w ∈ added → w ∈ neighs) →
  ADKA.d_visited s' ⊆ node_set G →
  ADKA.d_count s' = aggregate user_locations (ADKA.d_visited s') →
  (∀ w, w ∈ neighs → w ∈ ADKA.d_visited s') →
  d_inv a qa' (qb ++ ((λ w, (w, d + 1)) <$> added)) s'.
Proof.
  intros [Hq Ha Hqa Hqb Hsub Hcnt Hball Hexp Hvis] HaD Hadj
         Hq' Hv Hadd Hsub' Hcnt' Hall.
  destruct (Hqa (current, d)) as [Hd Hcur]; [left|]. simpl in Hd, Hcur.
  split.
  - by rewrite Hq', app_assoc.
  - done.
  - intros p Hp. apply Hqa. by right.
  - intros p Hp. apply elem_of_app in Hp as [Hp|Hp]; [by apply Hqb|].
    apply list_elem_of_fmap in Hp as (w & -> & Hw). simpl.
    split_and!; [lia|done|].
    apply within_step with current; [done|].
    exists neighs. split; [done|]. by apply Hadd.
  - done.
  - done.
  - intros w Hw. apply Hv. left. by apply Hball.
  - intros u Hu. destruct (Hexp u Hu) as [Hwait|Hdone].
    + simpl in Hwait. apply elem_of_cons in Hwait as [->|Hwait]; [|by left].
      right. intros _ w (l & Hl & Hw). rewrite Hadj in Hl.
      injection Hl as <-. by apply Hall.
    + right. intros Hlt w He. apply Hv. left. by apply Hdone.
  - intros w Hw. apply Hv in Hw as [Hw|Hw].
    + destruct (Hvis w Hw) as [Hold|Hwait]; [by left|].
      right. rewrite fmap_app. apply elem_of_app. by left.
    + right. rewrite fmap_app. apply elem_of_app. right.
      rewrite <- list_fmap_compose.
      apply list_elem_of_fmap. by exists w.
Qed.

(** With the queue empty, the visited set is the ball of radius [D]. *)
Lemma d_inv_final (a : nat) (qa qb : list (Z * Z)) (s : ADKA.dstate) :
  d_inv a qa qb s → ADKA.d_queue s = [] →
  ∀ w, w ∈ ADKA.d_visited s ↔ within G node D w.
Proof.
  intros [Hq Ha Hqa Hqb Hsub Hcnt Hball Hexp Hvis] Hempty.
  rewrite Hempty in Hq. symmetry in Hq.
  apply app_eq_nil in Hq as [-> ->].
  assert (∀ w, w ∈ ADKA.d_visited s → within G node a w) as Hin.
  { intros w Hw. destruct (Hvis w Hw) as [Hold|Hwait]; [done|inversion Hwait]. }
  intros w. split.
  - intros Hw. apply within_mono with a; [done|]. by apply Hin.
  - intros (j & Hj & Hh). destruct (decide (a = D)) as [->|Hne].
    + apply Hball. by exists j.
    + assert (a < D)%nat as HaD by lia. clear Hj.
      induction Hh as [|j u w Hu IH He].
      * apply Hball. exists O. split; [lia|constructor].
      * destruct (Hexp u (Hin u IH)) as [Hwait|Hdone]; [inversion Hwait|].
        by apply (Hdone HaD w).
Qed.

Lemma density_loop_spec (fuel : nat) :
  ∀ s a qa qb, d_inv a qa qb s → (d_measure s < fuel)%nat →
  ∃ V, ADKA.density_loop G user_locations fuel (Z.of_nat D) s
       = Ret (aggregate user_locations V) ∧
       ∀ w, w ∈ V ↔ within G node D w.
Proof.
  induction fuel as [|fuel IH]; intros s a qa qb Hinv Hfuel; [lia|].
  simpl. destruct (ADKA.d_queue s) as [|[current d] q] eqn:Hqueue.
  - exists (ADKA.d_visited s). split.
    + by rewrite (Inv.di_count _ _ _ _ _ _ _ _ Hinv).
    + by apply (d_inv_final a qa qb).
  - destruct (d_inv_front a qa qb s (current, d) q Hinv Hqueue)
      as (a' & qa' & qb' & Hinv' & ->).
    clear Hinv a qa qb.
    assert (d_measure s = S (size (node_set G ∖ ADKA.d_visited s)
                             + length (qa' ++ qb'))) as Hm.
    { unfold Inv.d_measure. rewrite Hqueue. simpl. lia. }
    destruct (Inv.di_front _ _ _ _ _ _ _ _ Hinv' (current, d)) as [Hd Hcur];
      [left|]. simpl in Hd, Hcur.
    destruct (decide (d = Z.of_nat D)) as [HdD|HdD].
    + assert (a' = D) as -> by lia.
      destruct (d_inv_skip current d qa' qb' s Hinv') as [-> Hskip].
      apply (IH _ D qa' [] Hskip). unfold Inv.d_measure. simpl. lia.
    + assert (a' < D)%nat as HaD.
      { pose proof (Inv.di_level _ _ _ _ _ _ _ _ Hinv'). lia. }
      assert (current ∈ g_nodes G) as Hnode.
      { apply node_set_elem, (Inv.di_nodes _ _ _ _ _ _ _ _ Hinv').
        by apply (Inv.di_ball _ _ _ _ _ _ _ _ Hinv'). }
      destruct (neighbors_of_node G current Hwf Hnode)
        as (neighs & Hnb & Hadj & Hnodes).
      rewrite Hnb. cbn [mbind res_bind].
      set (s0 := {| ADKA.d_visited := ADKA.d_visited s;
                    ADKA.d_queue := qa' ++ qb';
                    ADKA.d_count := ADKA.d_count s |}).
      destruct (density_scan_spec d neighs s0)
        as (s' & added & Hrun & Hq' & Hv & Hadd & Hsub' & Hcnt' & Hall & Hm');
        [apply (Inv.di_nodes _ _ _ _ _ _ _ _ Hinv')
        |apply (Inv.di_count _ _ _ _ _ _ _ _ Hinv')
        |exact Hnodes|].
      rewrite Hrun. cbn [mbind res_bind].
      apply (IH s' a' qa' (qb' ++ ((λ w, (w, d + 1)) <$> added))).
      * by apply (d_inv_expand a' current d qa' qb' s s' neighs added).
      * rewrite Hm'. unfold Inv.d_measure, s0. simpl. lia.
Qed.

Lemma compute_density_spec :
  node ∈ g_nodes G →
  ∃ V, ADKA.compute_density G user_locations node (Z.of_nat D)
       = Ret (aggregate user_locations V) ∧
       ∀ w, w ∈ V ↔ within G node D w.
Proof.
  intros Hnode. destruct (Hpop node Hnode) as [c Hc].
  unfold ADKA.compute_density, getitem. rewrite Hc. cbn [mbind res_bind].
  apply (density_loop_spec _ _ O [(node, 0)] []).
  - split; simpl.
    + done.
    + lia.
    + intros p Hp. apply list_elem_of_singleton in Hp as ->. simpl.
      split; [done|]. by apply within_O.
    + intros p Hp. inversion Hp.
    + intros x Hx. apply elem_of_singleton in Hx as ->.
      by apply node_set_elem.
    + rewrite aggregate_singleton. unfold pop_at. by rewrite Hc.
    + intros w Hw. apply within_O in Hw as ->. by apply elem_of_singleton.
    + intros u Hu. apply within_O in Hu as ->. left. left.
    + intros w Hw. apply elem_of_singleton in Hw as ->. left.
      by apply within_O.
  - unfold Inv.d_measure, ADKA.loop_fuel. simpl.
    pose proof (subseteq_size (node_set G ∖ {[node]}) (node_set G)) as Hsz.
    unfold node_set in *.
    rewrite size_list_to_set in Hsz by apply (wf_nodup G Hwf).
    assert (list_to_set (g_nodes G) ∖ {[node]} ⊆@{gset Z}
            list_to_set (g_nodes G)) as Hsub
      by apply subseteq_difference_l, reflexivity.
    specialize (Hsz Hsub). lia.
Qed.
End Density.

(** C4: the density at depth [D] is the population summed over the set of
    nodes within [D] hops of the seed (a set, so each node once), for both
    versions of the function; at depth 0 it is the seed's own count. *)
Theorem compute_density_is_ball_population (G : Graph)
    (user_locations : gmap Z Z) (node : Z) (D : nat) :
  wf_graph G → populated user_locations G → node ∈ g_nodes G →
  (∃ V : gset Z,
     (∀ w, w ∈ V ↔ within G node D w) ∧
     ADKA.compute_density G user_locations node (Z.of_nat D)
     = Ret (aggregate user_locations V) ∧
     DensityAware.compute_local_density
       {| DensityAware.graph := G;
          DensityAware.user_at_node := user_locations |} node (Z.of_nat D)
     = Ret (aggregate user_locations V)) ∧
  ADKA.compute_density G user_locations node 0
  = Ret (pop_at user_locations node) ∧
  DensityAware.compute_local_density
    {| DensityAware.graph := G;
       DensityAware.user_at_node := user_locations |} node 0
  = Ret (pop_at user_locations node).
Proof.
  intros Hwf Hpop Hnode.
  assert (ADKA.compute_density G user_locations node 0
          = Ret (pop_at user_locations node)) as Hzero.
  { destruct (compute_density_spec G user_locations Hwf Hpop node O Hnode)
      as (V & Hrun & HV).
    assert (V = {[node]}) as ->.
    { apply set_eq. intros w. rewrite HV, within_O, elem_of_singleton. done. }
    rewrite aggregate_singleton in Hrun. exact Hrun. }
  split; [|split; [exact Hzero|exact Hzero]].
  destruct (compute_density_spec G user_locations Hwf Hpop node D Hnode)
    as (V & Hrun & HV).
  exists V. split_and!; [exact HV|exact Hrun|exact Hrun].
Qed.

Lemma compute_density_is_ball_population_witness :
  (∃ V : gset Z,
     (∀ w, w ∈ V ↔ within grid2 0 1 w) ∧
     ADKA.compute_density grid2 pop2 0 1 = Ret (aggregate pop2 V) ∧
     DensityAware.compute_local_density
       {| DensityAware.graph := grid2; DensityAware.user_at_node := pop2 |} 0 1
     = Ret (aggregate pop2 V)) ∧
  ADKA.compute_density grid2 pop2 0 0 = Ret (pop_at pop2 0) ∧
  DensityAware.compute_local_density
    {| DensityAware.graph := grid2; DensityAware.user_at_node := pop2 |} 0 0
  = Ret (pop_at pop2 0).
Proof.
  apply (compute_density_is_ball_population grid2 pop2 0 1).
  - apply grid2_wf.
  - apply pop2_populated.
  - by_evaluation.
Defined.

(** On the 4-cycle [grid2] node 3 is two hops from node 0 along two
    different walks and is counted once. *)
Example compute_density_cycle :
  ADKA.compute_density grid2 pop2 0 2 = Ret 3 ∧
  ADKA.compute_density grid2 pop2 0 7 = Ret 3 ∧
  ADKA.compute_density grid2 pop2 2 1 = Ret 3 ∧
  ADKA.compute_density grid2 pop2 3 1 = Ret 2.
Proof. repeat split; vm_compute; reflexivity. Qed.


(** * Further properties of the code *)

(** ** Paths inside a region *)

Lemma edge_in_mono (G : Graph) (R R' : gset Z) (u w : Z) :
  R ⊆ R' → rtc (edge_in G R) u w → rtc (edge_in G R') u w.
Proof.
  intros Hsub Hpath. induction Hpath as [|x y z [He [Hx Hy]] _ IH]; [done|].
  apply rtc_l with y; [|exact IH].
  unfold edge_in. split_and!; [exact He|by apply Hsub|by apply Hsub].
Qed.

Lemma region_connected_singleton (G : Graph) (start : Z) :
  region_connected G {[start]} start.
Proof. intros x Hx. by apply elem_of_singleton in Hx as ->. Qed.

Lemma region_connected_insert (G : Graph) (R : gset Z) (start u w : Z) :
  region_connected G R start → u ∈ R → edge G u w →
  region_connected G ({[w]} ∪ R) start.
Proof.
  intros Hconn Hu He x Hx.
  assert (R ⊆ {[w]} ∪ R) as Hsub by apply union_subseteq_r.
  apply elem_of_union in Hx as [Hx|Hx].
  - apply elem_of_singleton in Hx as ->.
    eapply rtc_r; [apply (edge_in_mono G R _ start u Hsub), Hconn, Hu|].
    unfold edge_in. split_and!; [exact He|by apply Hsub|].
    apply elem_of_union. left. by apply elem_of_singleton.
  - by apply (edge_in_mono G R), Hconn.
Qed.

Lemma region_connected_reachable (G : Graph) (R : gset Z) (start x : Z) :
  region_connected G R start → x ∈ R → rtc (edge G) start x.
Proof.
  intros Hconn Hx. specialize (Hconn x Hx). clear Hx.
  induction Hconn as [|a b c [He _] _ IH]; [apply rtc_refl|].
  by apply rtc_l with b.
Qed.

(** ** What the expansion keeps, on any graph *)

Section Tracking.
Variable G : Graph.
Variable user_locations : gmap Z Z.
Variables start k : Z.

Local Abbreviation e_good := (Track.e_good G user_locations start k).

Lemma expand_scan_good (current : Z) (neighs : list Z) :
  ∀ s s', ADKA.expand_scan user_locations k neighs s = Ret s' →
          e_good s → ADKA.e_count s < k → current ∈ ADKA.e_region s →
          (∀ w, w ∈ neighs → edge G current w) →
          e_good s'.
Proof.
  induction neighs as [|neigh rest IH];
    intros s s' Hrun Hgood Hlt Hcur Hedges; simpl in Hrun.
  - by injection Hrun as <-.
  - assert (∀ w, w ∈ rest → edge G current w) as Hrest
      by (intros w Hw; apply Hedges; by right).
    destruct (decide (neigh ∈ ADKA.e_region s)) as [Hin|Hnin];
      [by apply (IH s s')|].
    unfold getitem in Hrun.
    destruct (user_locations !! neigh) as [c|] eqn:Hc;
      unfold mbind, res_bind in Hrun; [|discriminate Hrun].
    destruct Hgood as [Hseed Hcnt Hq Hconn Htight].
    set (s1 := {| ADKA.e_region := {[neigh]} ∪ ADKA.e_region s;
                  ADKA.e_queue := ADKA.e_queue s ++ [neigh];
                  ADKA.e_count := ADKA.e_count s + c |}) in *.
    assert (e_good s1) as Hgood1.
    { split; simpl.
      - apply elem_of_union. by right.
      - rewrite aggregate_insert by done. rewrite Hcnt.
        unfold pop_at. by rewrite Hc.
      - intros x Hx. apply elem_of_app in Hx as [Hx|Hx].
        + apply elem_of_union. right. by apply Hq.
        + apply list_elem_of_singleton in Hx as ->.
          apply elem_of_union. left. by apply elem_of_singleton.
      - apply region_connected_insert with current; [done|done|].
        apply Hedges. left.
      - right. exists neigh, (ADKA.e_region s).
        split_and!; [done|done|done|lia]. }
    destruct (decide (k ≤ ADKA.e_count s + c)) as [Hge|Hlt'].
    + by injection Hrun as <-.
    + apply (IH s1 s'); try done.
      * simpl. lia.
      * simpl. apply elem_of_union. by right.
Qed.

Lemma expand_step_good (s s' : ADKA.estate) (current : Z) (q neighs : list Z) :
  e_good s → ADKA.e_count s < k → ADKA.e_queue s = current :: q →
  neighbors G current = Ret neighs →
  ADKA.expand_scan user_locations k neighs
    {| ADKA.e_region := ADKA.e_region s; ADKA.e_queue := q;
       ADKA.e_count := ADKA.e_count s |} = Ret s' →
  e_good s'.
Proof.
  intros Hgood Hlt Hqueue Hnb Hscan.
  assert (g_adj G !! current = Some neighs) as Hadj.
  { unfold neighbors in Hnb. destruct (g_adj G !! current); by inversion Hnb. }
  destruct Hgood as [Hseed Hcnt Hq Hconn Htight].
  apply (expand_scan_good current neighs _ s' Hscan); simpl.
  - split; simpl; try done. intros x Hx. apply Hq. rewrite Hqueue. by right.
  - done.
  - apply Hq. rewrite Hqueue. left.
  - intros w Hw. by exists neighs.
Qed.

Lemma adka_expand_loop_good (fuel : nat) :
  ∀ s R, ADKA.expand_loop G user_locations fuel k s = Ret R →
         e_good s →
         ∃ s', R = ADKA.e_region s' ∧ e_good s' ∧ k ≤ ADKA.e_count s'.
Proof.
  induction fuel as [|fuel IH]; intros s R Hrun Hgood; simpl in Hrun;
    [discriminate Hrun|].
  destruct (decide (ADKA.e_count s < k)) as [Hlt|Hge].
  - destruct (ADKA.e_queue s) as [|current q] eqn:Hqueue;
      [discriminate Hrun|].
    destruct (neighbors G current) as [neighs| |] eqn:Hnb;
      unfold mbind, res_bind in Hrun; try discriminate Hrun.
    destruct (ADKA.expand_scan user_locations k neighs _) as [s1| |] eqn:Hscan;
      try discriminate Hrun.
    apply (IH s1 R Hrun).
    by apply (expand_step_good s s1 current q neighs).
  - injection Hrun as <-. exists s. split_and!; [done|done|lia].
Qed.

Lemma class_expand_loop_good (fuel : nat) :
  ∀ s R, DensityAware.expand_loop
           {| DensityAware.graph := G;
              DensityAware.user_at_node := user_locations |} fuel k s = Ret R →
         e_good s →
         ∃ s', R = ADKA.e_region s' ∧ e_good s'.
Proof.
  induction fuel as [|fuel IH]; intros s R Hrun Hgood; simpl in Hrun;
    [discriminate Hrun|].
  destruct (decide (ADKA.e_count s < k)) as [Hlt|Hge].
  - destruct (ADKA.e_queue s) as [|current q] eqn:Hqueue.
    + injection Hrun as <-. by exists s.
    + destruct (neighbors G current) as [neighs| |] eqn:Hnb;
        unfold mbind, res_bind in Hrun; try discriminate Hrun.
      destruct (ADKA.expand_scan user_locations k neighs _)
        as [s1| |] eqn:Hscan; try discriminate Hrun.
      apply (IH s1 R Hrun).
      by apply (expand_step_good s s1 current q neighs).
  - injection Hrun as <-. by exists s.
Qed.

Lemma expand_initial_good (c : Z) :
  user_locations !! start = Some c →
  e_good {| ADKA.e_region := {[start]}; ADKA.e_queue := [start];
            ADKA.e_count := c |}.
Proof.
  intros Hc. split; simpl.
  - by apply elem_of_singleton.
  - rewrite aggregate_singleton. unfold pop_at. by rewrite Hc.
  - intros x Hx. apply list_elem_of_singleton in Hx as ->.
    by apply elem_of_singleton.
  - apply region_connected_singleton.
  - by left.
Qed.

Lemma adka_expand_region_good (R : gset Z) :
  ADKA.expand_region G user_locations start k = Ret R →
  k ≤ aggregate user_locations R ∧
  region_connected G R start ∧
  region_tight user_locations k start R.
Proof.
  unfold ADKA.expand_region, getitem. intros Hrun.
  destruct (user_locations !! start) as [c|] eqn:Hc;
    unfold mbind, res_bind in Hrun; [|discriminate Hrun].
  destruct (adka_expand_loop_good _ _ R Hrun (expand_initial_good c Hc))
    as (s' & -> & [Hseed Hcnt Hq Hconn Htight] & Hk).
  split_and!; [lia|done|done].
Qed.

Lemma class_expand_region_good (R : gset Z) :
  DensityAware.expand_anonymization_region
    {| DensityAware.graph := G; DensityAware.user_at_node := user_locations |}
    start k = Ret R →
  region_connected G R start ∧ region_tight user_locations k start R.
Proof.
  unfold DensityAware.expand_anonymization_region, getitem.
  cbn [DensityAware.user_at_node DensityAware.graph]. intros Hrun.
  destruct (user_locations !! start) as [c|] eqn:Hc;
    unfold mbind, res_bind in Hrun; [|discriminate Hrun].
  destruct (class_expand_loop_good _ _ R Hrun (expand_initial_good c Hc))
    as (s' & -> & [Hseed Hcnt Hq Hconn Htight]).
  by split.
Qed.
End Tracking.

(** ** The user table *)

Lemma get_users_at_node_elem (c : KAnonymity.SmartCityGraph) (n u : Z) :
  u ∈ KAnonymity.get_users_at_node c n ↔ located c u n.
Proof.
  unfold KAnonymity.get_users_at_node, located.
  rewrite list_elem_of_omap. split.
  - intros ([u' n'] & Hin & Hf). destruct (decide (n' = n)) as [->|Hne].
    + by injection Hf as ->.
    + discriminate Hf.
  - intros Hin. exists (u, n). split; [done|]. by rewrite decide_True.
Qed.

Lemma dict_get_located (d : list (Z * Z)) (key v : Z) :
  KAnonymity.dict_get d key = Ret v → (key, v) ∈ d.
Proof.
  induction d as [|[k' v'] d IH]; simpl; intros Hget; [discriminate Hget|].
  destruct (decide (k' = key)) as [->|Hne].
  - injection Hget as ->. left.
  - right. by apply IH.
Qed.

Lemma located_dict_get (d : list (Z * Z)) (key v : Z) :
  NoDup d.*1 → (key, v) ∈ d → KAnonymity.dict_get d key = Ret v.
Proof.
  induction d as [|[k' v'] d IH]; simpl; intros Hnd Hin; [inversion Hin|].
  apply NoDup_cons in Hnd as [Hfresh Hnd].
  destruct (decide (k' = key)) as [->|Hne].
  - apply elem_of_cons in Hin as [Heq|Hin]; [by injection Heq as ->|].
    exfalso. apply Hfresh. apply list_elem_of_fmap. by exists (key, v).
  - apply elem_of_cons in Hin as [Heq|Hin]; [by injection Heq|].
    by apply IH.
Qed.

(** ** What the search keeps, on any graph *)

Section SearchTracking.
Variable self : KAnonymity.KAnonymityPrivacyManager.
Variables query_node query_user : Z.

Local Abbreviation G := (KAnonymity.graph (KAnonymity.city self)).
Local Abbreviation k_good :=
  (Track.k_good (KAnonymity.city self) query_node query_user
     (KAnonymity.k self)).

Lemma enqueue_neighbors_good (current : Z) (neighs : list Z) :
  ∀ s, (∀ w, w ∈ neighs → edge G current w) →
       current ∈ KAnonymity.k_region s →
       region_connected G (KAnonymity.k_region s) query_node →
       (∀ x, x ∈ KAnonymity.k_queue s → x ∈ KAnonymity.k_region s) →
       let s' := KAnonymity.enqueue_neighbors neighs s in
       region_connected G (KAnonymity.k_region s') query_node ∧
       (∀ x, x ∈ KAnonymity.k_queue s' → x ∈ KAnonymity.k_region s') ∧
       (∀ w, w ∈ neighs →
             w ∈ KAnonymity.k_visited s ∨ w ∈ KAnonymity.k_region s') ∧
       (∀ x, x ∈ KAnonymity.k_region s' →
             x ∈ KAnonymity.k_region s ∨ x ∈ KAnonymity.k_queue s') ∧
       (∀ x, x ∈ KAnonymity.k_queue s → x ∈ KAnonymity.k_queue s') ∧
       KAnonymity.k_region s ⊆ KAnonymity.k_region s' ∧
       KAnonymity.k_visited s' = KAnonymity.k_visited s ∧
       KAnonymity.k_users s' = KAnonymity.k_users s.
Proof.
  induction neighs as [|nb rest IH]; intros s Hedges Hcur Hconn Hq; simpl.
  - split_and!; try done.
    + intros w Hw. inversion Hw.
    + intros x Hx. by left.
  - assert (∀ w, w ∈ rest → edge G current w) as Hrest
      by (intros w Hw; apply Hedges; by right).
    destruct (decide (nb ∈ KAnonymity.k_visited s)) as [Hin|Hnin].
    + destruct (IH s Hrest Hcur Hconn Hq)
        as (Hc & Hq' & Hcov & Hnew & Hkeep & Hsub & Hv & Hu).
      split_and!; try done.
      intros w Hw. apply elem_of_cons in Hw as [->|Hw]; [by left|].
      by apply Hcov.
    + match goal with
      | |- context [KAnonymity.enqueue_neighbors rest ?t] => set (s1 := t)
      end.
      destruct (IH s1) as (Hc & Hq' & Hcov & Hnew & Hkeep & Hsub & Hv & Hu).
      * exact Hrest.
      * simpl. apply elem_of_union. by right.
      * simpl. apply region_connected_insert with current; [done|done|].
        apply Hedges. left.
      * simpl. intros x Hx. apply elem_of_app in Hx as [Hx|Hx].
        -- apply elem_of_union. right. by apply Hq.
        -- apply list_elem_of_singleton in Hx as ->.
           apply elem_of_union. left. by apply elem_of_singleton.
      * simpl in *. split_and!; try done.
        -- intros w Hw. apply elem_of_cons in Hw as [->|Hw].
           ++ right. apply Hsub. apply elem_of_union. left.
              by apply elem_of_singleton.
           ++ by apply Hcov.
        -- intros x Hx. destruct (Hnew x Hx) as [Hx'|Hx']; [|by right].
           apply elem_of_union in Hx' as [Hx'|Hx']; [|by left].
           apply elem_of_singleton in Hx' as ->. right.
           apply Hkeep. apply elem_of_app. right. left.
        -- intros x Hx. apply Hkeep. apply elem_of_app. by left.
        -- etrans; [|exact Hsub]. apply union_subseteq_r.
Qed.

Lemma find_loop_good (fuel : nat) :
  ∀ s s', KAnonymity.find_loop self fuel s = Ret s' → k_good s →
          k_good s' ∧
          (Z.of_nat (size (KAnonymity.k_users s')) < KAnonymity.k self →
           KAnonymity.k_queue s' = []).
Proof.
  induction fuel as [|fuel IH]; intros s s' Hrun Hgood; simpl in Hrun;
    [discriminate Hrun|].
  destruct (KAnonymity.k_queue s) as [|current q] eqn:Hqueue.
  { injection Hrun as <-. by split. }
  destruct (decide (Z.of_nat (size (KAnonymity.k_users s))
                    < KAnonymity.k self)) as [Hlt|Hge].
  2:{ injection Hrun as <-. split; [done|]. intros Hlt. lia. }
  destruct Hgood as [Hseed Hvis Hq Hfront Hconn Hquery Husers Hcompl Hclosed].
  assert (current ∈ KAnonymity.k_region s) as Hcur
    by (apply Hq; rewrite Hqueue; left).
  assert (∀ x, x ∈ q → x ∈ KAnonymity.k_region s) as Hq0
    by (intros x Hx; apply Hq; rewrite Hqueue; by right).
  destruct (decide (current ∈ KAnonymity.k_visited s)) as [Hseen|Hnew].
  - apply (IH _ s' Hrun). split; simpl; try done.
    intros x Hx. destruct (Hfront x Hx) as [Hx'|Hx']; [by left|].
    rewrite Hqueue in Hx'. apply elem_of_cons in Hx' as [->|Hx'];
      [by left|by right].
  - set (V1 := {[current]} ∪ KAnonymity.k_visited s) in *.
    set (U1 := KAnonymity.k_users s ∪
               list_to_set (KAnonymity.get_users_at_node
                              (KAnonymity.city self) current)) in *.
    assert (V1 ⊆ KAnonymity.k_region s) as Hvis1.
    { intros x Hx. apply elem_of_union in Hx as [Hx|Hx]; [|by apply Hvis].
      by apply elem_of_singleton in Hx as ->. }
    assert (∀ x, x ∈ KAnonymity.k_region s → x ∈ V1 ∨ x ∈ q) as Hfront1.
    { intros x Hx. destruct (Hfront x Hx) as [Hx'|Hx'].
      - left. apply elem_of_union. by right.
      - rewrite Hqueue in Hx'. apply elem_of_cons in Hx' as [->|Hx'];
          [|by right].
        left. apply elem_of_union. left. by apply elem_of_singleton. }
    assert (∀ u, u ∈ U1 →
                 u = query_user ∨
                 ∃ n, n ∈ V1 ∧ located (KAnonymity.city self) u n) as Husers1.
    { intros u Hu. apply elem_of_union in Hu as [Hu|Hu].
      - destruct (Husers u Hu) as [->|(n & Hn & Hloc)]; [by left|].
        right. exists n. split; [|done]. apply elem_of_union. by right.
      - right. exists current. split.
        + apply elem_of_union. left. by apply elem_of_singleton.
        + apply elem_of_list_to_set in Hu. by apply get_users_at_node_elem. }
    assert (∀ n u, n ∈ V1 → located (KAnonymity.city self) u n → u ∈ U1)
      as Hcompl1.
    { intros n u Hn Hloc. apply elem_of_union in Hn as [Hn|Hn].
      - apply elem_of_singleton in Hn as ->. apply elem_of_union. right.
        by apply elem_of_list_to_set, get_users_at_node_elem.
      - apply elem_of_union. left. by apply (Hcompl n). }
    assert (query_user ∈ U1) as Hquery1 by (apply elem_of_union; by left).
    destruct (decide (KAnonymity.k self ≤ Z.of_nat (size U1)))
      as [Hdone|Hmore].
    + injection Hrun as <-. split.
      * split; simpl; try done. intros Hlt'. lia.
      * simpl. intros Hlt'. lia.
    + destruct (neighbors G current) as [neighs| |] eqn:Hnb;
        unfold mbind, res_bind in Hrun; try discriminate Hrun.
      assert (g_adj G !! current = Some neighs) as Hadj.
      { unfold neighbors in Hnb.
        destruct (g_adj G !! current); by inversion Hnb. }
      match type of Hrun with
      | KAnonymity.find_loop _ _ (KAnonymity.enqueue_neighbors _ ?t) = _ =>
          set (s1 := t) in *
      end.
      destruct (enqueue_neighbors_good current neighs s1)
        as (Hc & Hq' & Hcov & Hnw & Hkeep & Hsub & Hv & Hu); simpl; try done.
      { intros w Hw. by exists neighs. }
      apply (IH _ s' Hrun). split.
      * by apply Hsub.
      * rewrite Hv. simpl. etrans; [exact Hvis1|exact Hsub].
      * exact Hq'.
      * intros x Hx. rewrite Hv. simpl.
        destruct (Hnw x Hx) as [Hx'|Hx']; [|by right].
        simpl in Hx'. destruct (Hfront1 x Hx') as [?|Hxq]; [by left|].
        right. by apply Hkeep.
      * exact Hc.
      * by rewrite Hu.
      * rewrite Hu, Hv. exact Husers1.
      * rewrite Hu, Hv. exact Hcompl1.
      * rewrite Hu, Hv. simpl. intros _ n w Hn He.
        apply elem_of_union in Hn as [Hn|Hn].
        -- apply elem_of_singleton in Hn as ->.
           destruct He as (l & Hl & Hw). rewrite Hadj in Hl.
           injection Hl as <-. destruct (Hcov w Hw) as [Hw'|Hw']; [|done].
           simpl in Hw'. by apply Hsub, Hvis1.
        -- apply Hsub. simpl. by apply (Hclosed Hlt n w).
Qed.

Lemma find_k_anonymous_region_good (R : gset Z) (U : list Z) :
  KAnonymity.dict_get (KAnonymity.users (KAnonymity.city self)) query_user
    = Ret query_node →
  KAnonymity.find_k_anonymous_region self query_user = Ret (R, U) →
  NoDup U ∧ query_user ∈ U ∧
  (∀ u, u ∈ U → ∃ n, n ∈ R ∧ located (KAnonymity.city self) u n) ∧
  region_connected G R query_node ∧
  (Z.of_nat (length U) < KAnonymity.k self →
   (∀ n w, n ∈ R → edge G n w → w ∈ R) ∧
   ∀ n u, n ∈ R → located (KAnonymity.city self) u n → u ∈ U).
Proof.
  intros Hget Hrun. unfold KAnonymity.find_k_anonymous_region in Hrun.
  rewrite Hget in Hrun. unfold mbind, res_bind in Hrun.
  destruct (KAnonymity.find_loop self _ _) as [s'| |] eqn:Hloop;
    try discriminate Hrun.
  injection Hrun as <- <-.
  apply find_loop_good in Hloop as [Hgood Hempty].
  2:{ split; simpl.
      - by apply elem_of_singleton.
      - apply empty_subseteq.
      - intros x Hx. apply list_elem_of_singleton in Hx as ->.
        by apply elem_of_singleton.
      - intros x Hx. right. apply elem_of_singleton in Hx as ->. left.
      - apply region_connected_singleton.
      - by apply elem_of_singleton.
      - intros u Hu. left. by apply elem_of_singleton in Hu.
      - intros n u Hn. by apply not_elem_of_empty in Hn.
      - intros _ n w Hn. by apply not_elem_of_empty in Hn. }
  destruct Hgood as [Hseed Hvis Hq Hfront Hconn Hquery Husers Hcompl Hclosed].
  split_and!.
  - apply NoDup_elements.
  - by apply elem_of_elements.
  - intros u Hu. apply elem_of_elements in Hu.
    destruct (Husers u Hu) as [->|(n & Hn & Hloc)].
    + exists query_node. split; [done|]. by apply dict_get_located.
    + exists n. split; [by apply Hvis|done].
  - exact Hconn.
  - intros Hlt.
    assert (Z.of_nat (size (KAnonymity.k_users s')) < KAnonymity.k self)
      as Hlt' by exact Hlt.
    specialize (Hempty Hlt').
    assert (∀ n, n ∈ KAnonymity.k_region s' → n ∈ KAnonymity.k_visited s')
      as Hall.
    { intros n Hn. destruct (Hfront n Hn) as [?|Hnq]; [done|].
      rewrite Hempty in Hnq. inversion Hnq. }
    split.
    + intros n w Hn He. apply (Hclosed Hlt' n w); [by apply Hall|done].
    + intros n u Hn Hloc. apply elem_of_elements.
      apply (Hcompl n); [by apply Hall|done].
Qed.
End SearchTracking.

(** ** Regions returned by the expansions *)

(** X1: adka.py's [expand_region] leaves its loop only with the running count
    at [k] or above, and the count is the population of the region: on any
    graph, a returned region holds at least [k] users. *)
Theorem adka_expand_region_never_short (G : Graph)
    (user_locations : gmap Z Z) (start_node k : Z) (R : gset Z) :
  ADKA.expand_region G user_locations start_node k = Ret R →
  k ≤ aggregate user_locations R.
Proof.
  intros Hrun.
  by destruct (adka_expand_region_good G user_locations start_node k R Hrun).
Qed.

Lemma adka_expand_region_never_short_witness :
  3 ≤ aggregate pop2 (node_set grid2).
Proof.
  apply (adka_expand_region_never_short grid2 pop2 1 3).
  vm_compute. reflexivity.
Defined.

(** X2: Both expansions stop adding nodes as soon as the count reaches [k]: a
    returned region is the seed alone, or without the node added last it
    held fewer than [k] users. *)
Theorem expansion_is_tight (G : Graph) (user_locations : gmap Z Z)
    (start_node k : Z) (R R' : gset Z) :
  (ADKA.expand_region G user_locations start_node k = Ret R →
   region_tight user_locations k start_node R) ∧
  (DensityAware.expand_anonymization_region
     {| DensityAware.graph := G; DensityAware.user_at_node := user_locations |}
     start_node k = Ret R' →
   region_tight user_locations k start_node R').
Proof.
  split; intros Hrun.
  - by destruct (adka_expand_region_good G user_locations start_node k R Hrun)
      as (_ & _ & Ht).
  - by destruct (class_expand_region_good G user_locations start_node k R' Hrun).
Qed.

Lemma expansion_is_tight_witness :
  region_tight pop2 3 1 (node_set grid2) ∧
  region_tight pop5 31 0 (node_set grid5).
Proof.
  split.
  - apply (expansion_is_tight grid2 pop2 1 3 (node_set grid2) ∅).
    vm_compute. reflexivity.
  - apply (expansion_is_tight grid5 pop5 0 31 ∅ (node_set grid5)).
    vm_compute. reflexivity.
Defined.

(** X3: Both expansions return a connected region: every node of it is reached
    from the seed along edges between region nodes. *)
Theorem expansion_region_is_connected (G : Graph)
    (user_locations : gmap Z Z) (start_node k : Z) (R R' : gset Z) :
  (ADKA.expand_region G user_locations start_node k = Ret R →
   region_connected G R start_node) ∧
  (DensityAware.expand_anonymization_region
     {| DensityAware.graph := G; DensityAware.user_at_node := user_locations |}
     start_node k = Ret R' →
   region_connected G R' start_node).
Proof.
  split; intros Hrun.
  - by destruct (adka_expand_region_good G user_locations start_node k R Hrun)
      as (_ & Hc & _).
  - by destruct (class_expand_region_good G user_locations start_node k R' Hrun).
Qed.

Lemma expansion_region_is_connected_witness :
  region_connected grid2 (node_set grid2) 1 ∧
  region_connected grid5 (node_set grid5) 0.
Proof.
  split.
  - apply (expansion_region_is_connected grid2 pop2 1 3 (node_set grid2) ∅).
    vm_compute. reflexivity.
  - apply (expansion_region_is_connected grid5 pop5 0 31 ∅ (node_set grid5)).
    vm_compute. reflexivity.
Defined.

Lemma closed_contains_reachable (G : Graph) (R : gset Z) (a b : Z) :
  (∀ n w, n ∈ R → edge G n w → w ∈ R) → a ∈ R → rtc (edge G) a b → b ∈ R.
Proof.
  intros Hclosed Ha Hpath. induction Hpath as [|x y z Hxy _ IH]; [done|].
  apply IH. by apply (Hclosed x y).
Qed.

(** ** Regions returned by the search *)

(** X4: The users the search returns are distinct, include the query user, and
    each of them stands at a node of the returned region. *)
Theorem search_users_stand_in_region
    (self : KAnonymity.KAnonymityPrivacyManager)
    (query_user query_node : Z) (R : gset Z) (U : list Z) :
  KAnonymity.dict_get (KAnonymity.users (KAnonymity.city self)) query_user
    = Ret query_node →
  KAnonymity.find_k_anonymous_region self query_user = Ret (R, U) →
  NoDup U ∧ query_user ∈ U ∧
  ∀ u, u ∈ U → ∃ n, n ∈ R ∧ located (KAnonymity.city self) u n.
Proof.
  intros Hget Hrun.
  by destruct (find_k_anonymous_region_good self query_node query_user R U
                 Hget Hrun) as (Hnd & Hq & Hloc & _).
Qed.

Lemma search_users_stand_in_region_witness :
  NoDup (elements ({[0; 1; 2]} : gset Z)) ∧
  2 ∈ elements ({[0; 1; 2]} : gset Z) ∧
  ∀ u, u ∈ elements ({[0; 1; 2]} : gset Z) →
       ∃ n, n ∈ ({[0; 1; 2; 3]} : gset Z) ∧ located city2 u n.
Proof.
  apply (search_users_stand_in_region
           {| KAnonymity.city := city2; KAnonymity.k := 3 |} 2 3).
  - reflexivity.
  - vm_compute. reflexivity.
Defined.

(** X5: The region the search returns is connected around the query user's
    node. *)
Theorem search_region_is_connected
    (self : KAnonymity.KAnonymityPrivacyManager)
    (query_user query_node : Z) (R : gset Z) (U : list Z) :
  KAnonymity.dict_get (KAnonymity.users (KAnonymity.city self)) query_user
    = Ret query_node →
  KAnonymity.find_k_anonymous_region self query_user = Ret (R, U) →
  region_connected (KAnonymity.graph (KAnonymity.city self)) R query_node.
Proof.
  intros Hget Hrun.
  by destruct (find_k_anonymous_region_good self query_node query_user R U
                 Hget Hrun) as (_ & _ & _ & Hc & _).
Qed.

Lemma search_region_is_connected_witness :
  region_connected (city_grid 2) {[0; 1; 2; 3]} 3.
Proof.
  apply (search_region_is_connected
           {| KAnonymity.city := city2; KAnonymity.k := 3 |} 2 3 _
           (elements ({[0; 1; 2]} : gset Z))).
  - reflexivity.
  - vm_compute. reflexivity.
Defined.

(** X6: When the search returns fewer than [k] users it has taken the whole
    connected component of the query user's node: no edge leaves the
    region, and every user standing anywhere in the component is in the
    returned list. *)
Theorem search_short_means_component_exhausted
    (self : KAnonymity.KAnonymityPrivacyManager)
    (query_user query_node : Z) (R : gset Z) (U : list Z) :
  KAnonymity.dict_get (KAnonymity.users (KAnonymity.city self)) query_user
    = Ret query_node →
  KAnonymity.find_k_anonymous_region self query_user = Ret (R, U) →
  Z.of_nat (length U) < KAnonymity.k self →
  region_closed (KAnonymity.graph (KAnonymity.city self)) R ∧
  ∀ u n, located (KAnonymity.city self) u n →
         rtc (edge (KAnonymity.graph (KAnonymity.city self))) query_node n →
         n ∈ R ∧ u ∈ U.
Proof.
  intros Hget Hrun Hlt.
  destruct (find_k_anonymous_region_good self query_node query_user R U
              Hget Hrun) as (_ & _ & _ & _ & Hshort).
  destruct (Hshort Hlt) as [Hclosed Hall].
  destruct returned_region_has_seed as (_ & _ & Hseed).
  specialize (Hseed self query_user query_node R U Hget Hrun).
  split.
  - intros n w Hn He. by apply (Hclosed n w).
  - intros u n Hloc Hpath.
    assert (n ∈ R) as Hn
      by exact (closed_contains_reachable _ R query_node n Hclosed Hseed Hpath).
    split; [done|]. by apply (Hall n).
Qed.

Lemma city2_connected : connected (city_grid 2).
Proof.
  apply check_connected_sound; [apply city2_wf|]. vm_compute. reflexivity.
Qed.

Lemma search_short_means_component_exhausted_witness :
  0 ∈ ({[0; 1; 2; 3]} : gset Z) ∧ 1 ∈ elements ({[0; 1; 2]} : gset Z).
Proof.
  destruct (search_short_means_component_exhausted
              {| KAnonymity.city := city2; KAnonymity.k := 5 |} 2 3
              {[0; 1; 2; 3]} (elements ({[0; 1; 2]} : gset Z)))
    as [_ Hall].
  - reflexivity.
  - vm_compute. reflexivity.
  - vm_compute. reflexivity.
  - apply (Hall 1 0).
    + unfold located. by_evaluation.
    + apply city2_connected; by_evaluation.
Defined.


(** X7: If [k] distinct users stand at nodes reachable from the query user's
    node, the search on a well-formed graph returns at least [k] users. *)
Theorem search_succeeds_when_enough_users_are_reachable
    (self : KAnonymity.KAnonymityPrivacyManager)
    (query_user query_node : Z) (L : list Z) :
  wf_graph (KAnonymity.graph (KAnonymity.city self)) →
  KAnonymity.dict_get (KAnonymity.users (KAnonymity.city self)) query_user
    = Ret query_node →
  query_node ∈ g_nodes (KAnonymity.graph (KAnonymity.city self)) →
  NoDup L →
  (∀ u, u ∈ L →
        ∃ n, located (KAnonymity.city self) u n ∧
             rtc (edge (KAnonymity.graph (KAnonymity.city self)))
                 query_node n) →
  KAnonymity.k self ≤ Z.of_nat (length L) →
  ∃ R U, KAnonymity.find_k_anonymous_region self query_user = Ret (R, U) ∧
         KAnonymity.k self ≤ Z.of_nat (length U).
Proof.
  intros Hwf Hget Hnode Hnd Hreach Hk.
  destruct (find_k_anonymous_region_spec self Hwf query_node query_user
              Hget Hnode) as (R & U & Hrun & _).
  exists R, U. split; [exact Hrun|].
  destruct (decide (Z.of_nat (length U) < KAnonymity.k self)) as [Hlt|]; [|lia].
  destruct (find_k_anonymous_region_good self query_node query_user R U
              Hget Hrun) as (_ & _ & _ & _ & Hshort).
  destruct (Hshort Hlt) as [Hclosed Hall].
  destruct returned_region_has_seed as (_ & _ & Hseed).
  specialize (Hseed self query_user query_node R U Hget Hrun).
  assert (length L ≤ length U)%nat; [|lia].
  apply submseteq_length, NoDup_submseteq; [exact Hnd|].
  intros u Hu. destruct (Hreach u Hu) as (n & Hloc & Hpath).
  apply (Hall n); [|exact Hloc].
  exact (closed_contains_reachable _ R query_node n Hclosed Hseed Hpath).
Qed.

Lemma search_succeeds_when_enough_users_are_reachable_witness :
  ∃ R U, KAnonymity.find_k_anonymous_region
           {| KAnonymity.city := city2; KAnonymity.k := 3 |} 2 = Ret (R, U) ∧
         3 ≤ Z.of_nat (length U).
Proof.
  apply (search_succeeds_when_enough_users_are_reachable
           {| KAnonymity.city := city2; KAnonymity.k := 3 |} 2 3 [0; 1; 2]).
  - apply city2_wf.
  - reflexivity.
  - by_evaluation.
  - by_evaluation.
  - intros u Hu.
    assert (∀ n, n ∈ g_nodes (city_grid 2) → rtc (edge (city_grid 2)) 3 n)
      as Hall by (intros n Hn; apply city2_connected; [by_evaluation|done]).
    repeat (apply elem_of_cons in Hu as [->|Hu]).
    + exists 0. split; [unfold located; by_evaluation|apply Hall; by_evaluation].
    + exists 0. split; [unfold located; by_evaluation|apply Hall; by_evaluation].
    + exists 3. split; [unfold located; by_evaluation|apply Hall; by_evaluation].
    + inversion Hu.
  - simpl. lia.
Defined.

(** ** Density against depth *)

Lemma within_is_node (g : Graph) (n : Z) (d : nat) (w : Z) :
  wf_graph g → n ∈ g_nodes g → within g n d w → w ∈ g_nodes g.
Proof.
  intros Hwf Hn (j & _ & Hh). induction Hh as [|j u w _ _ He]; [done|].
  by apply (wf_closed g Hwf u w).
Qed.

(** X8: With non-negative counts the density is at least the seed's own count,
    never decreases when the depth grows, and never exceeds the total
    population. *)
Theorem compute_density_grows_with_depth (G : Graph)
    (user_locations : gmap Z Z) (node : Z) (D D' : nat) :
  wf_graph G → populated user_locations G →
  (∀ n, n ∈ g_nodes G → 0 ≤ pop_at user_locations n) →
  node ∈ g_nodes G → (D ≤ D')%nat →
  ∃ a b,
    ADKA.compute_density G user_locations node (Z.of_nat D) = Ret a ∧
    ADKA.compute_density G user_locations node (Z.of_nat D') = Ret b ∧
    pop_at user_locations node ≤ a ∧ a ≤ b ∧
    b ≤ total_population user_locations G.
Proof.
  intros Hwf Hpop Hnonneg Hnode HD.
  destruct (compute_density_spec G user_locations Hwf Hpop node D Hnode)
    as (V & Hrun & HV).
  destruct (compute_density_spec G user_locations Hwf Hpop node D' Hnode)
    as (V' & Hrun' & HV').
  exists (aggregate user_locations V), (aggregate user_locations V').
  assert (V' ⊆ node_set G) as Hsub.
  { intros w Hw. apply node_set_elem, (within_is_node G node D'); try done.
    by apply HV'. }
  assert (∀ v, v ∈ node_set G → 0 ≤ pop_at user_locations v) as Hnn
    by (intros v Hv; by apply Hnonneg, node_set_elem).
  split_and!; [exact Hrun|exact Hrun'| | |].
  - rewrite <- aggregate_singleton. apply aggregate_mono.
    + intros w Hw. apply elem_of_singleton in Hw as ->.
      apply HV. apply within_mono with O; [lia|]. by apply within_O.
    + intros v Hv. apply Hnn, Hsub. apply HV'.
      apply within_mono with D; [done|]. by apply HV.
  - apply aggregate_mono.
    + intros w Hw. apply HV'. apply within_mono with D; [done|]. by apply HV.
    + intros v Hv. by apply Hnn, Hsub.
  - by apply aggregate_mono.
Qed.

Lemma check_nonneg (user_locations : gmap Z Z) (g : Graph) :
  forallb (λ n, bool_decide (0 ≤ pop_at user_locations n)) (g_nodes g) = true →
  ∀ n, n ∈ g_nodes g → 0 ≤ pop_at user_locations n.
Proof.
  intros Hc n Hn. rewrite forallb_forall in Hc.
  specialize (Hc n (proj1 (list_elem_of_In _ _) Hn)).
  by apply bool_decide_eq_true in Hc.
Qed.

Lemma compute_density_grows_with_depth_witness :
  ∃ a b,
    ADKA.compute_density grid2 pop2 1 1 = Ret a ∧
    ADKA.compute_density grid2 pop2 1 2 = Ret b ∧
    pop_at pop2 1 ≤ a ∧ a ≤ b ∧ b ≤ total_population pop2 grid2.
Proof.
  apply (compute_density_grows_with_depth grid2 pop2 1 1 2).
  - apply grid2_wf.
  - apply pop2_populated.
  - apply check_nonneg. vm_compute. reflexivity.
  - by_evaluation.
  - lia.
Defined.

(** ** The density policy *)

(** X9: A denser neighbourhood never gets a larger [k]; [k] is always between 2
    and 10; the two copies of the policy agree, and "Sparse", "Medium" and
    "Dense" are exactly the densities that get 10, 5 and 2. *)
Theorem select_k_is_antitone (density density' : Z) :
  density ≤ density' →
  ADKA.select_k density' ≤ ADKA.select_k density ∧
  2 ≤ ADKA.select_k density ≤ 10 ∧
  DensityAware.select_adaptive_k density = ADKA.select_k density ∧
  (DensityAware.classify_density_level density = "Sparse"
   ↔ ADKA.select_k density = 10) ∧
  (DensityAware.classify_density_level density = "Medium"
   ↔ ADKA.select_k density = 5) ∧
  (DensityAware.classify_density_level density = "Dense"
   ↔ ADKA.select_k density = 2).
Proof.
  intros Hle.
  unfold ADKA.select_k, DensityAware.select_adaptive_k,
    DensityAware.classify_density_level.
  repeat case_decide; split_and!; try lia; try reflexivity;
    split; intros H'; first [reflexivity | discriminate H' | lia].
Qed.

Lemma select_k_is_antitone_witness :
  ADKA.select_k 9 ≤ ADKA.select_k 3 ∧
  2 ≤ ADKA.select_k 3 ≤ 10 ∧
  DensityAware.select_adaptive_k 3 = ADKA.select_k 3 ∧
  (DensityAware.classify_density_level 3 = "Sparse" ↔ ADKA.select_k 3 = 10) ∧
  (DensityAware.classify_density_level 3 = "Medium" ↔ ADKA.select_k 3 = 5) ∧
  (DensityAware.classify_density_level 3 = "Dense" ↔ ADKA.select_k 3 = 2).
Proof. apply (select_k_is_antitone 3 9). lia. Defined.

(** ** Drawing the population *)

Lemma choice_spec {A : Type} (r : Rng) (seq : list A) :
  seq ≠ [] → ∃ x, choice r seq = Ret (x, rng_next r) ∧ x ∈ seq.
Proof.
  intros Hne. unfold choice.
  assert (rng_index r (rng_calls r) `mod` length seq < length seq)%nat as Hlt.
  { apply Nat.mod_upper_bound. destruct seq; [done|simpl; lia]. }
  apply lookup_lt_is_Some_2 in Hlt as [x Hx].
  exists x. rewrite Hx. split; [done|]. by eapply list_elem_of_lookup_2.
Qed.

Lemma choice_empty {A : Type} (r : Rng) :
  choice r ([] : list A) = Raise IndexError.
Proof. reflexivity. Qed.

Lemma aggregate_ext (m m' : gmap Z Z) (S : gset Z) :
  (∀ x, x ∈ S → pop_at m x = pop_at m' x) → aggregate m S = aggregate m' S.
Proof.
  intros Hext. unfold aggregate. f_equal.
  apply list_fmap_ext. intros i x Hx. apply Hext, elem_of_elements.
  by eapply list_elem_of_lookup_2.
Qed.

Lemma aggregate_bump (m : gmap Z Z) (S : gset Z) (n v d : Z) :
  n ∈ S → m !! n = Some v →
  aggregate (<[n := v + d]> m) S = aggregate m S + d.
Proof.
  intros Hn Hv.
  assert (S = {[n]} ∪ S ∖ {[n]}) as HS.
  { apply union_difference_L. by apply singleton_subseteq_l. }
  rewrite HS at 1. rewrite (aggregate_disj_union (<[n:=v + d]> m))
    by set_solver.
  rewrite aggregate_singleton.
  rewrite (aggregate_ext (<[n:=v + d]> m) m (S ∖ {[n]})).
  - assert (aggregate m S = aggregate m {[n]} + aggregate m (S ∖ {[n]})) as ->.
    { rewrite <- aggregate_disj_union by set_solver. by rewrite <- HS. }
    rewrite aggregate_singleton. unfold pop_at.
    rewrite lookup_insert_eq, Hv. simpl. lia.
  - intros x Hx. unfold pop_at. rewrite lookup_insert_ne; [done|].
    set_solver.
Qed.

Lemma zero_table_lookup (l : list Z) (n : Z) :
  (list_to_map ((λ node, (node, 0)) <$> l) : gmap Z Z) !! n
  = if decide (n ∈ l) then Some 0 else None.
Proof.
  induction l as [|x l IH].
  - rewrite fmap_nil, list_to_map_nil, lookup_empty.
    destruct (decide (n ∈ [])) as [Hin|_]; [inversion Hin|done].
  - rewrite fmap_cons, list_to_map_cons.
    destruct (decide (x = n)) as [->|Hne].
    + rewrite lookup_insert_eq.
      destruct (decide (n ∈ n :: l)) as [_|Hnin]; [done|].
      exfalso. apply Hnin. left.
    + rewrite lookup_insert_ne by done. rewrite IH.
      destruct (decide (n ∈ l)) as [Hin|Hnin];
        destruct (decide (n ∈ x :: l)) as [Hin'|Hnin']; try done.
      * exfalso. apply Hnin'. by right.
      * apply elem_of_cons in Hin' as [->|Hin']; done.
Qed.

Lemma aggregate_zero (m : gmap Z Z) (S : gset Z) :
  (∀ x, x ∈ S → pop_at m x = 0) → aggregate m S = 0.
Proof.
  intros Hz. unfold aggregate.
  assert (∀ x, x ∈ elements S → pop_at m x = 0) as Hl
    by (intros x Hx; by apply Hz, elem_of_elements).
  induction (elements S) as [|x l IH]; [done|].
  rewrite fmap_cons. cbn [foldr].
  rewrite (Hl x) by left. rewrite IH; [done|].
  intros y Hy. apply Hl. by right.
Qed.

Lemma populate_loop_spec (nodes : list Z) (count : nat) :
  ∀ table r,
    nodes ≠ [] →
    (∀ n, n ∈ nodes → is_Some (table !! n)) →
    (∀ n, 0 ≤ pop_at table n) →
    ∃ table' r',
      Experiment.populate_loop nodes count table r = Ret (table', r') ∧
      (∀ n, n ∈ nodes → is_Some (table' !! n)) ∧
      (∀ n, 0 ≤ pop_at table' n) ∧
      aggregate table' (list_to_set nodes)
      = aggregate table (list_to_set nodes) + Z.of_nat count ∧
      rng_calls r' = (rng_calls r + count)%nat.
Proof.
  induction count as [|count IH]; intros table r Hne Hkeys Hpos.
  - exists table, r. simpl. split_and!; try done; lia.
  - simpl. destruct (choice_spec r nodes Hne) as (n & Hch & Hn).
    rewrite Hch. cbn [mbind res_bind].
    destruct (Hkeys n Hn) as [v Hv]. unfold getitem. rewrite Hv.
    cbn [mbind res_bind].
    destruct (IH (<[n:=v + 1]> table) (rng_next r) Hne)
      as (table' & r' & Hrun & Hkeys' & Hpos' & Hsum & Hcalls).
    + intros x Hx. destruct (decide (n = x)) as [->|Hnx].
      * rewrite lookup_insert_eq. by eexists.
      * rewrite lookup_insert_ne by done. by apply Hkeys.
    + intros x. unfold pop_at. destruct (decide (n = x)) as [->|Hnx].
      * rewrite lookup_insert_eq. simpl.
        specialize (Hpos x). unfold pop_at in Hpos. rewrite Hv in Hpos.
        simpl in Hpos. lia.
      * rewrite lookup_insert_ne by done. apply Hpos.
    + exists table', r'. split_and!; try done.
      * rewrite Hsum, (aggregate_bump table _ n v 1);
          [lia|by apply elem_of_list_to_set|done].
      * rewrite Hcalls. simpl. lia.
Qed.

Lemma populate_returns (G : Graph) (num_users : Z) (r : Rng) :
  g_nodes G ≠ [] →
  ∃ table r',
    Experiment.populate G num_users r = Ret (table, r') ∧
    populated table G ∧
    (∀ n, 0 ≤ pop_at table n) ∧
    total_population table G = Z.max 0 num_users ∧
    rng_calls r' = (rng_calls r + Z.to_nat num_users)%nat.
Proof.
  intros Hne. unfold Experiment.populate.
  set (zero := list_to_map ((λ node, (node, 0)) <$> g_nodes G) : gmap Z Z).
  assert (∀ n, pop_at zero n = 0) as Hzero.
  { intros n. unfold pop_at, zero. rewrite zero_table_lookup.
    by destruct (decide (n ∈ g_nodes G)). }
  destruct (populate_loop_spec (g_nodes G) (Z.to_nat num_users) zero r Hne)
    as (table & r' & Hrun & Hkeys & Hpos & Hsum & Hcalls).
  - intros n Hn. unfold zero. rewrite zero_table_lookup.
    rewrite decide_True by done. by eexists.
  - intros n. rewrite Hzero. lia.
  - exists table, r'. split_and!; try done.
    unfold total_population, node_set. rewrite Hsum.
    rewrite (aggregate_zero zero) by (intros; apply Hzero). lia.
Qed.

(** X10: Drawing [num_users] users onto a graph that has a node cannot fail: it
    consumes one draw per user and leaves a table with an entry for every
    node, no negative count and a total of [num_users]; on a graph without
    nodes the first draw raises. *)
Theorem populate_places_every_user (G : Graph) (num_users : Z) (r : Rng) :
  (g_nodes G ≠ [] →
   ∃ table r',
     Experiment.populate G num_users r = Ret (table, r') ∧
     populated table G ∧
     (∀ n, 0 ≤ pop_at table n) ∧
     total_population table G = Z.max 0 num_users ∧
     rng_calls r' = (rng_calls r + Z.to_nat num_users)%nat) ∧
  (g_nodes G = [] → 0 < num_users →
   Experiment.populate G num_users r = Raise IndexError).
Proof.
  split.
  - apply populate_returns.
  - intros Hempty Hnum. unfold Experiment.populate. rewrite Hempty.
    destruct (Z.to_nat num_users) as [|c] eqn:Hc; [lia|]. reflexivity.
Qed.

Lemma populate_places_every_user_witness :
  (∃ table r',
     Experiment.populate grid2 30
       {| rng_index := λ i, i; rng_unit := λ _, Q2Qc 0; rng_calls := O |}
     = Ret (table, r') ∧
     populated table grid2 ∧
     (∀ n, 0 ≤ pop_at table n) ∧
     total_population table grid2 = Z.max 0 30 ∧
     rng_calls r' = (0 + Z.to_nat 30)%nat) ∧
  Experiment.populate (grid_2d_graph 0) 30
    {| rng_index := λ i, i; rng_unit := λ _, Q2Qc 0; rng_calls := O |}
  = Raise IndexError.
Proof.
  split.
  - apply (populate_places_every_user grid2 30
             {| rng_index := λ i, i; rng_unit := λ _, Q2Qc 0;
                rng_calls := O |}).
    discriminate.
  - apply (populate_places_every_user (grid_2d_graph 0) 30
             {| rng_index := λ i, i; rng_unit := λ _, Q2Qc 0;
                rng_calls := O |}).
    + reflexivity.
    + lia.
Defined.

(** ** The experiment loops *)

Section Experiments.
Variable G : Graph.
Variable user_locations : gmap Z Z.
Hypothesis Hwf : wf_graph G.
Hypothesis Hconn : connected G.
Hypothesis Hpop : populated user_locations G.
Hypothesis Htotal : 10 ≤ total_population user_locations G.

Lemma experiment_graph_has_node : g_nodes G ≠ [].
Proof.
  intros Hempty. unfold total_population, node_set in Htotal.
  rewrite Hempty in Htotal. simpl in Htotal.
  rewrite aggregate_empty in Htotal. lia.
Qed.

Lemma region_size_bounds (R : gset Z) (x : Z) :
  x ∈ R → R ⊆ node_set G → (1 ≤ size R ≤ length (g_nodes G))%nat.
Proof.
  intros Hx Hsub. split.
  - assert ({[x]} ⊆ R) as Hs by (by apply singleton_subseteq_l).
    apply subseteq_size in Hs. by rewrite size_singleton in Hs.
  - apply subseteq_size in Hsub. unfold node_set in Hsub.
    by rewrite size_list_to_set in Hsub by apply (wf_nodup G Hwf).
Qed.

Lemma select_k_at_most_10 (d : Z) : ADKA.select_k d ≤ 10.
Proof. unfold ADKA.select_k. repeat case_decide; lia. Qed.

Lemma adka_pass (target : Z) :
  target ∈ g_nodes G →
  ∃ d R,
    ADKA.compute_density G user_locations target 1 = Ret d ∧
    ADKA.expand_region G user_locations target (ADKA.select_k d) = Ret R ∧
    ADKA.select_k d ≤ aggregate user_locations R ∧
    (1 ≤ size R ≤ length (g_nodes G))%nat.
Proof.
  intros Htarget.
  destruct (compute_density_spec G user_locations Hwf Hpop target 1 Htarget)
    as (V & Hd & _).
  exists (aggregate user_locations V).
  set (k := ADKA.select_k (aggregate user_locations V)).
  destruct (adka_expand_region_outcomes G user_locations target k
              Hwf Hpop Htarget)
    as [(R & Hrun & HR & Hsub & Hk)|(_ & R & HR & Hsub & Hlt & Hclosed)].
  - exists R. split_and!; try done;
      by apply (region_size_bounds R target).
  - exfalso.
    rewrite (closed_region_is_everything G R target) in Hlt by assumption.
    pose proof (select_k_at_most_10 (aggregate user_locations V)).
    unfold total_population in Htotal. fold k in H. lia.
Qed.

Lemma class_pass (target : Z) :
  target ∈ g_nodes G →
  ∃ d R,
    DensityAware.compute_local_density
      {| DensityAware.graph := G; DensityAware.user_at_node := user_locations |}
      target 1 = Ret d ∧
    DensityAware.expand_anonymization_region
      {| DensityAware.graph := G; DensityAware.user_at_node := user_locations |}
      target (DensityAware.select_adaptive_k d) = Ret R ∧
    DensityAware.select_adaptive_k d ≤ aggregate user_locations R ∧
    (1 ≤ size R ≤ length (g_nodes G))%nat.
Proof.
  intros Htarget.
  destruct (compute_density_spec G user_locations Hwf Hpop target 1 Htarget)
    as (V & Hd & _).
  exists (aggregate user_locations V).
  set (k := DensityAware.select_adaptive_k (aggregate user_locations V)).
  destruct (expand_anonymization_region_returns G user_locations target k
              Hwf Hpop Htarget)
    as (R & Hrun & HR & Hsub & [Hk|[Hlt Hclosed]]).
  - exists R. split_and!; try done;
      by apply (region_size_bounds R target).
  - exfalso.
    rewrite (closed_region_is_everything G R target) in Hlt by assumption.
    pose proof (select_k_at_most_10 (aggregate user_locations V)).
    unfold total_population in Htotal. unfold k in Hlt.
    unfold DensityAware.select_adaptive_k in Hlt.
    unfold ADKA.select_k in H. lia.
Qed.

Lemma adka_runs_spec (runs : nat) :
  ∀ ds ks szs r,
    ∃ ds' ks' szs' r',
      Experiment.adka_runs G user_locations runs (ds, ks, szs) r
      = Ret (ds ++ ds', ks ++ ks', szs ++ szs', r') ∧
      length ds' = runs ∧ ks' = ADKA.select_k <$> ds' ∧ length szs' = runs ∧
      Forall (λ sz, 1 ≤ sz ≤ length (g_nodes G))%nat szs' ∧
      rng_calls r' = (rng_calls r + runs)%nat.
Proof.
  induction runs as [|runs IH]; intros ds ks szs r.
  - exists [], [], [], r. simpl. rewrite !app_nil_r.
    split_and!; try done; lia.
  - simpl. unfold Experiment.adka_run.
    destruct (choice_spec r (g_nodes G) experiment_graph_has_node)
      as (target & Hch & Htarget).
    rewrite Hch. cbn [mbind res_bind].
    destruct (adka_pass target Htarget) as (d & R & Hd & HR & _ & Hsz).
    rewrite Hd. cbn [mbind res_bind]. rewrite HR. cbn [mbind res_bind].
    destruct (IH (ds ++ [d]) (ks ++ [ADKA.select_k d]) (szs ++ [size R])
                 (rng_next r))
      as (ds' & ks' & szs' & r' & Hrun & Hl1 & Hks & Hl2 & Hall & Hcalls).
    exists (d :: ds'), (ADKA.select_k d :: ks'), (size R :: szs'), r'.
    rewrite Hrun, <- !app_assoc. simpl.
    split_and!; try done.
    + by rewrite Hl1.
    + by rewrite Hks.
    + by rewrite Hl2.
    + by constructor.
    + rewrite Hcalls. simpl. lia.
Qed.

Lemma class_runs_spec (runs : nat) :
  ∀ ds ks szs r,
    ∃ ds' ks' szs' r',
      Experiment.class_runs
        {| DensityAware.graph := G;
           DensityAware.user_at_node := user_locations |}
        runs (ds, ks, szs) r
      = Ret (ds ++ ds', ks ++ ks', szs ++ szs', r') ∧
      length ds' = runs ∧ ks' = DensityAware.select_adaptive_k <$> ds' ∧
      length szs' = runs ∧
      Forall (λ sz, 1 ≤ sz ≤ length (g_nodes G))%nat szs' ∧
      rng_calls r' = (rng_calls r + runs)%nat.
Proof.
  induction runs as [|runs IH]; intros ds ks szs r.
  - exists [], [], [], r. simpl. rewrite !app_nil_r.
    split_and!; try done; lia.
  - simpl. unfold Experiment.class_run.
    cbn [DensityAware.graph].
    destruct (choice_spec r (g_nodes G) experiment_graph_has_node)
      as (target & Hch & Htarget).
    rewrite Hch. cbn [mbind res_bind].
    destruct (class_pass target Htarget) as (d & R & Hd & HR & _ & Hsz).
    rewrite Hd. cbn [mbind res_bind]. rewrite HR. cbn [mbind res_bind].
    destruct (IH (ds ++ [d]) (ks ++ [DensityAware.select_adaptive_k d])
                 (szs ++ [size R]) (rng_next r))
      as (ds' & ks' & szs' & r' & Hrun & Hl1 & Hks & Hl2 & Hall & Hcalls).
    exists (d :: ds'), (DensityAware.select_adaptive_k d :: ks'),
      (size R :: szs'), r'.
    rewrite Hrun, <- !app_assoc. simpl.
    split_and!; try done.
    + by rewrite Hl1.
    + by rewrite Hks.
    + by rewrite Hl2.
    + by constructor.
    + rewrite Hcalls. simpl. lia.
Qed.
End Experiments.

(** X11: On a connected graph that holds at least 10 users, one pass of either
    experiment cannot fail: the density is computed, and the expansion for
    the [k] selected from it returns a region that holds at least [k]
    users. *)
Theorem experiment_pass_meets_selected_k (G : Graph)
    (user_locations : gmap Z Z) (target : Z) :
  wf_graph G → connected G → populated user_locations G →
  10 ≤ total_population user_locations G →
  target ∈ g_nodes G →
  (∃ d R,
     ADKA.compute_density G user_locations target 1 = Ret d ∧
     ADKA.expand_region G user_locations target (ADKA.select_k d) = Ret R ∧
     ADKA.select_k d ≤ aggregate user_locations R) ∧
  (∃ d R,
     DensityAware.compute_local_density
       {| DensityAware.graph := G;
          DensityAware.user_at_node := user_locations |} target 1 = Ret d ∧
     DensityAware.expand_anonymization_region
       {| DensityAware.graph := G;
          DensityAware.user_at_node := user_locations |}
       target (DensityAware.select_adaptive_k d) = Ret R ∧
     DensityAware.select_adaptive_k d ≤ aggregate user_locations R).
Proof.
  intros Hwf Hconn Hpop Htotal Htarget. split.
  - destruct (adka_pass G user_locations Hwf Hconn Hpop Htotal target Htarget)
      as (d & R & Hd & HR & Hk & _).
    by exists d, R.
  - destruct (class_pass G user_locations Hwf Hconn Hpop Htotal target Htarget)
      as (d & R & Hd & HR & Hk & _).
    by exists d, R.
Qed.

Lemma grid5_wf : wf_graph grid5.
Proof. apply check_wf_sound. vm_compute. reflexivity. Qed.

Lemma grid5_connected : connected grid5.
Proof.
  apply check_connected_sound; [apply grid5_wf|]. vm_compute. reflexivity.
Qed.

Lemma experiment_pass_meets_selected_k_witness :
  (∃ d R,
     ADKA.compute_density grid5 pop5 7 1 = Ret d ∧
     ADKA.expand_region grid5 pop5 7 (ADKA.select_k d) = Ret R ∧
     ADKA.select_k d ≤ aggregate pop5 R) ∧
  (∃ d R,
     DensityAware.compute_local_density
       {| DensityAware.graph := grid5; DensityAware.user_at_node := pop5 |}
       7 1 = Ret d ∧
     DensityAware.expand_anonymization_region
       {| DensityAware.graph := grid5; DensityAware.user_at_node := pop5 |}
       7 (DensityAware.select_adaptive_k d) = Ret R ∧
     DensityAware.select_adaptive_k d ≤ aggregate pop5 R).
Proof.
  apply (experiment_pass_meets_selected_k grid5 pop5 7).
  - apply grid5_wf.
  - apply grid5_connected.
  - apply check_populated. vm_compute. reflexivity.
  - by_evaluation.
  - by_evaluation.
Defined.

(** X12: Populating a connected graph with at least 10 users and then running
    adka.py's loop cannot fail, whatever the generator yields: it returns
    [runs] densities, the [k] selected for each, and [runs] region sizes
    between 1 and the number of nodes.  In particular the unguarded
    [queue.pop(0)] is never reached. *)
Theorem adka_experiment_never_fails (G : Graph) (num_users : Z)
    (runs : nat) (r : Rng) :
  wf_graph G → connected G → g_nodes G ≠ [] → 10 ≤ num_users →
  ∃ table r1 ds ks szs r2,
    Experiment.populate G num_users r = Ret (table, r1) ∧
    Experiment.adka_runs G table runs ([], [], []) r1
    = Ret (ds, ks, szs, r2) ∧
    length ds = runs ∧ ks = ADKA.select_k <$> ds ∧ length szs = runs ∧
    Forall (λ sz, 1 ≤ sz ≤ length (g_nodes G))%nat szs.
Proof.
  intros Hwf Hconn Hne Hnum.
  destruct (populate_returns G num_users r Hne)
    as (table & r1 & Hrun & Hpop & _ & Htotal & _).
  assert (10 ≤ total_population table G) as Hten by lia.
  destruct (adka_runs_spec G table Hwf Hconn Hpop Hten runs [] [] [] r1)
    as (ds & ks & szs & r2 & Hruns & Hl1 & Hks & Hl2 & Hall & _).
  exists table, r1, ds, ks, szs, r2. by split_and!.
Qed.

Lemma adka_experiment_never_fails_witness :
  ∃ table r1 ds ks szs r2,
    Experiment.populate grid5 30
      {| rng_index := λ i, (7 * i)%nat; rng_unit := λ _, Q2Qc 0;
         rng_calls := O |} = Ret (table, r1) ∧
    Experiment.adka_runs grid5 table 20 ([], [], []) r1
    = Ret (ds, ks, szs, r2) ∧
    length ds = 20%nat ∧ ks = ADKA.select_k <$> ds ∧ length szs = 20%nat ∧
    Forall (λ sz, 1 ≤ sz ≤ length (g_nodes grid5))%nat szs.
Proof.
  apply (adka_experiment_never_fails grid5 30 20).
  - apply grid5_wf.
  - apply grid5_connected.
  - discriminate.
  - lia.
Defined.




(** ** The region-size metric *)

Lemma foldl_max_bounds (rest : list Z) :
  ∀ x, x ≤ foldl Z.max x rest ∧
       (∀ y, y ∈ rest → y ≤ foldl Z.max x rest) ∧
       (foldl Z.max x rest = x ∨ foldl Z.max x rest ∈ rest).
Proof.
  induction rest as [|z rest IH]; intros x; simpl.
  - split_and!; [lia| |by left]. intros y Hy. inversion Hy.
  - destruct (IH (Z.max x z)) as (H1 & H2 & H3). split_and!.
    + lia.
    + intros y Hy. apply elem_of_cons in Hy as [->|Hy]; [lia|by apply H2].
    + destruct H3 as [H3|H3].
      * rewrite H3. destruct (Z.max_spec x z) as [[_ ->]|[_ ->]];
          [right; left|by left].
      * right. by right.
Qed.

Lemma foldl_min_bounds (rest : list Z) :
  ∀ x, foldl Z.min x rest ≤ x ∧
       (∀ y, y ∈ rest → foldl Z.min x rest ≤ y) ∧
       (foldl Z.min x rest = x ∨ foldl Z.min x rest ∈ rest).
Proof.
  induction rest as [|z rest IH]; intros x; simpl.
  - split_and!; [lia| |by left]. intros y Hy. inversion Hy.
  - destruct (IH (Z.min x z)) as (H1 & H2 & H3). split_and!.
    + lia.
    + intros y Hy. apply elem_of_cons in Hy as [->|Hy]; [lia|by apply H2].
    + destruct H3 as [H3|H3].
      * rewrite H3. destruct (Z.min_spec x z) as [[_ ->]|[_ ->]];
          [by left|right; left].
      * right. by right.
Qed.

Lemma py_max_spec (xs : list Z) :
  xs ≠ [] →
  ∃ m, PrivacyAnalyzer.py_max xs = Ret m ∧ m ∈ xs ∧ ∀ y, y ∈ xs → y ≤ m.
Proof.
  destruct xs as [|x rest]; [done|]. intros _.
  destruct (foldl_max_bounds rest x) as (H1 & H2 & H3).
  eexists. split; [reflexivity|]. split.
  - destruct H3 as [->|H3]; [left|by right].
  - intros y Hy. apply elem_of_cons in Hy as [->|Hy]; [done|by apply H2].
Qed.

Lemma py_min_spec (xs : list Z) :
  xs ≠ [] →
  ∃ m, PrivacyAnalyzer.py_min xs = Ret m ∧ m ∈ xs ∧ ∀ y, y ∈ xs → m ≤ y.
Proof.
  destruct xs as [|x rest]; [done|]. intros _.
  destruct (foldl_min_bounds rest x) as (H1 & H2 & H3).
  eexists. split; [reflexivity|]. split.
  - destruct H3 as [->|H3]; [left|by right].
  - intros y Hy. apply elem_of_cons in Hy as [->|Hy]; [done|by apply H2].
Qed.

Lemma getitem_Some {V : Type} (m : gmap Z V) (x : Z) (v : V) :
  m !! x = Some v → getitem m x = Ret v.
Proof. intros H. unfold getitem. by rewrite H. Qed.

Lemma getitem_None {V : Type} (m : gmap Z V) (x : Z) :
  m !! x = None → getitem m x = Raise KeyError.
Proof. intros H. unfold getitem. by rewrite H. Qed.

Lemma mapM_getitem_lookup {V : Type} (m : gmap Z V) (l : list Z) :
  ∀ vs, mapM (getitem m) l = Ret vs → Some <$> vs = (m !!.) <$> l.
Proof.
  induction l as [|x l IH]; intros vs Hrun.
  - by injection Hrun as <-.
  - change (mapM (getitem m) (x :: l))
      with (y ← getitem m x; k ← mapM (getitem m) l; mret (y :: k)) in Hrun.
    destruct (m !! x) as [v|] eqn:Hv.
    + rewrite (getitem_Some m x v Hv) in Hrun.
      destruct (mapM (getitem m) l) as [vs'| |] eqn:Hrest;
        try discriminate Hrun.
      injection Hrun as <-.
      rewrite !fmap_cons, Hv. f_equal. by apply IH.
    + rewrite (getitem_None m x Hv) in Hrun. discriminate Hrun.
Qed.

Lemma mapM_getitem_missing {V : Type} (m : gmap Z V) (l : list Z) (x : Z) :
  x ∈ l → m !! x = None → mapM (getitem m) l = Raise KeyError.
Proof.
  induction l as [|y l IH]; intros Hx Hnone; [inversion Hx|].
  change (mapM (getitem m) (y :: l))
    with (v ← getitem m y; k ← mapM (getitem m) l; mret (v :: k)).
  destruct (m !! y) as [v|] eqn:Hv.
  - rewrite (getitem_Some m y v Hv).
    apply elem_of_cons in Hx as [->|Hx]; [congruence|].
    by rewrite (IH Hx Hnone).
  - by rewrite (getitem_None m y Hv).
Qed.

(** What the metric computes on a region of two or more positioned nodes:
    the area of the smallest box around the positions. *)
Lemma region_size_value (R : gset Z) (c : KAnonymity.SmartCityGraph) :
  (2 ≤ size R)%nat →
  (∀ n, n ∈ R → is_Some (g_pos (KAnonymity.graph c) !! n)) →
  ∃ ps x0 x1 y0 y1,
    Some <$> ps = (g_pos (KAnonymity.graph c) !!.) <$> elements R ∧
    PrivacyAnalyzer.calculate_region_size R c
    = Ret ((x1 - x0 + 1) * (y1 - y0 + 1)) ∧
    x0 ∈ ps.*1 ∧ x1 ∈ ps.*1 ∧ y0 ∈ ps.*2 ∧ y1 ∈ ps.*2 ∧
    ∀ p, p ∈ ps → x0 ≤ p.1 ≤ x1 ∧ y0 ≤ p.2 ≤ y1.
Proof.
  intros Hsize Hpos. unfold PrivacyAnalyzer.calculate_region_size.
  destruct (decide (size R ≤ 1)%nat) as [Hsmall|_]; [lia|].
  destruct (mapM_getitem_ok (g_pos (KAnonymity.graph c)) (elements R))
    as (ps & Hps & Hlen).
  { intros n Hn. by apply Hpos, elem_of_elements. }
  rewrite Hps. cbn [mbind res_bind].
  assert (ps ≠ []) as Hne.
  { intros ->. simpl in Hlen. unfold size, set_size in Hsize. simpl in Hsize.
    rewrite <- Hlen in Hsize. lia. }
  assert (ps.*1 ≠ [] ∧ ps.*2 ≠ []) as [Hne1 Hne2]
    by (destruct ps; [done|split; discriminate]).
  destruct (py_max_spec _ Hne1) as (x1 & -> & Hx1 & Hx1b).
  destruct (py_min_spec _ Hne1) as (x0 & -> & Hx0 & Hx0b).
  destruct (py_max_spec _ Hne2) as (y1 & -> & Hy1 & Hy1b).
  destruct (py_min_spec _ Hne2) as (y0 & -> & Hy0 & Hy0b).
  exists ps, x0, x1, y0, y1. split_and!; try done.
  - by apply mapM_getitem_lookup.
  - intros p Hp.
    assert (p.1 ∈ ps.*1) as H1 by (by apply list_elem_of_fmap_2).
    assert (p.2 ∈ ps.*2) as H2 by (by apply list_elem_of_fmap_2).
    split; split; auto.
Qed.

Lemma positions_of_region {V : Type} (m : gmap Z V) (l : list Z)
    (ps : list V) (p : V) :
  Some <$> ps = (m !!.) <$> l →
  p ∈ ps ↔ ∃ n, n ∈ l ∧ m !! n = Some p.
Proof.
  intros Heq. split.
  - intros Hp. assert (Some p ∈ Some <$> ps) as Hs
      by (by apply list_elem_of_fmap_2).
    rewrite Heq in Hs. apply list_elem_of_fmap in Hs as (n & Hn & Hin).
    by exists n.
  - intros (n & Hn & Hl).
    assert (Some p ∈ (m !!.) <$> l) as Hs.
    { apply list_elem_of_fmap. by exists n. }
    rewrite <- Heq in Hs. apply list_elem_of_fmap in Hs as (p' & Hp' & Hin).
    by injection Hp' as ->.
Qed.

(** X14: A region of at most one node has size 0, whether or not the node is in
    the graph; a larger region with a node that has no position raises
    [KeyError]. *)
Theorem region_size_edge_cases (R : gset Z)
    (c : KAnonymity.SmartCityGraph) (n : Z) :
  ((size R ≤ 1)%nat → PrivacyAnalyzer.calculate_region_size R c = Ret 0) ∧
  ((2 ≤ size R)%nat → n ∈ R → g_pos (KAnonymity.graph c) !! n = None →
   PrivacyAnalyzer.calculate_region_size R c = Raise KeyError).
Proof.
  unfold PrivacyAnalyzer.calculate_region_size. split.
  - intros Hsmall. by rewrite decide_True.
  - intros Hbig Hn Hnone. rewrite decide_False by lia.
    rewrite (mapM_getitem_missing _ _ n); [done| |done].
    by apply elem_of_elements.
Qed.

Lemma region_size_edge_cases_witness :
  PrivacyAnalyzer.calculate_region_size {[99]} city2 = Ret 0 ∧
  PrivacyAnalyzer.calculate_region_size {[0; 99]} city2 = Raise KeyError.
Proof.
  split.
  - apply (region_size_edge_cases {[99]} city2 99). by_evaluation.
  - apply (region_size_edge_cases {[0; 99]} city2 99).
    + by_evaluation.
    + by_evaluation.
    + reflexivity.
Defined.

(** X15: On a region of two or more nodes at distinct positions the metric is
    at least the number of nodes: the box around the region has room for
    all of them. *)
Theorem region_size_counts_nodes (R : gset Z)
    (c : KAnonymity.SmartCityGraph) :
  (2 ≤ size R)%nat →
  (∀ n, n ∈ R → is_Some (g_pos (KAnonymity.graph c) !! n)) →
  distinct_positions (KAnonymity.graph c) R →
  ∃ a, PrivacyAnalyzer.calculate_region_size R c = Ret a ∧
       Z.of_nat (size R) ≤ a.
Proof.
  intros Hsize Hpos Hdist.
  destruct (region_size_value R c Hsize Hpos)
    as (ps & x0 & x1 & y0 & y1 & Heq & Hrun & _ & _ & _ & _ & Hbox).
  eexists. split; [exact Hrun|].
  assert (length ps = size R) as Hlen.
  { unfold size, set_size. simpl.
    rewrite <- (length_fmap Some ps), Heq. by rewrite length_fmap. }
  assert (NoDup ps) as Hnd.
  { apply (NoDup_fmap_1 Some). rewrite Heq.
    apply NoDup_fmap_2_strong; [|apply NoDup_elements].
    intros u v Hu Hv Huv. apply Hdist; [|
      |done]; by apply elem_of_elements. }
  set (box := list_prod (seqZ x0 (x1 - x0 + 1)) (seqZ y0 (y1 - y0 + 1))).
  assert (∀ p, p ∈ ps → p ∈ box) as Hin.
  { intros [px py] Hp. destruct (Hbox _ Hp) as [Hx Hy]. simpl in Hx, Hy.
    apply list_elem_of_In, in_prod_iff.
    split; apply list_elem_of_In, elem_of_seqZ; lia. }
  assert (length ps ≤ length box)%nat as Hle
    by (by apply submseteq_length, NoDup_submseteq).
  unfold box in Hle. rewrite length_prod, !length_seqZ in Hle.
  destruct ps as [|p0 ps']; [simpl in Hlen; lia|].
  destruct (Hbox p0) as [Hx Hy]; [left|].
  rewrite <- Hlen. nia.
Qed.

Lemma region_size_counts_nodes_witness :
  ∃ a, PrivacyAnalyzer.calculate_region_size {[0; 1; 3]} city2 = Ret a ∧
       Z.of_nat (size ({[0; 1; 3]} : gset Z)) ≤ a.
Proof.
  apply (region_size_counts_nodes {[0; 1; 3]} city2).
  - by_evaluation.
  - intros n Hn. apply city_grid_2_positioned.
    apply (bool_decide_unpack _). revert n Hn.
    apply (set_Forall_elements (λ n, bool_decide (n ∈ g_nodes (city_grid 2)))).
    apply Forall_forall. intros n Hn. revert n Hn. apply Forall_forall.
    by_evaluation.
  - intros u v Hu Hv. revert v Hv. revert u Hu.
    apply (set_Forall_elements
             (λ u, ∀ v, v ∈ ({[0; 1; 3]} : gset Z) →
                        g_pos (city_grid 2) !! u = g_pos (city_grid 2) !! v →
                        u = v)).
    apply Forall_forall. intros u Hu v. revert v.
    apply (set_Forall_elements
             (λ v, g_pos (city_grid 2) !! u = g_pos (city_grid 2) !! v →
                   u = v)).
    revert u Hu. apply Forall_forall. by_evaluation.
Defined.

(** ** The centroid *)

Lemma Z2Qc_le (a b : Z) : a ≤ b → (Z2Qc a <= Z2Qc b)%Qc.
Proof.
  intros H. unfold Qcle, Z2Qc. simpl. rewrite !Qred_correct.
  by rewrite <- Zle_Qle.
Qed.

Lemma Z2Qc_pos (a : Z) : 0 < a → (Z2Qc 0 < Z2Qc a)%Qc.
Proof.
  intros H. unfold Qclt, Z2Qc. simpl. rewrite !Qred_correct.
  by rewrite <- Zlt_Qlt.
Qed.

Lemma Z2Qc_mul (a b : Z) : Z2Qc (a * b) = (Z2Qc a * Z2Qc b)%Qc.
Proof.
  apply Qc_is_canon. unfold Z2Qc. simpl. rewrite !Qred_correct.
  by rewrite inject_Z_mult.
Qed.

Lemma sum_within (xs : list Z) (lo hi : Z) :
  (∀ x, x ∈ xs → lo ≤ x ≤ hi) →
  lo * Z.of_nat (length xs) ≤ foldr Z.add 0 xs ≤ hi * Z.of_nat (length xs).
Proof.
  induction xs as [|x xs IH]; intros Hall; [simpl; lia|].
  destruct (Hall x) as [Hlo Hhi]; [left|].
  destruct IH as [IHlo IHhi]; [intros y Hy; apply Hall; by right|].
  simpl foldr. simpl length. lia.
Qed.

Lemma mean_of_bounds (xs : list Z) (lo hi : Z) (c : Qc) :
  KAnonymity.mean_of xs = Ret c →
  (∀ x, x ∈ xs → lo ≤ x ≤ hi) →
  (Z2Qc lo <= c)%Qc ∧ (c <= Z2Qc hi)%Qc.
Proof.
  unfold KAnonymity.mean_of. intros Hrun Hall.
  destruct (decide (length xs = O)) as [|Hne]; [discriminate|].
  injection Hrun as <-.
  destruct (sum_within xs lo hi Hall) as [Hlo Hhi].
  set (L := Z.of_nat (length xs)) in *.
  assert (Z2Qc 0 < Z2Qc L)%Qc as Hpos by (apply Z2Qc_pos; lia).
  assert (Z2Qc L ≠ Z2Qc 0) as HL.
  { intros Heq. rewrite Heq in Hpos. by apply Qclt_not_eq in Hpos. }
  assert ((Z2Qc (foldr Z.add 0%Z xs) / Z2Qc L) * Z2Qc L
          = Z2Qc (foldr Z.add 0%Z xs))%Qc as Hdiv.
  { rewrite Qcmult_comm. by apply Qcmult_div_r. }
  split; apply (Qcmult_lt_0_le_reg_r _ _ (Z2Qc L) Hpos);
    rewrite Hdiv, <- Z2Qc_mul; by apply Z2Qc_le.
Qed.

Lemma get_anonymized_location_inv
    (self : KAnonymity.KAnonymityPrivacyManager) (query_user : Z)
    (cx cy : Qc) (R : gset Z) (U : list Z) :
  KAnonymity.get_anonymized_location self query_user = Ret (cx, cy, R, U) →
  ∃ ps,
    mapM (getitem (g_pos (KAnonymity.graph (KAnonymity.city self))))
         (elements R) = Ret ps ∧
    KAnonymity.mean_of (ps.*1) = Ret cx ∧
    KAnonymity.mean_of (ps.*2) = Ret cy.
Proof.
  unfold KAnonymity.get_anonymized_location. intros Hrun.
  destruct (KAnonymity.find_k_anonymous_region self query_user)
    as [[R0 U0]| |]; [|discriminate..].
  unfold mbind, res_bind in Hrun.
  match type of Hrun with
  | context [elements ?r] => set (R1 := r) in *
  end.
  destruct (mapM _ (elements R1)) as [ps| |] eqn:Hps; [|discriminate..].
  destruct (KAnonymity.mean_of (ps.*1)) as [c1| |] eqn:H1; [|discriminate..].
  destruct (KAnonymity.mean_of (ps.*2)) as [c2| |] eqn:H2; [|discriminate..].
  injection Hrun as <- <- <- <-. by exists ps.
Qed.

(** X16: When the anonymised location is returned, the region it comes with --
    the found one or the fallback -- is not empty, each of its nodes has a
    position, and the centroid lies in every box that contains those
    positions. *)
Theorem centroid_lies_in_region_box
    (self : KAnonymity.KAnonymityPrivacyManager) (query_user : Z)
    (cx cy : Qc) (R : gset Z) (U : list Z) (x0 x1 y0 y1 : Z) :
  KAnonymity.get_anonymized_location self query_user = Ret (cx, cy, R, U) →
  (∀ n x y, n ∈ R →
     g_pos (KAnonymity.graph (KAnonymity.city self)) !! n = Some (x, y) →
     x0 ≤ x ≤ x1 ∧ y0 ≤ y ≤ y1) →
  R ≠ ∅ ∧
  (∀ n, n ∈ R →
     is_Some (g_pos (KAnonymity.graph (KAnonymity.city self)) !! n)) ∧
  (Z2Qc x0 <= cx)%Qc ∧ (cx <= Z2Qc x1)%Qc ∧
  (Z2Qc y0 <= cy)%Qc ∧ (cy <= Z2Qc y1)%Qc.
Proof.
  intros Hrun Hbox.
  destruct (get_anonymized_location_inv _ _ _ _ _ _ Hrun)
    as (ps & Hps & Hx & Hy).
  pose proof (mapM_getitem_lookup _ _ _ Hps) as Heq.
  assert (∀ p, p ∈ ps → x0 ≤ p.1 ≤ x1 ∧ y0 ≤ p.2 ≤ y1) as Hin.
  { intros [x y] Hp.
    apply (positions_of_region _ _ _ _ Heq) in Hp as (n & Hn & Hl).
    apply elem_of_elements in Hn. exact (Hbox n x y Hn Hl). }
  split_and!.
  - intros ->. rewrite elements_empty in Hps. injection Hps as <-.
    discriminate Hx.
  - intros n Hn. destruct (g_pos _ !! n) as [p|] eqn:Hl; [by eexists|].
    rewrite (mapM_getitem_missing _ _ n) in Hps; [discriminate| |done].
    by apply elem_of_elements.
  - apply (mean_of_bounds _ x0 x1 _ Hx).
    intros x Hxin. apply list_elem_of_fmap in Hxin as (p & -> & Hp).
    by apply Hin.
  - apply (mean_of_bounds _ x0 x1 _ Hx).
    intros x Hxin. apply list_elem_of_fmap in Hxin as (p & -> & Hp).
    by apply Hin.
  - apply (mean_of_bounds _ y0 y1 _ Hy).
    intros y Hyin. apply list_elem_of_fmap in Hyin as (p & -> & Hp).
    by apply Hin.
  - apply (mean_of_bounds _ y0 y1 _ Hy).
    intros y Hyin. apply list_elem_of_fmap in Hyin as (p & -> & Hp).
    by apply Hin.
Qed.

Lemma centroid_lies_in_region_box_witness :
  ∃ cx cy R U,
    KAnonymity.get_anonymized_location
      {| KAnonymity.city := city2; KAnonymity.k := 3 |} 2
    = Ret (cx, cy, R, U) ∧
    R ≠ ∅ ∧
    (∀ n, n ∈ R → is_Some (g_pos (KAnonymity.graph city2) !! n)) ∧
    (Z2Qc 0 <= cx)%Qc ∧ (cx <= Z2Qc 1)%Qc ∧
    (Z2Qc 0 <= cy)%Qc ∧ (cy <= Z2Qc 1)%Qc.
Proof.
  eassert (KAnonymity.get_anonymized_location
             {| KAnonymity.city := city2; KAnonymity.k := 3 |} 2
           = Ret (_, _, _, _)) as Hrun by (vm_compute; reflexivity).
  do 4 eexists. split; [exact Hrun|].
  apply (centroid_lies_in_region_box _ _ _ _ _ _ 0 1 0 1 Hrun).
  intros n x y _ Hl.
  assert (map_Forall (λ _ p, 0 ≤ p.1 ≤ 1 ∧ 0 ≤ p.2 ≤ 1)
                     (g_pos (city_grid 2))) as Hall by by_evaluation.
  exact (Hall n (x, y) Hl).
Defined.

(** ** Growing a region *)

(** X17: The metric does not shrink when a region of two or more nodes grows. *)
Theorem region_size_is_monotone (R R' : gset Z)
    (c : KAnonymity.SmartCityGraph) :
  (2 ≤ size R)%nat → R ⊆ R' →
  (∀ n, n ∈ R' → is_Some (g_pos (KAnonymity.graph c) !! n)) →
  ∃ a a', PrivacyAnalyzer.calculate_region_size R c = Ret a ∧
          PrivacyAnalyzer.calculate_region_size R' c = Ret a' ∧
          1 ≤ a ≤ a'.
Proof.
  intros Hsize Hsub Hpos.
  assert (2 ≤ size R')%nat as Hsize'.
  { pose proof (subseteq_size R R' Hsub). lia. }
  destruct (region_size_value R c Hsize) as
    (ps & x0 & x1 & y0 & y1 & Heq & Hrun & Hx0 & Hx1 & Hy0 & Hy1 & Hbox).
  { intros n Hn. by apply Hpos, Hsub. }
  destruct (region_size_value R' c Hsize' Hpos) as
    (ps' & x0' & x1' & y0' & y1' & Heq' & Hrun' & _ & _ & _ & _ & Hbox').
  exists ((x1 - x0 + 1) * (y1 - y0 + 1)), ((x1' - x0' + 1) * (y1' - y0' + 1)).
  split_and!; [done|done| |].
  - apply list_elem_of_fmap in Hx0 as (p0 & -> & Hp0).
    apply list_elem_of_fmap in Hy0 as (q0 & -> & Hq0).
    pose proof (Hbox _ Hp0). pose proof (Hbox _ Hq0). nia.
  - assert (∀ p, p ∈ ps → p ∈ ps') as Hin.
    { intros p Hp.
      apply (positions_of_region _ _ _ _ Heq) in Hp as (n & Hn & Hl).
      apply (positions_of_region _ _ _ _ Heq'). exists n. split; [|done].
      by apply elem_of_elements, Hsub, elem_of_elements. }
    apply list_elem_of_fmap in Hx0 as (p0 & -> & Hp0).
    apply list_elem_of_fmap in Hx1 as (p1 & -> & Hp1).
    apply list_elem_of_fmap in Hy0 as (q0 & -> & Hq0).
    apply list_elem_of_fmap in Hy1 as (q1 & -> & Hq1).
    pose proof (Hbox _ Hp0). pose proof (Hbox _ Hq0).
    pose proof (Hbox' _ (Hin _ Hp0)). pose proof (Hbox' _ (Hin _ Hp1)).
    pose proof (Hbox' _ (Hin _ Hq0)). pose proof (Hbox' _ (Hin _ Hq1)).
    nia.
Qed.

Lemma region_size_is_monotone_witness :
  ∃ a a', PrivacyAnalyzer.calculate_region_size {[0; 1]} city2 = Ret a ∧
          PrivacyAnalyzer.calculate_region_size {[0; 1; 3]} city2 = Ret a' ∧
          1 ≤ a ≤ a'.
Proof.
  apply (region_size_is_monotone {[0; 1]} {[0; 1; 3]} city2).
  - by_evaluation.
  - by_evaluation.
  - intros n Hn. apply city_grid_2_positioned.
    apply (bool_decide_unpack _). revert n Hn.
    apply (set_Forall_elements (λ n, bool_decide (n ∈ g_nodes (city_grid 2)))).
    apply Forall_forall. intros n Hn. revert n Hn. apply Forall_forall.
    by_evaluation.
Defined.

(** ** Moving a user to a node of the graph *)

Lemma dict_set_keys (d : list (Z * Z)) (key v k' : Z) :
  k' ∈ (KAnonymity.dict_set d key v).*1 ↔ k' = key ∨ k' ∈ d.*1.
Proof.
  induction d as [|[k0 v0] d IH]; simpl.
  - rewrite list_elem_of_singleton. split; [by left|].
    intros [->|H]; [done|inversion H].
  - destruct (decide (k0 = key)) as [->|Hne]; simpl.
    + rewrite !elem_of_cons. tauto.
    + rewrite !elem_of_cons, IH. tauto.
Qed.

Lemma dict_set_nodup (d : list (Z * Z)) (key v : Z) :
  NoDup d.*1 → NoDup (KAnonymity.dict_set d key v).*1.
Proof.
  induction d as [|[k0 v0] d IH]; simpl; intros Hnd.
  - apply NoDup_singleton.
  - apply NoDup_cons in Hnd as [Hfresh Hnd].
    destruct (decide (k0 = key)) as [->|Hne]; simpl.
    + by apply NoDup_cons.
    + apply NoDup_cons. split; [|by apply IH].
      rewrite dict_set_keys. intros [->|Hin]; [done|contradiction].
Qed.

Lemma dict_set_elem (d : list (Z * Z)) (key v k' v' : Z) :
  NoDup d.*1 →
  (k', v') ∈ KAnonymity.dict_set d key v ↔
  (k' = key ∧ v' = v) ∨ (k' ≠ key ∧ (k', v') ∈ d).
Proof.
  induction d as [|[k0 v0] d IH]; simpl; intros Hnd.
  - rewrite list_elem_of_singleton. split.
    + intros Heq. injection Heq as -> ->. by left.
    + intros [[-> ->]|[_ Hin]]; [done|inversion Hin].
  - apply NoDup_cons in Hnd as [Hfresh Hnd].
    destruct (decide (k0 = key)) as [->|Hne].
    + rewrite !elem_of_cons. split.
      * intros [Heq|Hin]; [injection Heq as -> ->; by left|].
        right. split; [|by right]. intros ->. apply Hfresh.
        apply list_elem_of_fmap. by exists (key, v').
      * intros [[-> ->]|[Hne [Heq|Hin]]]; [by left| |by right].
        injection Heq as -> ->. done.
    + rewrite !elem_of_cons, (IH Hnd). split.
      * intros [Heq|[[-> ->]|[Hk Hin]]].
        -- injection Heq as -> ->. right. split; [done|by left].
        -- by left.
        -- right. split; [done|by right].
      * intros [[-> ->]|[Hk [Heq|Hin]]].
        -- right. by left.
        -- by left.
        -- right. right. by split.
Qed.

Lemma dict_get_set (d : list (Z * Z)) (key v k' : Z) :
  KAnonymity.dict_get (KAnonymity.dict_set d key v) k'
  = if decide (k' = key) then Ret v else KAnonymity.dict_get d k'.
Proof.
  induction d as [|[k0 v0] d IH]; simpl.
  - destruct (decide (key = k')) as [->|Hne].
    + by rewrite decide_True.
    + by rewrite decide_False by done.
  - destruct (decide (k0 = key)) as [->|Hne]; simpl.
    + destruct (decide (key = k')) as [->|Hne'].
      * by rewrite decide_True.
      * by rewrite decide_False by done.
    + destruct (decide (k0 = k')) as [->|Hne'].
      * by rewrite decide_False by done.
      * exact IH.
Qed.

Lemma move_user_known_node_result (c : KAnonymity.SmartCityGraph)
    (r : KAnonymity.Random) (user_id new_node base_x base_y : Z) :
  new_node ∈ g_nodes (KAnonymity.graph c) →
  g_pos (KAnonymity.graph c) !! new_node = Some (base_x, base_y) →
  KAnonymity.move_user c r user_id new_node
  = Ret ({| KAnonymity.graph := KAnonymity.graph c;
            KAnonymity.users :=
              KAnonymity.dict_set (KAnonymity.users c) user_id new_node;
            KAnonymity.user_positions :=
              <[user_id :=
                  ((Z2Qc base_x
                    + KAnonymity.draws r (KAnonymity.cursor r))%Qc,
                   (Z2Qc base_y
                    + KAnonymity.draws r (S (KAnonymity.cursor r)))%Qc)]>
                (KAnonymity.user_positions c) |},
          {| KAnonymity.draws := KAnonymity.draws r;
             KAnonymity.cursor := S (S (KAnonymity.cursor r)) |}).
Proof.
  intros Hin Hpos. unfold KAnonymity.move_user.
  rewrite decide_True by done.
  by rewrite (getitem_Some _ _ _ Hpos).
Qed.



(** X19: A move keeps every user on the graph, so that the search can still be
    run for each of them. *)
Theorem move_user_keeps_users_placed (c c' : KAnonymity.SmartCityGraph)
    (r r' : KAnonymity.Random) (user_id new_node : Z) :
  users_ok c → placed c →
  KAnonymity.move_user c r user_id new_node = Ret (c', r') →
  users_ok c' ∧ placed c' ∧
  ∀ u, u ∈ (KAnonymity.users c').*1 ↔
       u ∈ (KAnonymity.users c).*1 ∨
       (u = user_id ∧ new_node ∈ g_nodes (KAnonymity.graph c)).
Proof.
  intros Hok Hpl Hrun. unfold KAnonymity.move_user in Hrun.
  destruct (decide (new_node ∈ g_nodes (KAnonymity.graph c))) as [Hin|Hout].
  - destruct (g_pos (KAnonymity.graph c) !! new_node) as [[bx by']|] eqn:Hpos.
    + rewrite (getitem_Some _ _ _ Hpos) in Hrun.
      injection Hrun as <- <-. simpl. split_and!.
      * unfold users_ok. simpl. by apply dict_set_nodup.
      * intros u n. unfold located. simpl.
        rewrite (dict_set_elem _ _ _ _ _ Hok).
        intros [[_ ->]|[_ H]]; [done|by apply (Hpl u)].
      * intros u. rewrite dict_set_keys. split.
        -- intros [->|H]; [right|left]; done.
        -- intros [H|[-> _]]; [right|left]; done.
    + rewrite (getitem_None _ _ Hpos) in Hrun. discriminate Hrun.
  - injection Hrun as <- <-. split_and!; [done..|].
    intros u. split; [by left|]. by intros [H|[_ H]].
Qed.

Lemma move_user_keeps_users_placed_witness :
  ∃ c', users_ok c' ∧ placed c' ∧
        ∀ u, u ∈ (KAnonymity.users c').*1 ↔
             u ∈ (KAnonymity.users city2).*1 ∨
             (u = 7 ∧ 3 ∈ g_nodes (KAnonymity.graph city2)).
Proof.
  eassert (KAnonymity.move_user city2 rng0 7 3 = Ret (_, _)) as Hrun
    by (apply (move_user_known_node_result city2 rng0 7 3 1 1);
        [by_evaluation|reflexivity]).
  eexists.
  refine (move_user_keeps_users_placed city2 _ rng0 _ 7 3 _ _ Hrun).
  - unfold users_ok. by_evaluation.
  - intros u n Hloc. apply (bool_decide_unpack _).
    revert Hloc. unfold located. revert n. revert u.
    assert (Forall (λ p, bool_decide (p.2 ∈ g_nodes (KAnonymity.graph city2)))
                   (KAnonymity.users city2)) as Hall by by_evaluation.
    intros u n Hin. exact (proj1 (Forall_forall _ _) Hall (u, n) Hin).
Defined.

(** ** Building a graph *)

Lemma ensure_node_nodes (g : Graph) (n v : Z) :
  v ∈ g_nodes (Nx.ensure_node g n) ↔ v ∈ g_nodes g ∨ v = n.
Proof.
  unfold Nx.ensure_node. destruct (decide (n ∈ g_nodes g)) as [Hin|Hout].
  - split; [by left|]. by intros [H| ->].
  - simpl. rewrite elem_of_app, list_elem_of_singleton. tauto.
Qed.

Lemma ensure_node_pos (g : Graph) (n : Z) :
  g_pos (Nx.ensure_node g n) = g_pos g.
Proof. unfold Nx.ensure_node. by destruct (decide _). Qed.

Lemma ensure_node_known (g : Graph) (n : Z) :
  n ∈ g_nodes g → Nx.ensure_node g n = g.
Proof. intros Hin. unfold Nx.ensure_node. by rewrite decide_True. Qed.

Lemma ensure_node_edge (g : Graph) (n u w : Z) :
  wf_graph g → edge (Nx.ensure_node g n) u w ↔ edge g u w.
Proof.
  intros Hwf. unfold Nx.ensure_node.
  destruct (decide (n ∈ g_nodes g)) as [Hin|Hout]; [done|].
  unfold edge. simpl.
  assert (g_adj g !! n = None) as Hnone.
  { destruct (g_adj g !! n) eqn:Hl; [|done].
    exfalso. apply Hout, (wf_keys g Hwf). by eexists. }
  destruct (decide (u = n)) as [->|Hne].
  - rewrite lookup_insert_eq, Hnone. split.
    + intros (l & Hl & Hw). injection Hl as <-. inversion Hw.
    + by intros (l & Hl & _).
  - by rewrite lookup_insert_ne.
Qed.

Lemma ensure_node_wf (g : Graph) (n : Z) :
  wf_graph g → wf_graph (Nx.ensure_node g n).
Proof.
  intros Hwf. split.
  - unfold Nx.ensure_node. destruct (decide (n ∈ g_nodes g)) as [Hin|Hout].
    + apply (wf_nodup g Hwf).
    + simpl. apply NoDup_app. split_and!.
      * apply (wf_nodup g Hwf).
      * intros x Hx Hn. apply list_elem_of_singleton in Hn as ->. done.
      * apply NoDup_singleton.
  - intros v. rewrite ensure_node_nodes. unfold Nx.ensure_node.
    destruct (decide (n ∈ g_nodes g)) as [Hin|Hout].
    + rewrite <- (wf_keys g Hwf). split; [|by left].
      by intros [H| ->].
    + simpl. destruct (decide (v = n)) as [->|Hne].
      * rewrite lookup_insert_eq. split; [by eexists|by right].
      * rewrite lookup_insert_ne by done. rewrite <- (wf_keys g Hwf).
        split; [by intros [H|H]|by left].
  - intros u w He. apply (ensure_node_edge g n u w Hwf) in He.
    apply ensure_node_nodes. left. by apply (wf_closed g Hwf u w).
  - intros u w He. apply (ensure_node_edge g n _ _ Hwf).
    apply (ensure_node_edge g n _ _ Hwf) in He.
    by apply (wf_sym g Hwf).
Qed.

Lemma add_node_wf (g : Graph) (n : Z) (p : Z * Z) :
  wf_graph g → wf_graph (Nx.add_node g n p).
Proof.
  intros Hwf. pose proof (ensure_node_wf g n Hwf) as [H1 H2 H3 H4].
  by split.
Qed.

Lemma add_node_edge (g : Graph) (n : Z) (p : Z * Z) (u w : Z) :
  wf_graph g → edge (Nx.add_node g n p) u w ↔ edge g u w.
Proof. intros Hwf. apply (ensure_node_edge g n u w Hwf). Qed.

Lemma add_node_nodes (g : Graph) (n : Z) (p : Z * Z) (v : Z) :
  v ∈ g_nodes (Nx.add_node g n p) ↔ v ∈ g_nodes g ∨ v = n.
Proof. apply ensure_node_nodes. Qed.

Lemma add_node_pos (g : Graph) (n : Z) (p : Z * Z) (v : Z) :
  g_pos (Nx.add_node g n p) !! v
  = if decide (v = n) then Some p else g_pos g !! v.
Proof.
  unfold Nx.add_node. simpl. rewrite ensure_node_pos.
  destruct (decide (v = n)) as [->|Hne].
  - by rewrite lookup_insert_eq.
  - by rewrite lookup_insert_ne.
Qed.

Lemma link_edge (adj : gmap Z (list Z)) (u v a b : Z) :
  (∃ l, Nx.link adj u v !! a = Some l ∧ b ∈ l) ↔
  (∃ l, adj !! a = Some l ∧ b ∈ l) ∨
  (a = u ∧ b = v).
Proof.
  unfold Nx.link.
  destruct (decide (v ∈ default [] (adj !! u))) as [Hin|Hout].
  - split; [by left|]. intros [H|[-> ->]]; [done|].
    destruct (adj !! u) as [l|]; [by exists l|inversion Hin].
  - destruct (decide (a = u)) as [->|Hne].
    + rewrite lookup_insert_eq. split.
      * intros (l & Hl & Hb). injection Hl as <-.
        apply elem_of_app in Hb as [Hb|Hb].
        -- left. destruct (adj !! u) as [l|]; [by exists l|inversion Hb].
        -- apply list_elem_of_singleton in Hb as ->. by right.
      * intros [(l & Hl & Hb)|[_ ->]]; eexists; (split; [done|]).
        -- rewrite Hl. simpl. apply elem_of_app. by left.
        -- apply elem_of_app. right. by apply list_elem_of_singleton.
    + rewrite lookup_insert_ne by done. split; [by left|].
      by intros [H|[-> _]].
Qed.

Lemma link_keys (adj : gmap Z (list Z)) (u v a : Z) :
  is_Some (adj !! u) →
  is_Some (Nx.link adj u v !! a) ↔ is_Some (adj !! a).
Proof.
  intros Hu. unfold Nx.link.
  destruct (decide (v ∈ default [] (adj !! u))) as [Hin|Hout]; [done|].
  destruct (decide (a = u)) as [->|Hne].
  - rewrite lookup_insert_eq. split; [done|by eexists].
  - by rewrite lookup_insert_ne.
Qed.

Lemma add_edge_edge (g : Graph) (u v a b : Z) :
  wf_graph g →
  edge (Nx.add_edge g u v) a b ↔
  edge g a b ∨ (a = u ∧ b = v) ∨ (a = v ∧ b = u).
Proof.
  intros Hwf. unfold edge at 1. unfold Nx.add_edge. simpl.
  rewrite !link_edge.
  pose proof (ensure_node_wf g u Hwf) as Hwf1.
  change (∃ l, g_adj (Nx.ensure_node (Nx.ensure_node g u) v) !! a = Some l
               ∧ b ∈ l)
    with (edge (Nx.ensure_node (Nx.ensure_node g u) v) a b).
  rewrite (ensure_node_edge _ v a b Hwf1), (ensure_node_edge g u a b Hwf).
  tauto.
Qed.

Lemma add_edge_pos (g : Graph) (u v : Z) :
  g_pos (Nx.add_edge g u v) = g_pos g.
Proof. unfold Nx.add_edge. simpl. by rewrite !ensure_node_pos. Qed.

Lemma add_edge_nodes (g : Graph) (u v : Z) :
  u ∈ g_nodes g → v ∈ g_nodes g → g_nodes (Nx.add_edge g u v) = g_nodes g.
Proof.
  intros Hu Hv. unfold Nx.add_edge. simpl.
  by rewrite (ensure_node_known g u Hu), (ensure_node_known g v Hv).
Qed.

Lemma add_edge_wf (g : Graph) (u v : Z) :
  wf_graph g → wf_graph (Nx.add_edge g u v).
Proof.
  intros Hwf.
  pose proof (ensure_node_wf _ v (ensure_node_wf g u Hwf)) as Hwf2.
  set (g2 := Nx.ensure_node (Nx.ensure_node g u) v) in *.
  assert (u ∈ g_nodes g2) as Hu.
  { apply ensure_node_nodes. left. apply ensure_node_nodes. by right. }
  assert (v ∈ g_nodes g2) as Hv by (apply ensure_node_nodes; by right).
  split.
  - apply (wf_nodup g2 Hwf2).
  - intros n. unfold Nx.add_edge. simpl. fold g2.
    rewrite link_keys, link_keys.
    + apply (wf_keys g2 Hwf2).
    + by apply (wf_keys g2 Hwf2).
    + apply link_keys; by apply (wf_keys g2 Hwf2).
  - intros a b He. apply (add_edge_edge g u v a b Hwf) in He.
    change (b ∈ g_nodes g2).
    destruct He as [He|[[_ ->]|[_ ->]]]; [|done..].
    apply ensure_node_nodes. left. apply ensure_node_nodes. left.
    by apply (wf_closed g Hwf a b).
  - intros a b He. apply (add_edge_edge g u v _ _ Hwf).
    apply (add_edge_edge g u v _ _ Hwf) in He.
    destruct He as [He|[[-> ->]|[-> ->]]].
    + left. by apply (wf_sym g Hwf).
    + right. by right.
    + right. by left.
Qed.

(** ** Nested loops over the grid *)

Lemma nested_foldl {A : Type} (step : A → Z → Z → A) (l1 l2 : list Z) :
  ∀ a, foldl (λ a i, foldl (λ a j, step a i j) a l2) a l1
       = foldl (λ a p, step a p.1 p.2) a (i ← l1; (λ j, (i, j)) <$> l2).
Proof.
  induction l1 as [|i l1 IH]; intros a; [done|].
  simpl. rewrite foldl_app, <- IH. f_equal.
  clear. revert a. induction l2 as [|j l2 IH]; intros a; [done|].
  simpl. apply IH.
Qed.

Lemma elem_of_cells (l1 l2 : list Z) (i j : Z) :
  (i, j) ∈ (i ← l1; (λ j, (i, j)) <$> l2) ↔ i ∈ l1 ∧ j ∈ l2.
Proof.
  rewrite list_elem_of_bind. split.
  - intros (i' & Hin & Hi'). apply list_elem_of_fmap in Hin as (j' & Heq & Hj').
    by injection Heq as -> ->.
  - intros [Hi Hj]. exists i. split; [|done].
    apply list_elem_of_fmap. by exists j.
Qed.

Lemma length_cells (l1 l2 : list Z) :
  length (i ← l1; (λ j, (i, j)) <$> l2) = (length l1 * length l2)%nat.
Proof.
  induction l1 as [|i l1 IH]; [done|].
  rewrite bind_cons, length_app, length_fmap, IH. done.
Qed.

Lemma foldl_inv {A B : Type} (P : A → Prop) (f : A → B → A) (l : list B) :
  (∀ a x, x ∈ l → P a → P (f a x)) →
  ∀ a, P a → P (foldl f a l).
Proof.
  induction l as [|x l IH]; intros Hstep a Ha; [done|].
  simpl. apply IH.
  - intros a' y Hy. apply Hstep. by right.
  - apply Hstep; [left|done].
Qed.

Lemma foldl_each {A B : Type} `{EqDecision B} (P : A → Prop)
    (Q : B → A → Prop) (f : A → B → A) (l : list B) :
  (∀ a x, x ∈ l → P a → P (f a x)) →
  (∀ a x, x ∈ l → P a → Q x (f a x)) →
  (∀ a x y, x ∈ l → y ∈ l → x ≠ y → P a → Q x a → Q x (f a y)) →
  ∀ a, P a → ∀ x, x ∈ l → Q x (foldl f a l).
Proof.
  induction l as [|y l IH]; intros HP Hest Hkeep a Ha x Hx; [inversion Hx|].
  simpl.
  assert (P (f a y)) as Ha' by (apply HP; [left|done]).
  assert (∀ a, P a → Q x a → Q x (foldl f a l)) as Hrest.
  { clear a Ha Ha'. intros a Ha Hq.
    apply (foldl_inv (λ a, P a ∧ Q x a)); [|done].
    intros a' z Hz [Ha' Hq']. split; [apply HP; [by right|done]|].
    destruct (decide (x = z)) as [->|Hne].
    - apply Hest; [by right|done].
    - apply Hkeep; [done|by right|done..]. }
  apply elem_of_cons in Hx as [->|Hx].
  - apply Hrest; [done|]. apply Hest; [left|done].
  - apply IH; try done.
    + intros a' z Hz. apply HP. by right.
    + intros a' z Hz. apply Hest. by right.
    + intros a' z w Hz Hw. apply Hkeep; by right.
Qed.

Lemma elem_of_range (n i : Z) : i ∈ CitySimulation.range n ↔ 0 ≤ i < n.
Proof. unfold CitySimulation.range. rewrite elem_of_seqZ. lia. Qed.

Lemma elem_of_range_by_2 (stop i : Z) :
  i ∈ CitySimulation.range_by_2 stop → 0 ≤ i < stop.
Proof.
  unfold CitySimulation.range_by_2. intros Hi.
  apply list_elem_of_fmap in Hi as (h & -> & Hh).
  apply elem_of_seqZ in Hh.
  pose proof (Z.div_mod (stop + 1) 2 ltac:(lia)).
  pose proof (Z.mod_pos_bound (stop + 1) 2 ltac:(lia)). lia.
Qed.

Lemma cell_inj (n i j i' j' : Z) :
  0 ≤ j < n → 0 ≤ j' < n → i * n + j = i' * n + j' → i = i' ∧ j = j'.
Proof. intros Hj Hj' Heq. assert (i = i') by nia. subst. lia. Qed.

(** ** The city graph *)

Lemma near_sym (n u w : Z) : near n u w → near n w u.
Proof.
  intros (i & j & i' & j' & Hi & Hj & Hi' & Hj' & -> & -> & Hdi & Hdj & Hne).
  exists i', j', i, j. split_and!; try done; lia.
Qed.

Lemma near_nodes (n : Z) (g : Graph) (u w : Z) :
  is_grid n g → near n u w → u ∈ g_nodes g ∧ w ∈ g_nodes g.
Proof.
  intros [Hnodes _]
    (i & j & i' & j' & Hi & Hj & Hi' & Hj' & -> & -> & _).
  split; apply Hnodes.
  - by exists i, j.
  - by exists i', j'.
Qed.

Lemma add_edge_grid_like (n : Z) (g : Graph) (u v : Z) :
  grid_like n g → near n u v → grid_like n (Nx.add_edge g u v).
Proof.
  intros (Hwf & Hgrid & Hloc) Hnear.
  destruct (near_nodes n g u v Hgrid Hnear) as [Hu Hv].
  split_and!.
  - by apply add_edge_wf.
  - destruct Hgrid as [Hnodes Hpos]. split.
    + intros x. rewrite (add_edge_nodes g u v Hu Hv). apply Hnodes.
    + intros i j Hi Hj. rewrite add_edge_pos. by apply Hpos.
  - intros a b He. apply (add_edge_edge g u v a b Hwf) in He.
    destruct He as [He|[[-> ->]|[-> ->]]].
    + by apply Hloc.
    + done.
    + by apply near_sym.
Qed.

Lemma add_edge_keeps_edges (g : Graph) (u v a b : Z) :
  wf_graph g → edge g a b → edge (Nx.add_edge g u v) a b.
Proof. intros Hwf He. apply (add_edge_edge g u v a b Hwf). by left. Qed.

Lemma add_edge_has_roads (n : Z) (g : Graph) (u v : Z) :
  wf_graph g → has_roads n g → has_roads n (Nx.add_edge g u v).
Proof.
  intros Hwf Hroads i j Hi Hj. destruct (Hroads i j Hi Hj) as [Hr Hd].
  split; intros Hlt; apply (add_edge_keeps_edges g u v _ _ Hwf); auto.
Qed.

Lemma add_intersections_spec (n : Z) :
  grid_like n (CitySimulation.add_intersections n Nx.empty_graph).
Proof.
  unfold CitySimulation.add_intersections.
  rewrite (nested_foldl (λ g i j, Nx.add_node g (i * n + j) (i, j))).
  set (cells := i ← CitySimulation.range n;
                (λ j, (i, j)) <$> CitySimulation.range n).
  set (f := λ (g : Graph) (p : Z * Z), Nx.add_node g (p.1 * n + p.2) (p.1, p.2)).
  set (P := λ g : Graph,
         wf_graph g ∧
         (∀ v, v ∈ g_nodes g →
               ∃ i j, 0 ≤ i < n ∧ 0 ≤ j < n ∧ v = i * n + j) ∧
         ∀ u w, ¬ edge g u w).
  set (Q := λ (p : Z * Z) (g : Graph),
         (p.1 * n + p.2) ∈ g_nodes g ∧
         g_pos g !! (p.1 * n + p.2) = Some (p.1, p.2)).
  assert (∀ a x, x ∈ cells → P a → P (f a x)) as HP.
  { intros g [i j] Hin (Hwf & Hn & He).
    apply elem_of_cells in Hin as [Hi Hj].
    apply elem_of_range in Hi, Hj. unfold f. simpl. split_and!.
    - by apply add_node_wf.
    - intros v Hv. apply add_node_nodes in Hv as [Hv| ->]; [by apply Hn|].
      by exists i, j.
    - intros u w Hedge. apply (add_node_edge g _ _ u w Hwf) in Hedge.
      by apply (He u w). }
  assert (P Nx.empty_graph) as H0.
  { split_and!.
    - split; simpl.
      + apply NoDup_nil_2.
      + intros v. rewrite lookup_empty. split; [by inversion 1|].
        by intros [? ?].
      + intros u w (l & Hl & _). simpl in Hl. by rewrite lookup_empty in Hl.
      + intros u w (l & Hl & _). simpl in Hl. by rewrite lookup_empty in Hl.
    - intros v Hv. inversion Hv.
    - intros u w (l & Hl & _). simpl in Hl. by rewrite lookup_empty in Hl. }
  pose proof (foldl_inv P f cells HP _ H0) as (Hwf & Hn & He).
  pose proof (foldl_each P Q f cells HP) as Heach.
  split_and!; [done| |by intros u w Hedge; destruct (He u w)].
  assert (∀ i j, 0 ≤ i < n → 0 ≤ j < n →
                 Q (i, j) (foldl f Nx.empty_graph cells)) as HQ.
  { intros i j Hi Hj. apply Heach; [| |done|].
    - intros g [i0 j0] _ _. unfold Q, f. cbn [fst snd]. split.
      + apply add_node_nodes. by right.
      + rewrite add_node_pos. by rewrite decide_True.
    - intros g [i0 j0] [i1 j1] Hin0 Hin Hne _ [Hq1 Hq2].
      apply elem_of_cells in Hin0 as [Hi0 Hj0].
      apply elem_of_range in Hi0, Hj0.
      apply elem_of_cells in Hin as [Hi1 Hj1].
      apply elem_of_range in Hi1, Hj1.
      unfold Q, f in *. cbn [fst snd] in *. split.
      + apply add_node_nodes. by left.
      + rewrite add_node_pos. destruct (decide _) as [Heq|_]; [|done].
        apply (cell_inj n) in Heq as [-> ->]; [done|lia..].
    - apply elem_of_cells. split; by apply elem_of_range. }
  split.
  - intros v. split; [apply Hn|].
    intros (i & j & Hi & Hj & ->). by apply (HQ i j).
  - intros i j Hi Hj. by apply (HQ i j).
Qed.

Lemma near_right (n i j : Z) :
  0 ≤ i < n → 0 ≤ j < n → j < n - 1 → near n (i * n + j) (i * n + (j + 1)).
Proof.
  intros Hi Hj Hlt. exists i, j, i, (j + 1). split_and!; try done; lia.
Qed.

Lemma near_down (n i j : Z) :
  0 ≤ i < n → 0 ≤ j < n → i < n - 1 → near n (i * n + j) ((i + 1) * n + j).
Proof.
  intros Hi Hj Hlt. exists i, j, (i + 1), j.
  split_and!; try done; first [lia|nia].
Qed.

Lemma near_diagonal (n i j : Z) :
  0 ≤ i < n - 1 → 0 ≤ j < n - 1 →
  near n (i * n + j) ((i + 1) * n + (j + 1)).
Proof.
  intros Hi Hj. exists i, j, (i + 1), (j + 1).
  split_and!; try done; first [lia|nia].
Qed.

Lemma add_roads_spec (n : Z) (g : Graph) :
  grid_like n g →
  grid_like n (CitySimulation.add_roads n g) ∧
  has_roads n (CitySimulation.add_roads n g).
Proof.
  intros Hg. unfold CitySimulation.add_roads.
  rewrite (nested_foldl
    (λ g i j,
       let current := i * n + j in
       let g1 := if decide (j < n - 1)
                 then Nx.add_edge g current (i * n + (j + 1)) else g in
       if decide (i < n - 1)
       then Nx.add_edge g1 current ((i + 1) * n + j) else g1)).
  set (cells := i ← CitySimulation.range n;
                (λ j, (i, j)) <$> CitySimulation.range n).
  match goal with |- context [foldl ?h g cells] => set (f := h) end.
  set (Q := λ (p : Z * Z) (g : Graph),
         (p.2 < n - 1 → edge g (p.1 * n + p.2) (p.1 * n + (p.2 + 1))) ∧
         (p.1 < n - 1 → edge g (p.1 * n + p.2) ((p.1 + 1) * n + p.2))).
  assert (∀ a x, x ∈ cells → grid_like n a →
                 grid_like n (f a x) ∧
                 (∀ u w, edge a u w → edge (f a x) u w) ∧ Q x (f a x))
    as Hstep.
  { intros a [i j] Hin Ha. apply elem_of_cells in Hin as [Hi Hj].
    apply elem_of_range in Hi, Hj. unfold f, Q. cbn [fst snd].
    destruct (decide (j < n - 1)) as [Hr|Hr];
      destruct (decide (i < n - 1)) as [Hd|Hd].
    - pose proof (add_edge_grid_like n a _ _ Ha (near_right n i j Hi Hj Hr))
        as Ha1.
      pose proof (add_edge_grid_like n _ _ _ Ha1 (near_down n i j Hi Hj Hd))
        as Ha2.
      destruct Ha as (Hwf & _). destruct Ha1 as (Hwf1 & _).
      split_and!; [done| | |].
      + intros u w He. apply add_edge_keeps_edges; [done|].
        by apply add_edge_keeps_edges.
      + intros _. apply add_edge_keeps_edges; [done|].
        apply add_edge_edge; [done|]. right. by left.
      + intros _. apply add_edge_edge; [done|]. right. by left.
    - pose proof (add_edge_grid_like n a _ _ Ha (near_right n i j Hi Hj Hr))
        as Ha1.
      destruct Ha as (Hwf & _).
      split_and!; [done| | |].
      + intros u w He. by apply add_edge_keeps_edges.
      + intros _. apply add_edge_edge; [done|]. right. by left.
      + intros Hlt. lia.
    - pose proof (add_edge_grid_like n a _ _ Ha (near_down n i j Hi Hj Hd))
        as Ha1.
      destruct Ha as (Hwf & _).
      split_and!; [done| | |].
      + intros u w He. by apply add_edge_keeps_edges.
      + intros Hlt. lia.
      + intros _. apply add_edge_edge; [done|]. right. by left.
    - split_and!; [done|done| |]; intros Hlt; lia. }
  split.
  - apply foldl_inv; [|done]. intros a x Hx Ha. by apply Hstep.
  - intros i j Hi Hj.
    apply (foldl_each (grid_like n) Q f cells) with (x := (i, j)); try done.
    + intros a x Hx Ha. by apply Hstep.
    + intros a x Hx Ha. by apply Hstep.
    + intros a x y _ Hy _ Ha [Hq1 Hq2].
      destruct (Hstep a y Hy Ha) as (_ & Hmono & _).
      split; intros Hlt; apply Hmono; auto.
    + apply elem_of_cells. split; by apply elem_of_range.
Qed.

Lemma add_diagonals_spec (n : Z) (g : Graph) (r : Rng) :
  grid_like n g → has_roads n g →
  ∃ g' r', CitySimulation.add_diagonals n g r = (g', r') ∧
    grid_like n g' ∧ has_roads n g' ∧
    rng_index r' = rng_index r ∧ rng_unit r' = rng_unit r ∧
    rng_calls r'
    = (rng_calls r
       + length (CitySimulation.range_by_2 (n - 1))
         * length (CitySimulation.range_by_2 (n - 1)))%nat.
Proof.
  intros Hg Hroads. unfold CitySimulation.add_diagonals.
  rewrite (nested_foldl
    (λ (s : Graph * Rng) i j,
       let '(g, r) := s in
       let '(x, r') := random_random r in
       if decide (Q2Qc (7 # 10) < x)%Qc
       then (Nx.add_edge g (i * n + j) ((i + 1) * n + (j + 1)), r')
       else (g, r'))).
  rewrite <- length_cells.
  set (cells := i ← CitySimulation.range_by_2 (n - 1);
                (λ j, (i, j)) <$> CitySimulation.range_by_2 (n - 1)).
  match goal with |- context [foldl ?h (g, r) cells] => set (f := h) end.
  assert (∀ l, (∀ x, x ∈ l → x ∈ cells) → ∀ g r,
            grid_like n g → has_roads n g →
            ∃ g' r', foldl f (g, r) l = (g', r') ∧
              grid_like n g' ∧ has_roads n g' ∧
              rng_index r' = rng_index r ∧ rng_unit r' = rng_unit r ∧
              rng_calls r' = (rng_calls r + length l)%nat) as Hloop.
  { clear g r Hg Hroads.
    induction l as [|[i j] l IH]; intros Hsub g r Hg Hroads.
    - exists g, r. simpl. split_and!; try done; lia.
    - assert ((i, j) ∈ cells) as Hin by (apply Hsub; left).
      apply elem_of_cells in Hin as [Hi Hj].
      apply elem_of_range_by_2 in Hi, Hj.
      simpl foldl.
      destruct (decide (Q2Qc (7 # 10) < rng_unit r (rng_calls r))%Qc).
      + destruct (IH (λ x Hx, Hsub x (proj2 (elem_of_cons _ _ _) (or_intror Hx)))
                     (Nx.add_edge g (i * n + j) ((i + 1) * n + (j + 1)))
                     (rng_next r))
          as (g' & r' & Hrun & Hg' & Hr' & Hi' & Hu' & Hc').
        * apply add_edge_grid_like; [done|]. by apply near_diagonal.
        * apply add_edge_has_roads; [by destruct Hg|done].
        * exists g', r'. split_and!; try done.
          rewrite Hc'. simpl. lia.
      + destruct (IH (λ x Hx, Hsub x (proj2 (elem_of_cons _ _ _) (or_intror Hx)))
                     g (rng_next r) Hg Hroads)
          as (g' & r' & Hrun & Hg' & Hr' & Hi' & Hu' & Hc').
        exists g', r'. split_and!; try done.
        rewrite Hc'. simpl. lia. }
  by apply Hloop.
Qed.

Lemma roads_connect (n : Z) (g : Graph) :
  has_roads n g →
  ∀ i j, 0 ≤ i < n → 0 ≤ j < n → rtc (edge g) 0 (i * n + j).
Proof.
  intros Hroads.
  assert (∀ k : nat, Z.of_nat k < n → rtc (edge g) 0 (Z.of_nat k * n + 0))
    as Hcol.
  { induction k as [|k IH]; intros Hk.
    - replace (Z.of_nat 0 * n + 0) with 0 by lia. apply rtc_refl.
    - eapply rtc_r; [apply IH; lia|].
      replace (Z.of_nat (S k)) with (Z.of_nat k + 1) by lia.
      apply (Hroads (Z.of_nat k) 0); lia. }
  assert (∀ i (k : nat), 0 ≤ i < n → Z.of_nat k < n →
            rtc (edge g) 0 (i * n + Z.of_nat k)) as Hrow.
  { intros i k Hi. induction k as [|k IH]; intros Hk.
    - replace i with (Z.of_nat (Z.to_nat i)) by lia. apply Hcol. lia.
    - eapply rtc_r; [apply IH; lia|].
      replace (Z.of_nat (S k)) with (Z.of_nat k + 1) by lia.
      apply (Hroads i (Z.of_nat k)); lia. }
  intros i j Hi Hj. replace j with (Z.of_nat (Z.to_nat j)) by lia.
  apply Hrow; lia.
Qed.

Lemma grid_with_roads_connected (n : Z) (g : Graph) :
  grid_like n g → has_roads n g → connected g.
Proof.
  intros (Hwf & [Hnodes _] & _) Hroads u w Hu Hw.
  apply Hnodes in Hu as (i & j & Hi & Hj & ->).
  apply Hnodes in Hw as (i' & j' & Hi' & Hj' & ->).
  transitivity 0.
  - apply rtc_edge_sym; [done|]. by apply roads_connect.
  - by apply roads_connect.
Qed.

Lemma grid_like_positioned (n : Z) (g : Graph) :
  grid_like n g → positioned g.
Proof.
  intros (_ & [Hnodes Hpos] & _) v Hv.
  apply Hnodes in Hv as (i & j & Hi & Hj & ->).
  rewrite (Hpos i j Hi Hj). by eexists.
Qed.

Lemma length_range_by_2 (n : Z) :
  length (CitySimulation.range_by_2 (n - 1)) = Z.to_nat (n `div` 2).
Proof.
  unfold CitySimulation.range_by_2. rewrite length_fmap, length_seqZ.
  by replace (n - 1 + 1) with n by lia.
Qed.

Lemma SmartCityGraph_init_spec (grid_size : Z) (r : Rng) :
  ∃ c r',
    CitySimulation.SmartCityGraph_init grid_size r = (c, r') ∧
    grid_like grid_size (KAnonymity.graph c) ∧
    has_roads grid_size (KAnonymity.graph c) ∧
    KAnonymity.users c = [] ∧ KAnonymity.user_positions c = ∅ ∧
    rng_index r' = rng_index r ∧ rng_unit r' = rng_unit r ∧
    rng_calls r'
    = (rng_calls r
       + Z.to_nat (grid_size `div` 2) * Z.to_nat (grid_size `div` 2))%nat.
Proof.
  unfold CitySimulation.SmartCityGraph_init,
    CitySimulation._create_city_graph.
  destruct (add_roads_spec grid_size _ (add_intersections_spec grid_size))
    as [Hg Hroads].
  destruct (add_diagonals_spec grid_size _ r Hg Hroads)
    as (g' & r' & Hrun & Hg' & Hroads' & Hi & Hu & Hc).
  rewrite Hrun. eexists _, r'. split; [done|]. simpl.
  rewrite length_range_by_2 in Hc. by split_and!.
Qed.

(** X20: Whatever the generator draws, [SmartCityGraph(grid_size)] is a
    well-formed, connected graph on the cells [i * grid_size + j], each
    with its position [(i, j)], with a road from every cell to the cell
    on its right and to the cell below, and with no user yet. *)
Theorem city_graph_is_a_connected_grid (grid_size : Z) (r : Rng) :
  ∃ c r',
    CitySimulation.SmartCityGraph_init grid_size r = (c, r') ∧
    wf_graph (KAnonymity.graph c) ∧
    connected (KAnonymity.graph c) ∧
    positioned (KAnonymity.graph c) ∧
    (∀ v, v ∈ g_nodes (KAnonymity.graph c) ↔
          0 < grid_size ∧ 0 ≤ v < grid_size * grid_size) ∧
    (∀ i j, 0 ≤ i < grid_size → 0 ≤ j < grid_size →
       g_pos (KAnonymity.graph c) !! (i * grid_size + j) = Some (i, j)) ∧
    has_roads grid_size (KAnonymity.graph c) ∧
    KAnonymity.users c = [] ∧ KAnonymity.user_positions c = ∅.
Proof.
  destruct (SmartCityGraph_init_spec grid_size r)
    as (c & r' & Hrun & Hg & Hroads & Hu & Hp & _).
  exists c, r'. split; [done|].
  pose proof Hg as (Hwf & [Hnodes Hpos] & _).
  split_and!; try done.
  - by apply (grid_with_roads_connected grid_size).
  - by apply (grid_like_positioned grid_size).
  - intros v. rewrite Hnodes. split.
    + intros (i & j & Hi & Hj & ->). nia.
    + intros [Hn Hv]. exists (v `div` grid_size), (v `mod` grid_size).
      pose proof (Z.div_mod v grid_size ltac:(lia)).
      pose proof (Z.mod_pos_bound v grid_size Hn).
      split_and!; try lia.
      * apply Z.div_pos; lia.
      * apply Z.div_lt_upper_bound; lia.
Qed.

(** X21: The roads of the city join neighbouring cells only: a road or a
    diagonal never spans more than one row and one column, and no cell is
    joined to itself.  Building a city of size [n] consumes one draw of
    the generator for every second row and column, [(n div 2)^2] in
    all. *)
Theorem city_graph_edges_are_local (grid_size : Z) (r : Rng) :
  ∃ c r',
    CitySimulation.SmartCityGraph_init grid_size r = (c, r') ∧
    (∀ u w, edge (KAnonymity.graph c) u w → near grid_size u w) ∧
    rng_index r' = rng_index r ∧ rng_unit r' = rng_unit r ∧
    rng_calls r'
    = (rng_calls r
       + Z.to_nat (grid_size `div` 2) * Z.to_nat (grid_size `div` 2))%nat.
Proof.
  destruct (SmartCityGraph_init_spec grid_size r)
    as (c & r' & Hrun & (_ & _ & Hloc) & _ & _ & _ & Hi & Hu & Hc).
  by exists c, r'.
Qed.

(** ** Adding users *)

Lemma add_users_loop_spec (nodes : list Z) (ids : list Z) :
  nodes ≠ [] →
  ∀ (c : KAnonymity.SmartCityGraph) (r : Rng),
    nodes = g_nodes (KAnonymity.graph c) →
    positioned (KAnonymity.graph c) → users_ok c → placed c →
    ∃ c' r',
      CitySimulation.add_users_loop nodes ids c r = Ret (c', r') ∧
      KAnonymity.graph c' = KAnonymity.graph c ∧
      users_ok c' ∧ placed c' ∧
      (∀ u, u ∈ (KAnonymity.users c').*1 ↔
            u ∈ (KAnonymity.users c).*1 ∨ u ∈ ids) ∧
      (∀ u, u ∈ ids → is_Some (KAnonymity.user_positions c' !! u)) ∧
      (∀ u, u ∉ ids →
            KAnonymity.dict_get (KAnonymity.users c') u
            = KAnonymity.dict_get (KAnonymity.users c) u ∧
            KAnonymity.user_positions c' !! u
            = KAnonymity.user_positions c !! u) ∧
      rng_index r' = rng_index r ∧ rng_unit r' = rng_unit r ∧
      rng_calls r' = (rng_calls r + 3 * length ids)%nat.
Proof.
  intros Hne. induction ids as [|user_id ids IH]; intros c r Hnodes Hpos Hok Hpl.
  - exists c, r. simpl. split_and!; try done; try lia.
    + intros u. split; [by left|]. intros [H|H]; [done|inversion H].
    + intros u Hu. inversion Hu.
  - destruct (choice_spec r nodes Hne) as (node & Hch & Hin).
    assert (node ∈ g_nodes (KAnonymity.graph c)) as Hnode by by rewrite <- Hnodes.
    destruct (Hpos node Hnode) as [[base_x base_y] Hp].
    simpl CitySimulation.add_users_loop.
    rewrite Hch. unfold mbind, res_bind.
    rewrite (getitem_Some _ _ _ Hp). unfold random_uniform.
    match goal with
    | |- context [CitySimulation.add_users_loop nodes ids ?c1 ?r1] =>
        destruct (IH c1 r1) as
          (c' & r' & Hrun & Hg & Hok' & Hpl' & Hkeys & Hposn & Hrest &
           Hi & Hu & Hc)
    end.
    + done.
    + done.
    + unfold users_ok. simpl. by apply dict_set_nodup.
    + intros u n. unfold located. simpl.
      rewrite (dict_set_elem _ _ _ _ _ Hok).
      intros [[_ ->]|[_ H]]; [done|by apply (Hpl u)].
    + exists c', r'. simpl in *. split_and!; try done.
      * intros u. rewrite Hkeys, dict_set_keys, elem_of_cons. tauto.
      * intros u Hu'. destruct (decide (u ∈ ids)) as [Hids|Hids].
        -- by apply Hposn.
        -- destruct (Hrest u Hids) as [_ ->].
           apply elem_of_cons in Hu' as [->|Hu']; [|done].
           rewrite lookup_insert_eq. by eexists.
      * intros u Hu'. apply not_elem_of_cons in Hu' as [Hne' Hids].
        destruct (Hrest u Hids) as [-> ->].
        rewrite dict_get_set, decide_False by done.
        by rewrite lookup_insert_ne.
      * rewrite Hc. lia.
Qed.

Lemma add_users_returns (c : KAnonymity.SmartCityGraph) (num_users : Z)
    (r : Rng) :
  g_nodes (KAnonymity.graph c) ≠ [] →
  positioned (KAnonymity.graph c) → users_ok c → placed c →
  ∃ c' r',
    CitySimulation.add_users c num_users r = Ret (c', r') ∧
    KAnonymity.graph c' = KAnonymity.graph c ∧
    users_ok c' ∧ placed c' ∧
    (∀ u, u ∈ (KAnonymity.users c').*1 ↔
          u ∈ (KAnonymity.users c).*1 ∨ 0 ≤ u < num_users) ∧
    (∀ u, 0 ≤ u < num_users →
          is_Some (KAnonymity.user_positions c' !! u)) ∧
    (∀ u, ¬ 0 ≤ u < num_users →
          KAnonymity.dict_get (KAnonymity.users c') u
          = KAnonymity.dict_get (KAnonymity.users c) u ∧
          KAnonymity.user_positions c' !! u
          = KAnonymity.user_positions c !! u) ∧
    rng_index r' = rng_index r ∧ rng_unit r' = rng_unit r ∧
    rng_calls r' = (rng_calls r + 3 * Z.to_nat num_users)%nat.
Proof.
  intros Hne Hpos Hok Hpl. unfold CitySimulation.add_users.
  destruct (add_users_loop_spec _ (CitySimulation.range num_users) Hne c r
              eq_refl Hpos Hok Hpl)
    as (c' & r' & Hrun & Hg & Hok' & Hpl' & Hkeys & Hposn & Hrest &
        Hi & Hu & Hc).
  exists c', r'. split_and!; try done.
  - intros u. rewrite Hkeys, elem_of_range. tauto.
  - intros u Hu'. by apply Hposn, elem_of_range.
  - intros u Hu'. apply Hrest. by rewrite elem_of_range.
  - rewrite Hc. unfold CitySimulation.range. by rewrite length_seqZ.
Qed.

(** X22: [add_users] on a non-empty graph whose nodes all have a position puts
    each of the users [0 .. num_users - 1] on a node of the graph and gives
    it a display position; it leaves the graph and all other users as they
    were, and consumes three draws of the generator per user. *)
Theorem add_users_places_every_user (c : KAnonymity.SmartCityGraph)
    (num_users : Z) (r : Rng) :
  g_nodes (KAnonymity.graph c) ≠ [] →
  positioned (KAnonymity.graph c) → users_ok c → placed c →
  ∃ c' r',
    CitySimulation.add_users c num_users r = Ret (c', r') ∧
    KAnonymity.graph c' = KAnonymity.graph c ∧
    users_ok c' ∧ placed c' ∧
    (∀ u, 0 ≤ u < num_users →
       ∃ n, KAnonymity.dict_get (KAnonymity.users c') u = Ret n ∧
            n ∈ g_nodes (KAnonymity.graph c') ∧
            u ∈ KAnonymity.get_users_at_node c' n ∧
            is_Some (KAnonymity.user_positions c' !! u)) ∧
    (∀ u, ¬ 0 ≤ u < num_users →
          KAnonymity.dict_get (KAnonymity.users c') u
          = KAnonymity.dict_get (KAnonymity.users c) u ∧
          KAnonymity.user_positions c' !! u
          = KAnonymity.user_positions c !! u) ∧
    rng_calls r' = (rng_calls r + 3 * Z.to_nat num_users)%nat.
Proof.
  intros Hne Hpos Hok Hpl.
  destruct (add_users_returns c num_users r Hne Hpos Hok Hpl)
    as (c' & r' & Hrun & Hg & Hok' & Hpl' & Hkeys & Hposn & Hrest &
        Hi & Hu & Hc).
  exists c', r'. split_and!; try done.
  intros u Hu'.
  assert (u ∈ (KAnonymity.users c').*1) as Hkey by (apply Hkeys; by right).
  apply list_elem_of_fmap in Hkey as ([u' n] & -> & Hin). simpl in *.
  exists n. split_and!.
  - by apply located_dict_get.
  - by apply (Hpl' u').
  - by apply get_users_at_node_elem.
  - by apply Hposn.
Qed.

Lemma add_users_places_every_user_witness :
  ∃ c' r',
    CitySimulation.add_users city1 2
      {| rng_index := λ _, O; rng_unit := λ _, Q2Qc (1 # 2);
         rng_calls := O |} = Ret (c', r') ∧
    KAnonymity.graph c' = KAnonymity.graph city1 ∧
    users_ok c' ∧ placed c' ∧
    (∀ u, 0 ≤ u < 2 →
       ∃ n, KAnonymity.dict_get (KAnonymity.users c') u = Ret n ∧
            n ∈ g_nodes (KAnonymity.graph c') ∧
            u ∈ KAnonymity.get_users_at_node c' n ∧
            is_Some (KAnonymity.user_positions c' !! u)) ∧
    (∀ u, ¬ 0 ≤ u < 2 →
          KAnonymity.dict_get (KAnonymity.users c') u
          = KAnonymity.dict_get (KAnonymity.users city1) u ∧
          KAnonymity.user_positions c' !! u
          = KAnonymity.user_positions city1 !! u) ∧
    rng_calls r' = (0 + 3 * Z.to_nat 2)%nat.
Proof.
  apply (add_users_places_every_user city1 2
           {| rng_index := λ _, O; rng_unit := λ _, Q2Qc (1 # 2);
              rng_calls := O |}).
  - by_evaluation.
  - apply check_positioned. vm_compute. reflexivity.
  - unfold users_ok. by_evaluation.
  - intros u n Hloc. unfold located in Hloc.
    apply list_elem_of_singleton in Hloc. injection Hloc as -> ->.
    by_evaluation.
Defined.

Lemma add_users_without_nodes (c : KAnonymity.SmartCityGraph)
    (num_users : Z) (r : Rng) :
  g_nodes (KAnonymity.graph c) = [] →
  CitySimulation.add_users c num_users r
  = if decide (0 < num_users) then Raise IndexError else Ret (c, r).
Proof.
  intros Hempty. unfold CitySimulation.add_users, CitySimulation.range.
  rewrite Hempty. destruct (decide (0 < num_users)) as [Hpos|Hneg].
  - destruct (Z.to_nat num_users) as [|m] eqn:Hm; [lia|].
    unfold seqZ. rewrite Hm. reflexivity.
  - unfold seqZ. replace (Z.to_nat num_users) with O by lia. reflexivity.
Qed.

(** On a graph without nodes [add_users] raises [IndexError] as soon as
    one user is asked for, and does nothing when none is. *)
Theorem add_users_on_empty_graph (c : KAnonymity.SmartCityGraph)
    (num_users : Z) (r : Rng) :
  g_nodes (KAnonymity.graph c) = [] →
  CitySimulation.add_users c num_users r
  = if decide (0 < num_users) then Raise IndexError else Ret (c, r).
Proof.
  intros Hempty. unfold CitySimulation.add_users, CitySimulation.range.
  rewrite Hempty. destruct (decide (0 < num_users)) as [Hpos|Hneg].
  - destruct (Z.to_nat num_users) as [|m] eqn:Hm; [lia|].
    unfold seqZ. rewrite Hm. reflexivity.
  - unfold seqZ. replace (Z.to_nat num_users) with O by lia. reflexivity.
Qed.

Lemma add_users_on_empty_graph_witness :
  CitySimulation.add_users
    {| KAnonymity.graph := Nx.empty_graph; KAnonymity.users := [];
       KAnonymity.user_positions := ∅ |} 3
    {| rng_index := λ _, O; rng_unit := λ _, Q2Qc (1 # 2); rng_calls := O |}
  = if decide (0 < 3) then Raise IndexError
    else Ret ({| KAnonymity.graph := Nx.empty_graph; KAnonymity.users := [];
                 KAnonymity.user_positions := ∅ |},
              {| rng_index := λ _, O; rng_unit := λ _, Q2Qc (1 # 2);
                 rng_calls := O |}).
Proof.
  apply (add_users_on_empty_graph
           {| KAnonymity.graph := Nx.empty_graph; KAnonymity.users := [];
              KAnonymity.user_positions := ∅ |} 3).
  reflexivity.
Defined.

(** ** The simulation *)




Lemma mapM_res_first_raises {A B : Type} (f : A → res B) (e : exn)
    (x : A) (l : list A) :
  f x = Raise e → mapM f (x :: l) = Raise e.
Proof.
  intros Hx.
  change (mapM f (x :: l)) with (v ← f x; k ← mapM f l; mret (v :: k)).
  by rewrite Hx.
Qed.

Section SimulationRun.
Variable math_dist : Qc * Qc → Qc * Qc → pyfloat.
Variable mean_errors : list pyfloat → pyfloat.
Variable mean_sizes : list Z → pyfloat.
Variable percent : Z → Z → pyfloat.
Variable c : KAnonymity.SmartCityGraph.
Variable num_users : Z.
Hypothesis Hwf : wf_graph (KAnonymity.graph c).
Hypothesis Hconn : connected (KAnonymity.graph c).
Hypothesis Hpos : positioned (KAnonymity.graph c).
Hypothesis Hok : users_ok c.
Hypothesis Hpl : placed c.
Hypothesis Hkeys : ∀ u, u ∈ (KAnonymity.users c).*1 ↔ 0 ≤ u < num_users.
Hypothesis Hposn :
  ∀ u, 0 ≤ u < num_users → is_Some (KAnonymity.user_positions c !! u).







End SimulationRun.




(** X24: The simulation fails on degenerate sizes: without users the coverage
    of the first [k] divides by zero, and without cells the first user
    cannot be placed. *)
Theorem run_simulation_degenerate_sizes
    (math_dist : Qc * Qc → Qc * Qc → pyfloat)
    (mean_errors : list pyfloat → pyfloat) (mean_sizes : list Z → pyfloat)
    (percent : Z → Z → pyfloat)
    (grid_size num_users : Z) (ks : list Z) (r : Rng) :
  (num_users = 0 → ks ≠ [] →
   CitySimulation.run_simulation math_dist mean_errors mean_sizes percent
                                 grid_size num_users ks r
   = Raise ZeroDivisionError) ∧
  (grid_size ≤ 0 → 0 < num_users →
   CitySimulation.run_simulation math_dist mean_errors mean_sizes percent
                                 grid_size num_users ks r
   = Raise IndexError).
Proof.
  destruct (SmartCityGraph_init_spec grid_size r)
    as (c0 & r1 & Hinit & Hg & _).
  unfold CitySimulation.run_simulation. rewrite Hinit. split.
  - intros -> Hks. destruct ks as [|k ks]; [done|].
    change (CitySimulation.add_users c0 0 r1) with (Ret (c0, r1)).
    unfold mbind at 1. unfold res_bind at 1.
    rewrite (mapM_res_first_raises _ ZeroDivisionError); reflexivity.
  - intros Hsize Hn.
    assert (g_nodes (KAnonymity.graph c0) = []) as Hempty.
    { destruct Hg as (_ & [Hnodes _] & _).
      destruct (g_nodes (KAnonymity.graph c0)) as [|v l]; [done|].
      destruct (proj1 (Hnodes v)) as (i & j & Hi & _); [left|lia]. }
    rewrite (add_users_without_nodes c0 num_users r1 Hempty).
    rewrite decide_True by done. reflexivity.
Qed.

Lemma run_simulation_degenerate_sizes_witness :
  CitySimulation.run_simulation
    (λ _ _, Finite (Z2Qc 0)) (λ _, Finite (Z2Qc 0)) (λ _, Finite (Z2Qc 0))
    (λ a b, Finite (Z2Qc a / Z2Qc b * Z2Qc 100)%Qc)
    2 0 [2]
    {| rng_index := λ i, i; rng_unit := λ _, Q2Qc (1 # 2); rng_calls := O |}
  = Raise ZeroDivisionError ∧
  CitySimulation.run_simulation
    (λ _ _, Finite (Z2Qc 0)) (λ _, Finite (Z2Qc 0)) (λ _, Finite (Z2Qc 0))
    (λ a b, Finite (Z2Qc a / Z2Qc b * Z2Qc 100)%Qc)
    0 3 [2]
    {| rng_index := λ i, i; rng_unit := λ _, Q2Qc (1 # 2); rng_calls := O |}
  = Raise IndexError.
Proof.
  split.
  - apply (run_simulation_degenerate_sizes
             (λ _ _, Finite (Z2Qc 0)) (λ _, Finite (Z2Qc 0))
             (λ _, Finite (Z2Qc 0))
             (λ a b, Finite (Z2Qc a / Z2Qc b * Z2Qc 100)%Qc)
             2 0 [2]); done.
  - apply (run_simulation_degenerate_sizes
             (λ _ _, Finite (Z2Qc 0)) (λ _, Finite (Z2Qc 0))
             (λ _, Finite (Z2Qc 0))
             (λ a b, Finite (Z2Qc a / Z2Qc b * Z2Qc 100)%Qc)
             0 3 [2]); lia.
Defined.

(** The grids used as concrete inputs are what the constructor builds when
    no diagonal is drawn. *)
Example city_grids_are_built :
  KAnonymity.graph
    (CitySimulation.SmartCityGraph_init 1
       {| rng_index := λ _, O; rng_unit := λ _, Q2Qc (1 # 2);
          rng_calls := O |}).1
  = city_grid 1 ∧
  KAnonymity.graph
    (CitySimulation.SmartCityGraph_init 2
       {| rng_index := λ _, O; rng_unit := λ _, Q2Qc (1 # 2);
          rng_calls := O |}).1
  = city_grid 2 ∧
  KAnonymity.graph
    (CitySimulation.SmartCityGraph_init 3
       {| rng_index := λ _, O; rng_unit := λ _, Q2Qc (1 # 2);
          rng_calls := O |}).1
  = city_grid 3.
Proof. split_and!; vm_compute; reflexivity. Qed.

(** ** Adding noise *)

(** X25: With a privacy budget of zero [batch_obfuscate] divides by zero at the
    first location, before any noise is drawn; on no locations it returns
    the empty list all the same. *)
Theorem batch_obfuscate_zero_budget (generator : Type)
    (np_random_laplace :
       pyfloat → pyfloat → generator → res (pyfloat * generator))
    (float_div float_add : pyfloat → pyfloat → pyfloat)
    (self : DifferentialPrivacy.DifferentialPrivacyLocationObfuscator)
    (locations : list (pyfloat * pyfloat)) (epsilon : pyfloat)
    (g : generator) :
  Obfuscation.is_zero epsilon = true →
  Obfuscation.batch_obfuscate generator np_random_laplace float_div float_add
                              self locations epsilon g
  = match locations with
    | [] => Ret ([], g)
    | _ => Raise ZeroDivisionError
    end.
Proof.
  intros Hzero. destruct locations as [|[x y] rest]; [done|].
  simpl. unfold Obfuscation.obfuscate_location, Obfuscation.add_laplace_noise,
    Obfuscation.true_div. by rewrite Hzero.
Qed.

Lemma batch_obfuscate_zero_budget_witness :
  Obfuscation.batch_obfuscate unit (λ _ scale g, Ret (scale, g))
    (λ a _, a) (λ a _, a)
    {| DifferentialPrivacy.epsilon_values := [];
       DifferentialPrivacy.sensitivity := Finite (Z2Qc 1) |}
    [(Finite (Z2Qc 2), Finite (Z2Qc 3))] (Finite (Z2Qc 0)) ()
  = Raise ZeroDivisionError.
Proof.
  apply (batch_obfuscate_zero_budget unit (λ _ scale g, Ret (scale, g))
           (λ a _, a) (λ a _, a)
           {| DifferentialPrivacy.epsilon_values := [];
              DifferentialPrivacy.sensitivity := Finite (Z2Qc 1) |}
           [(Finite (Z2Qc 2), Finite (Z2Qc 3))] (Finite (Z2Qc 0)) ()).
  vm_compute. reflexivity.
Defined.



(** ** The summary of an experiment *)

Lemma statistics_mean_nonempty (data : list Z) :
  data ≠ [] → Statistics.mean data = KAnonymity.mean_of data.
Proof.
  intros Hne. unfold KAnonymity.mean_of, Statistics.mean.
  destruct data; [done|]. by rewrite decide_False.
Qed.

Lemma summary_on_data (ds ks : list Z) (szs : list nat) :
  ds ≠ [] → ks ≠ [] → szs ≠ [] →
  ∃ s,
    ExperimentSummary.get_experiment_summary ds ks szs = Ret s ∧
    Z.to_nat (ExperimentSummary.min_region_size s) ∈ szs ∧
    Z.to_nat (ExperimentSummary.max_region_size s) ∈ szs ∧
    (∀ sz, sz ∈ szs →
       ExperimentSummary.min_region_size s ≤ Z.of_nat sz
       ≤ ExperimentSummary.max_region_size s) ∧
    (Z2Qc (ExperimentSummary.min_region_size s)
     <= ExperimentSummary.avg_region_size s)%Qc ∧
    (ExperimentSummary.avg_region_size s
     <= Z2Qc (ExperimentSummary.max_region_size s))%Qc ∧
    (∀ lo hi, (∀ k, k ∈ ks → lo ≤ k ≤ hi) →
       (Z2Qc lo <= ExperimentSummary.avg_k s)%Qc ∧
       (ExperimentSummary.avg_k s <= Z2Qc hi)%Qc) ∧
    (∀ lo hi, (∀ d, d ∈ ds → lo ≤ d ≤ hi) →
       (Z2Qc lo <= ExperimentSummary.avg_density s)%Qc ∧
       (ExperimentSummary.avg_density s <= Z2Qc hi)%Qc).
Proof.
  intros Hds Hks Hszs.
  unfold ExperimentSummary.get_experiment_summary.
  set (zs := Z.of_nat <$> szs).
  assert (zs ≠ []) as Hzs by (unfold zs; by destruct szs).
  assert (∀ z, z ∈ zs → Z.to_nat z ∈ szs) as Hback.
  { intros z Hz. apply list_elem_of_fmap in Hz as (sz & -> & Hsz).
    by rewrite Nat2Z.id. }
  destruct (py_max_spec zs Hzs) as (mx & Hmx & Hmxin & Hmxall).
  destruct (py_min_spec zs Hzs) as (mn & Hmn & Hmnin & Hmnall).
  destruct (mean_of_nonempty ds Hds) as [ad Had].
  destruct (mean_of_nonempty ks Hks) as [ak Hak].
  destruct (mean_of_nonempty zs Hzs) as [az Haz].
  rewrite !statistics_mean_nonempty by done.
  rewrite Had, Hak, Haz, Hmx, Hmn.
  eexists. split; [reflexivity|]. simpl.
  assert (∀ z, z ∈ zs → mn ≤ z ≤ mx) as Hbox.
  { intros z Hz. split; [by apply Hmnall|by apply Hmxall]. }
  split_and!.
  - by apply Hback.
  - by apply Hback.
  - intros sz Hsz. apply Hbox. apply list_elem_of_fmap. by exists sz.
  - by apply (mean_of_bounds zs mn mx az Haz).
  - by apply (mean_of_bounds zs mn mx az Haz).
  - intros lo hi Hall. by apply (mean_of_bounds ks lo hi ak Hak).
  - intros lo hi Hall. by apply (mean_of_bounds ds lo hi ad Had).
Qed.

(** X27: The summary is defined as soon as the experiment has made one run:
    the smallest and the largest region size are sizes that occurred, the
    average size lies between them, and the average [k] lies between any
    bounds that hold for all values of [k].  On an experiment without
    runs it raises [StatisticsError]. *)
Theorem summary_lies_between_extremes (ds ks : list Z) (szs : list nat) :
  (ds = [] → ExperimentSummary.get_experiment_summary ds ks szs
             = Raise ValueError) ∧
  (ds ≠ [] → ks ≠ [] → szs ≠ [] →
   ∃ s,
     ExperimentSummary.get_experiment_summary ds ks szs = Ret s ∧
     Z.to_nat (ExperimentSummary.min_region_size s) ∈ szs ∧
     Z.to_nat (ExperimentSummary.max_region_size s) ∈ szs ∧
     (∀ sz, sz ∈ szs →
        ExperimentSummary.min_region_size s ≤ Z.of_nat sz
        ≤ ExperimentSummary.max_region_size s) ∧
     (Z2Qc (ExperimentSummary.min_region_size s)
      <= ExperimentSummary.avg_region_size s)%Qc ∧
     (ExperimentSummary.avg_region_size s
      <= Z2Qc (ExperimentSummary.max_region_size s))%Qc ∧
     (∀ lo hi, (∀ k, k ∈ ks → lo ≤ k ≤ hi) →
        (Z2Qc lo <= ExperimentSummary.avg_k s)%Qc ∧
        (ExperimentSummary.avg_k s <= Z2Qc hi)%Qc) ∧
     (∀ lo hi, (∀ d, d ∈ ds → lo ≤ d ≤ hi) →
        (Z2Qc lo <= ExperimentSummary.avg_density s)%Qc ∧
        (ExperimentSummary.avg_density s <= Z2Qc hi)%Qc)).
Proof.
  split.
  - by intros ->.
  - apply summary_on_data.
Qed.

Lemma summary_lies_between_extremes_witness :
  ExperimentSummary.get_experiment_summary [] [] [] = Raise ValueError ∧
  ∃ s,
    ExperimentSummary.get_experiment_summary [3; 12] [10; 2] [4; 1]%nat
    = Ret s ∧
    Z.to_nat (ExperimentSummary.min_region_size s) ∈ [4; 1]%nat ∧
    Z.to_nat (ExperimentSummary.max_region_size s) ∈ [4; 1]%nat ∧
    (∀ sz, sz ∈ [4; 1]%nat →
       ExperimentSummary.min_region_size s ≤ Z.of_nat sz
       ≤ ExperimentSummary.max_region_size s) ∧
    (Z2Qc (ExperimentSummary.min_region_size s)
     <= ExperimentSummary.avg_region_size s)%Qc ∧
    (ExperimentSummary.avg_region_size s
     <= Z2Qc (ExperimentSummary.max_region_size s))%Qc ∧
    (∀ lo hi, (∀ k, k ∈ [10; 2] → lo ≤ k ≤ hi) →
       (Z2Qc lo <= ExperimentSummary.avg_k s)%Qc ∧
       (ExperimentSummary.avg_k s <= Z2Qc hi)%Qc) ∧
    (∀ lo hi, (∀ d, d ∈ [3; 12] → lo ≤ d ≤ hi) →
       (Z2Qc lo <= ExperimentSummary.avg_density s)%Qc ∧
       (ExperimentSummary.avg_density s <= Z2Qc hi)%Qc).
Proof.
  split.
  - by apply (summary_lies_between_extremes [] [] []).
  - by apply (summary_lies_between_extremes [3; 12] [10; 2] [4; 1]%nat).
Defined.

(** X28: After a simulation of at least one run on a connected city with at
    least 10 users, the summary is defined: the average [k] lies between 2
    and 10, and the region sizes between 1 and the number of nodes, with
    the average between the smallest and the largest. *)
Theorem summary_after_simulation (G : Graph) (num_users runs : Z) (r : Rng) :
  wf_graph G → connected G → g_nodes G ≠ [] → 10 ≤ num_users → 1 ≤ runs →
  ∃ table r1 ds ks szs r2 s,
    Experiment.populate G num_users r = Ret (table, r1) ∧
    Experiment.run_simulation
      {| DensityAware.graph := G; DensityAware.user_at_node := table |}
      runs r1 = Ret (ds, ks, szs, r2) ∧
    ExperimentSummary.get_experiment_summary ds ks szs = Ret s ∧
    (Z2Qc 2 <= ExperimentSummary.avg_k s)%Qc ∧
    (ExperimentSummary.avg_k s <= Z2Qc 10)%Qc ∧
    1 ≤ ExperimentSummary.min_region_size s ∧
    (Z2Qc (ExperimentSummary.min_region_size s)
     <= ExperimentSummary.avg_region_size s)%Qc ∧
    (ExperimentSummary.avg_region_size s
     <= Z2Qc (ExperimentSummary.max_region_size s))%Qc ∧
    ExperimentSummary.max_region_size s ≤ Z.of_nat (length (g_nodes G)).
Proof.
  intros Hwf Hconn Hne Hnum Hruns.
  destruct (populate_returns G num_users r Hne)
    as (table & r1 & Hrun & Hpop & _ & Htotal & _).
  assert (10 ≤ total_population table G) as Hten by lia.
  destruct (class_runs_spec G table Hwf Hconn Hpop Hten (Z.to_nat runs)
              [] [] [] r1)
    as (ds & ks & szs & r2 & Hsim & Hl1 & Hks & Hl2 & Hall & _).
  assert (ds ≠ []) as Hds by (destruct ds; [simpl in Hl1; lia|done]).
  assert (ks ≠ []) as Hk by (rewrite Hks; by destruct ds).
  assert (szs ≠ []) as Hszs by (destruct szs; [simpl in Hl2; lia|done]).
  destruct (summary_on_data ds ks szs Hds Hk Hszs)
    as (s & Hs & Hmin & Hmax & _ & Hlo & Hhi & Hko & _).
  exists table, r1, ds, ks, szs, r2, s.
  rewrite Forall_forall in Hall.
  pose proof (Hall _ Hmin) as [Hmin1 _].
  pose proof (Hall _ Hmax) as [Hmax0 Hmax1].
  destruct (Hko 2 10) as [Hk2 Hk10].
  { intros k Hin. rewrite Hks in Hin.
    apply list_elem_of_fmap in Hin as (d & -> & _).
    unfold DensityAware.select_adaptive_k. repeat case_decide; lia. }
  split_and!; try done; lia.
Qed.

Lemma summary_after_simulation_witness :
  ∃ table r1 ds ks szs r2 s,
    Experiment.populate grid5 30
      {| rng_index := λ i, (3 * i)%nat; rng_unit := λ _, Q2Qc 0;
         rng_calls := O |} = Ret (table, r1) ∧
    Experiment.run_simulation
      {| DensityAware.graph := grid5; DensityAware.user_at_node := table |}
      20 r1 = Ret (ds, ks, szs, r2) ∧
    ExperimentSummary.get_experiment_summary ds ks szs = Ret s ∧
    (Z2Qc 2 <= ExperimentSummary.avg_k s)%Qc ∧
    (ExperimentSummary.avg_k s <= Z2Qc 10)%Qc ∧
    1 ≤ ExperimentSummary.min_region_size s ∧
    (Z2Qc (ExperimentSummary.min_region_size s)
     <= ExperimentSummary.avg_region_size s)%Qc ∧
    (ExperimentSummary.avg_region_size s
     <= Z2Qc (ExperimentSummary.max_region_size s))%Qc ∧
    ExperimentSummary.max_region_size s ≤ Z.of_nat (length (g_nodes grid5)).
Proof.
  apply (summary_after_simulation grid5 30 20).
  - apply grid5_wf.
  - apply grid5_connected.
  - discriminate.
  - lia.
  - lia.
Defined.

(** ** The devices of the city *)

Lemma clamp_in_city (size : Qc) (x : pyfloat) :
  (Z2Qc 0 <= size)%Qc →
  in_city size
    (DeviceSimulator.py_max2 (Finite (Z2Qc 0))
       (DeviceSimulator.py_min2 (Finite size) x)).
Proof.
  intros Hsize.
  unfold DeviceSimulator.py_max2, DeviceSimulator.py_min2,
    DeviceSimulator.float_ltb.
  destruct x as [q| | |]; simpl; repeat (case_bool_decide; simpl);
    (eexists; split_and!; [reflexivity|..]; first [done|apply Qcle_refl]).
Qed.

Lemma clustered_loop_spec (np_state : Type)
    (np_random_normal : pyfloat → pyfloat → np_state → pyfloat * np_state)
    (size : Qc) (count : nat) :
  (Z2Qc 0 <= size)%Qc →
  ∀ locations r g,
    ∃ cl r' g',
      DeviceSimulator.clustered_loop np_state np_random_normal (Finite size)
                                     count locations r g
      = Ret (locations ++ cl, r', g') ∧
      length cl = count ∧
      Forall (λ p, in_city size p.1 ∧ in_city size p.2) cl ∧
      rng_calls r' = (rng_calls r + count)%nat.
Proof.
  intros Hsize. induction count as [|count IH]; intros locations r g.
  - exists [], r, g. rewrite app_nil_r. split_and!; [done|done|constructor|lia].
  - destruct (choice_spec r DeviceSimulator.poi_centers) as (center & Hch & _);
      [done|].
    simpl. rewrite Hch. unfold mbind, res_bind.
    destruct (np_random_normal center.1 _ g) as [x g1].
    destruct (np_random_normal center.2 _ g1) as [y g2].
    match goal with
    | |- context [DeviceSimulator.clustered_loop _ _ _ count ?l ?r1 ?g3] =>
        destruct (IH l r1 g3) as (cl & r' & g' & Hrun & Hlen & Hall & Hcalls)
    end.
    rewrite Hrun, <- app_assoc. eexists _, r', g'.
    split_and!; [reflexivity|simpl; by rewrite Hlen| |simpl in Hcalls; lia].
    constructor; [|done]. simpl. split; by apply clamp_in_city.
Qed.

Lemma random_loop_spec (uniform : pyfloat → pyfloat → Rng → pyfloat * Rng)
    (city_size : pyfloat) (count : nat) :
  ∀ locations r,
    ∃ rn r',
      DeviceSimulator.random_loop uniform city_size count locations r
      = (locations ++ rn, r') ∧
      length rn = count.
Proof.
  induction count as [|count IH]; intros locations r.
  - exists [], r. by rewrite app_nil_r.
  - simpl. destruct (uniform _ city_size r) as [x r1].
    destruct (uniform _ city_size r1) as [y r2].
    destruct (IH (locations ++ [(x, y)]) r2) as (rn & r' & Hrun & Hlen).
    rewrite Hrun, <- app_assoc. eexists _, r'.
    split; [reflexivity|]. simpl. by rewrite Hlen.
Qed.

(** X29: Generating the devices of a city of size 0 or more cannot fail.  The
    clustered devices come first, and each of them lies inside the city,
    whatever the normal draws are -- infinite or [nan] included; then come
    the uniformly drawn ones. *)
Theorem clustered_devices_stay_in_city (np_state : Type)
    (np_random_normal : pyfloat → pyfloat → np_state → pyfloat * np_state)
    (uniform : pyfloat → pyfloat → Rng → pyfloat * Rng)
    (int_of_share : Z → Z)
    (size : Qc) (num_devices : Z) (r : Rng) (g : np_state) :
  (Z2Qc 0 <= size)%Qc →
  ∃ cl rn r' g',
    DeviceSimulator._generate_device_locations
      np_state np_random_normal uniform int_of_share
      (Finite size) num_devices r g
    = Ret (cl ++ rn, r', g') ∧
    length cl = Z.to_nat (int_of_share num_devices) ∧
    length rn = Z.to_nat (num_devices - int_of_share num_devices) ∧
    Forall (λ p, in_city size p.1 ∧ in_city size p.2) cl.
Proof.
  intros Hsize. unfold DeviceSimulator._generate_device_locations.
  destruct (clustered_loop_spec np_state np_random_normal size
              (Z.to_nat (int_of_share num_devices)) Hsize [] r g)
    as (cl & r1 & g1 & Hrun & Hlen & Hall & _).
  rewrite Hrun. unfold mbind, res_bind. simpl.
  destruct (random_loop_spec uniform (Finite size)
              (Z.to_nat (num_devices - int_of_share num_devices)) cl r1)
    as (rn & r2 & Hrun' & Hlen').
  rewrite Hrun'. by exists cl, rn, r2, g1.
Qed.

Lemma clustered_devices_stay_in_city_witness :
  ∃ cl rn r' g',
    DeviceSimulator._generate_device_locations
      unit (λ _ _ g, (NaN, g)) (λ a _ r, (a, rng_next r)) (λ n, n - 1)
      (Finite (Z2Qc 10)) 3
      {| rng_index := λ i, i; rng_unit := λ _, Q2Qc (1 # 2);
         rng_calls := O |} ()
    = Ret (cl ++ rn, r', g') ∧
    length cl = Z.to_nat (3 - 1) ∧
    length rn = Z.to_nat (3 - (3 - 1)) ∧
    Forall (λ p, in_city (Z2Qc 10) p.1 ∧ in_city (Z2Qc 10) p.2) cl.
Proof.
  apply (clustered_devices_stay_in_city unit (λ _ _ g, (NaN, g))
           (λ a _ r, (a, rng_next r)) (λ n, n - 1) (Z2Qc 10) 3).
  by apply Z2Qc_le.
Defined.

(** ** A density search without limit *)

Section Sweep.
Variable G : Graph.
Variable user_locations : gmap Z Z.
Hypothesis Hwf : wf_graph G.
Hypothesis Hpop : populated user_locations G.
Variable node : Z.
Variable depth : Z.
Hypothesis Hneg : depth < 0.

Lemma sweep_loop_spec (fuel : nat) :
  ∀ s, sweep_inv G user_locations node s →
       (Inv.d_measure G s < fuel)%nat →
  ∃ V, ADKA.density_loop G user_locations fuel depth s
       = Ret (aggregate user_locations V) ∧
       ∀ w, w ∈ V ↔ rtc (edge G) node w.
Proof.
  induction fuel as [|fuel IH]; intros s Hinv Hfuel; [lia|].
  destruct Hinv as [Hnodes Hcount Hqueue Hreach Hdone Hseed].
  simpl. destruct (ADKA.d_queue s) as [|[current d] q] eqn:Hq.
  - exists (ADKA.d_visited s). split; [by rewrite Hcount|].
    intros w. split; [apply Hreach|].
    apply closed_contains_reachable; [|done].
    intros n x Hn He. destruct (Hdone n Hn) as [Hin|Hall]; [inversion Hin|].
    by apply Hall.
  - destruct (Hqueue (current, d)) as [Hcur Hd]; [left|]. simpl in Hcur, Hd.
    rewrite decide_False by lia.
    assert (current ∈ g_nodes G) as Hnode
      by (by apply node_set_elem, Hnodes).
    destruct (neighbors_of_node G current Hwf Hnode) as (l & Hl & Hadj & Hln).
    rewrite Hl. cbn [mbind res_bind].
    set (s0 := {| ADKA.d_visited := ADKA.d_visited s; ADKA.d_queue := q;
                  ADKA.d_count := ADKA.d_count s |}).
    destruct (density_scan_spec G user_locations Hpop d l s0 Hnodes Hcount Hln)
      as (s' & added & Hrun & Hq' & Hv & Hadd & Hsub' & Hcnt' & Hall & Hm).
    rewrite Hrun. cbn [mbind res_bind]. apply IH.
    + split.
      * done.
      * done.
      * intros p Hp. rewrite Hq' in Hp. simpl in Hp.
        apply elem_of_app in Hp as [Hp|Hp].
        -- destruct (Hqueue p) as [H1 H2]; [by right|].
           split; [|done]. apply Hv. by left.
        -- apply list_elem_of_fmap in Hp as (w & -> & Hw). simpl.
           split; [|lia]. apply Hv. by right.
      * intros w Hw. apply Hv in Hw as [Hw|Hw]; [by apply Hreach|].
        eapply rtc_r; [by apply Hreach|]. exists l. split; [done|].
        by apply Hadd.
      * intros u Hu. apply Hv in Hu as [Hu|Hu].
        -- destruct (Hdone u Hu) as [Hin|Hdn].
           ++ simpl in Hin. apply elem_of_cons in Hin as [->|Hin].
              ** right. intros w (l' & Hl' & Hw).
                 rewrite Hadj in Hl'. injection Hl' as <-. by apply Hall.
              ** left. rewrite Hq'. simpl. rewrite fmap_app.
                 apply elem_of_app. by left.
           ++ right. intros w He. apply Hv. left. by apply Hdn.
        -- left. rewrite Hq', fmap_app. apply elem_of_app. right.
           rewrite <- list_fmap_compose. simpl.
           apply list_elem_of_fmap. by exists u.
      * apply Hv. by left.
    + rewrite Hm. unfold Inv.d_measure in *. rewrite Hq in Hfuel.
      simpl in *. lia.
Qed.

Lemma sweep_spec :
  node ∈ g_nodes G →
  ∃ V, ADKA.compute_density G user_locations node depth
       = Ret (aggregate user_locations V) ∧
       ∀ w, w ∈ V ↔ rtc (edge G) node w.
Proof.
  intros Hnode. destruct (Hpop node Hnode) as [c Hc].
  unfold ADKA.compute_density, getitem. rewrite Hc. cbn [mbind res_bind].
  apply sweep_loop_spec.
  - split; simpl.
    + intros x Hx. apply elem_of_singleton in Hx as ->.
      by apply node_set_elem.
    + rewrite aggregate_singleton. unfold pop_at. by rewrite Hc.
    + intros p Hp. apply list_elem_of_singleton in Hp as ->. simpl.
      split; [by apply elem_of_singleton|lia].
    + intros w Hw. apply elem_of_singleton in Hw as ->. apply rtc_refl.
    + intros u Hu. apply elem_of_singleton in Hu as ->. left. left.
    + by apply elem_of_singleton.
  - unfold Inv.d_measure, ADKA.loop_fuel. simpl.
    pose proof (subseteq_size (node_set G ∖ {[node]}) (node_set G)) as Hsz.
    unfold node_set in *.
    rewrite size_list_to_set in Hsz by apply (wf_nodup G Hwf).
    assert (list_to_set (g_nodes G) ∖ {[node]} ⊆@{gset Z}
            list_to_set (g_nodes G)) as Hsub
      by apply subseteq_difference_l, reflexivity.
    specialize (Hsz Hsub). lia.
Qed.
End Sweep.

(** X30: A negative depth is no error and no empty search: the limit is
    never met, and both density functions return the population of the
    whole connected component of the node -- on a connected graph, the
    total population. *)
Theorem negative_depth_sweeps_the_component (G : Graph)
    (user_locations : gmap Z Z) (node depth : Z) :
  wf_graph G → populated user_locations G → node ∈ g_nodes G → depth < 0 →
  ∃ V,
    (∀ w, w ∈ V ↔ rtc (edge G) node w) ∧
    ADKA.compute_density G user_locations node depth
    = Ret (aggregate user_locations V) ∧
    DensityAware.compute_local_density
      {| DensityAware.graph := G; DensityAware.user_at_node := user_locations |}
      node depth
    = Ret (aggregate user_locations V) ∧
    (connected G → V = node_set G).
Proof.
  intros Hwf Hpop Hnode Hneg.
  destruct (sweep_spec G user_locations Hwf Hpop node depth Hneg Hnode)
    as (V & Hrun & HV).
  exists V. split_and!; [done|done|exact Hrun|].
  intros Hconn. apply set_eq. intros w. rewrite HV. split.
  - intros Hpath.
    apply (closed_contains_reachable G (node_set G) node w);
      [|by apply node_set_elem|done].
    intros n x _ He. apply node_set_elem. by apply (wf_closed G Hwf n x).
  - intros Hw. apply Hconn; [done|]. by apply node_set_elem.
Qed.

Lemma negative_depth_sweeps_the_component_witness :
  ∃ V,
    (∀ w, w ∈ V ↔ rtc (edge grid2) 0 w) ∧
    ADKA.compute_density grid2 pop2 0 (-1) = Ret (aggregate pop2 V) ∧
    DensityAware.compute_local_density
      {| DensityAware.graph := grid2; DensityAware.user_at_node := pop2 |}
      0 (-1)
    = Ret (aggregate pop2 V) ∧
    (connected grid2 → V = node_set grid2).
Proof.
  apply (negative_depth_sweeps_the_component grid2 pop2 0 (-1)).
  - apply grid2_wf.
  - apply pop2_populated.
  - by_evaluation.
  - lia.
Defined.
